(** * codecov-action: parse, aggregate, persist, retrieve, compare

    A shallow embedding of the coverage pipeline of the action
    (src/parsers/coverage-parser.ts, src/utils/coverage-comparison.ts,
    src/utils/artifact-manager.ts) together with the properties its
    specification states about it. *)

From Stdlib Require Import ZArith NArith Floats.SpecFloat Ascii String.
From stdpp Require Import base option list strings gmap.

(** ** JavaScript numbers

    Every [number] of the program is an IEEE 754 binary64 value.  The
    arithmetic is the one of [SpecFloat] at precision 53. *)

Module Num.
Local Open Scope Z_scope.

Definition prec : Z := 53.
Definition emax : Z := 1024.

Abbreviation number := spec_float.

Definition NaN : number := S754_nan.
Definition zero : number := S754_zero false.

(** The number denoted by an integer literal. *)
Definition of_Z (z : Z) : number := binary_normalize prec emax z 0 false.

Definition add : number -> number -> number := SFadd prec emax.
Definition sub : number -> number -> number := SFsub prec emax.
Definition mul : number -> number -> number := SFmul prec emax.
Definition div : number -> number -> number := SFdiv prec emax.
Definition neg : number -> number := SFopp.

(** [x > y], [x < y], [x === y] and [x !== y] on numbers. *)
Definition gt (x y : number) : bool := SFltb y x.
Definition lt (x y : number) : bool := SFltb x y.
Definition strict_eq (x y : number) : bool := SFeqb x y.
Definition strict_ne (x y : number) : bool := negb (SFeqb x y).

(** ToBoolean on a number: [0], [-0] and [NaN] are falsy. *)
Definition truthy (x : number) : bool :=
  match x with
  | S754_zero _ | S754_nan => false
  | _ => true
  end.

(** [a || b] on numbers. *)
Definition or_else (a b : number) : number := if truthy a then a else b.

Definition is_finite (x : number) : bool :=
  match x with
  | S754_zero _ | S754_finite _ _ _ => true
  | _ => false
  end.

(** [Number.prototype.toFixed(2)] picks the integer [n] for which
    [n / 100 - |x|] is closest to zero, the larger one on a tie:
    [n = floor (|x| * 100 + 1/2)], computed exactly on [|x| = m * 2^e]. *)
Definition hundredths (m : positive) (e : Z) : Z :=
  match e with
  | Zneg k => (200 * Zpos m + 2 ^ Zpos k) / 2 ^ (Zpos k + 1)
  | _ => 100 * Zpos m * 2 ^ e
  end.

(** The binary64 value nearest to [n / d] with sign [s] (ties to even):
    what [Number.parseFloat] returns on the decimal text of [n / d]. *)
Definition of_decimal (s : bool) (n : Z) (d : positive) : number :=
  match n with
  | Zpos _ =>
      let '(q, e, l) := SFdiv_core_binary prec emax n 0 (Zpos d) 0 in
      binary_round_aux prec emax s q e l
  | _ => S754_zero s
  end.

(** [Number.parseFloat(x.toFixed(2))].  [toFixed] prints [NaN] and the
    infinities by name, both zeros as ["0.00"], a magnitude of at least
    [10^21] in the round-trip notation of [ToString], and everything
    else as a sign and [n] with two fraction digits. *)
Definition round2 (x : number) : number :=
  match x with
  | S754_nan => S754_nan
  | S754_infinity s => S754_infinity s
  | S754_zero _ => S754_zero false
  | S754_finite s m e =>
      if (0 <=? e) && (10 ^ 21 <=? Zpos m * 2 ^ e) then x
      else of_decimal s (hundredths m e) 100
  end.

(** SameValueZero: the equality of [Map] keys and of [includes]; it
    identifies the two zeros and takes [NaN] to be equal to itself. *)
Definition same_value_zero (x y : number) : Prop :=
  x = y \/ (exists s t, x = S754_zero s /\ y = S754_zero t).

Definition hundred : number := Eval vm_compute in of_Z 100.
End Num.

Import Num.

(** ** JavaScript strings

    A string is its sequence of UTF-16 code units.  [lit] embeds the
    ASCII literals of the source. *)

Abbreviation jsstring := (list N).

Definition lit (s : string) : jsstring :=
  N_of_ascii <$> list_ascii_of_string s.

(** ToBoolean on a string: only the empty string is falsy. *)
Definition str_truthy (s : jsstring) : bool :=
  match s with
  | [] => false
  | _ => true
  end.

(** [o || d] where [o] is a possibly undefined string. *)
Definition str_or (o : option jsstring) (d : jsstring) : jsstring :=
  match o with
  | Some s => if str_truthy s then s else d
  | None => d
  end.

(** WhiteSpace and LineTerminator code units, skipped by [parseInt]. *)
Definition is_white_space (c : N) : bool :=
  bool_decide (c ∈ [9; 10; 11; 12; 13; 32; 160; 5760; 8232; 8233; 8239;
                    8287; 12288; 65279]%N)
  || ((8192 <=? c) && (c <=? 8202))%N.

Definition is_digit (c : N) : bool := ((48 <=? c) && (c <=? 57))%N.

Fixpoint drop_while {A} (p : A -> bool) (l : list A) : list A :=
  match l with
  | x :: r => if p x then drop_while p r else l
  | [] => []
  end.

Fixpoint take_while {A} (p : A -> bool) (l : list A) : list A :=
  match l with
  | x :: r => if p x then x :: take_while p r else []
  | [] => []
  end.

(** The integer written by a run of decimal digits. *)
Definition decimal_value (ds : jsstring) : Z :=
  fold_left (fun acc c => 10 * acc + (Z.of_N c - 48))%Z ds 0%Z.

(** [Number.parseInt(s, 10)]: trim leading white space, read an optional
    sign, then the longest run of digits; [NaN] when that run is empty,
    a signed zero when it denotes zero, and the nearest binary64 value
    otherwise. *)
Definition parseInt10 (s : jsstring) : number :=
  let trimmed := drop_while is_white_space s in
  let '(negative, rest) :=
    match trimmed with
    | 45%N :: r => (true, r)
    | 43%N :: r => (false, r)
    | _ => (false, trimmed)
    end in
  match take_while is_digit rest with
  | [] => NaN
  | ds =>
      let n := decimal_value ds in
      if (n =? 0)%Z then S754_zero negative
      else binary_normalize prec emax (if negative then - n else n)%Z 0 false
  end.

(** [Number.parseInt(o, 10)] on a possibly undefined attribute: ToString
    turns [undefined] into text without a digit. *)
Definition parseInt10_opt (o : option jsstring) : number :=
  parseInt10 (default (lit "undefined") o).

(** Thrown values: an [Error] with its message, or anything else. *)
Inductive thrown :=
  | ErrorObj (message : jsstring)
  | ThrownOther.

(** ** The data model (src/types/coverage.ts) *)

Module LineCoverage.
Record t := mk {
  lineNumber : number;
  count : number;
  type : jsstring;
  trueCount : option number;
  falseCount : option number;
}.
End LineCoverage.

Module FileCoverage.
Record t := mk {
  name : jsstring;
  path : jsstring;
  statements : number;
  coveredStatements : number;
  conditionals : number;
  coveredConditionals : number;
  methods : number;
  coveredMethods : number;
  lineRate : number;
  branchRate : number;
  lines : list LineCoverage.t;
  missingLines : option (list number);
  partialLines : option (list number);
  patchCoverage : option number;
}.
End FileCoverage.

Module CoverageMetrics.
Record t := mk {
  statements : number;
  coveredStatements : number;
  conditionals : number;
  coveredConditionals : number;
  methods : number;
  coveredMethods : number;
  elements : number;
  coveredElements : number;
  lineRate : number;
  branchRate : number;
}.
End CoverageMetrics.

Module CoverageResults.
Record t := mk {
  timestamp : number;
  metrics : CoverageMetrics.t;
  files : list FileCoverage.t;
}.
End CoverageResults.

Module FileComparison.
Record t := mk {
  name : jsstring;
  path : jsstring;
  baseLineRate : number;
  currentLineRate : number;
  baseBranchRate : number;
  currentBranchRate : number;
  deltaLineRate : number;
  deltaBranchRate : number;
  deltaStatements : number;
  deltaCoveredStatements : number;
  deltaConditionals : number;
  deltaCoveredConditionals : number;
  missingLines : option number;
  partialLines : option number;
}.
End FileComparison.

Module CoverageComparison.
Record t := mk {
  filesAdded : list FileCoverage.t;
  filesRemoved : list FileCoverage.t;
  filesChanged : list FileComparison.t;
  deltaLineRate : number;
  deltaBranchRate : number;
  deltaTotalStatements : number;
  deltaCoveredStatements : number;
  deltaTotalConditionals : number;
  deltaCoveredConditionals : number;
  deltaTotalMethods : number;
  deltaCoveredMethods : number;
  improvement : bool;
  deltaFiles : option number;
  deltaLines : option number;
  deltaBranches : option number;
  deltaHits : option number;
  deltaMisses : option number;
  deltaPartials : option number;
  baseBranch : option jsstring;
  headCommit : option jsstring;
  baseCommit : option jsstring;
  baseFiles : option number;
  baseLines : option number;
  baseBranches : option number;
  baseHits : option number;
  baseMisses : option number;
  basePartials : option number;
  currentFiles : option number;
  currentLines : option number;
  currentBranches : option number;
  currentHits : option number;
  currentMisses : option number;
  currentPartials : option number;
}.
End CoverageComparison.

Module AggregatedCoverageResults.
Record t := mk {
  totalStatements : number;
  coveredStatements : number;
  totalConditionals : number;
  coveredConditionals : number;
  totalMethods : number;
  coveredMethods : number;
  lineRate : number;
  branchRate : number;
  files : list FileCoverage.t;
  comparison : option CoverageComparison.t;
  flags : option (list jsstring);
  name : option jsstring;
  totalHits : option number;
  totalMisses : option number;
  totalPartials : option number;
  totalBranches : option number;
  totalFiles : option number;
  totalLines : option number;
  patchCoverageRate : option number;
}.
End AggregatedCoverageResults.

(** ** The Clover parser (src/parsers/coverage-parser.ts)

    [xml2js] runs with [explicitArray: false] and [mergeAttrs: true]: an
    element is an object holding its attributes as strings and its
    children by tag, a child being a single object or, when the tag
    repeats, an array. *)

(** A child that is present is taken to be an element with attributes or
    children of its own, which [xml2js] decodes to an object. *)
Inductive children (A : Type) :=
  | Absent
  | Single (x : A)
  | Many (xs : list A).
Arguments Absent {A}.
Arguments Single {A} x.
Arguments Many {A} xs.

(** [Array.isArray(c) ? c : c ? [c] : []] *)
Definition as_array {A} (c : children A) : list A :=
  match c with
  | Many xs => xs
  | Single x => [x]
  | Absent => []
  end.

Module FileElement.
Record t := mk {
  name : option jsstring;
  path : option jsstring;
  metrics : option (gmap string jsstring);
  line : children (gmap string jsstring);
}.
End FileElement.

Module ProjectElement.
Record t := mk {
  metrics : option (gmap string jsstring);
  file : children FileElement.t;
}.
End ProjectElement.

Module CoverageElement.
Record t := mk {
  generated : option jsstring;
  project : option ProjectElement.t;
}.
End CoverageElement.

Module XmlResult.
Record t := mk { coverage : option CoverageElement.t }.
End XmlResult.

(** Reading a property of [undefined] throws a [TypeError]. *)
Definition read_of_undefined : thrown :=
  ErrorObj (lit "Cannot read properties of undefined (reading 'statements')").

Definition parseMetrics (metricsAttrs : option (gmap string jsstring))
  : thrown + CoverageMetrics.t :=
  match metricsAttrs with
  | None => inl read_of_undefined
  | Some metricsAttrs =>
      let statements := parseInt10 (str_or (metricsAttrs !! "statements") (lit "0")) in
      let coveredStatements :=
        parseInt10 (str_or (metricsAttrs !! "coveredstatements") (lit "0")) in
      let conditionals := parseInt10 (str_or (metricsAttrs !! "conditionals") (lit "0")) in
      let coveredConditionals :=
        parseInt10 (str_or (metricsAttrs !! "coveredconditionals") (lit "0")) in
      let methods := parseInt10 (str_or (metricsAttrs !! "methods") (lit "0")) in
      let coveredMethods :=
        parseInt10 (str_or (metricsAttrs !! "coveredmethods") (lit "0")) in
      let elements := parseInt10 (str_or (metricsAttrs !! "elements") (lit "0")) in
      let coveredElements :=
        parseInt10 (str_or (metricsAttrs !! "coveredelements") (lit "0")) in
      let lineRate :=
        if gt statements zero
        then round2 (mul (div coveredStatements statements) hundred)
        else zero in
      let branchRate :=
        if gt conditionals zero
        then round2 (mul (div coveredConditionals conditionals) hundred)
        else zero in
      inr {| CoverageMetrics.statements := statements;
             CoverageMetrics.coveredStatements := coveredStatements;
             CoverageMetrics.conditionals := conditionals;
             CoverageMetrics.coveredConditionals := coveredConditionals;
             CoverageMetrics.methods := methods;
             CoverageMetrics.coveredMethods := coveredMethods;
             CoverageMetrics.elements := elements;
             CoverageMetrics.coveredElements := coveredElements;
             CoverageMetrics.lineRate := lineRate;
             CoverageMetrics.branchRate := branchRate |}
  end.

Definition parseLine (line : gmap string jsstring) : LineCoverage.t :=
  {| LineCoverage.lineNumber := parseInt10_opt (line !! "num");
     LineCoverage.count := parseInt10_opt (line !! "count");
     LineCoverage.type := str_or (line !! "type") (lit "stmt");
     LineCoverage.trueCount := parseInt10 <$> line !! "truecount";
     LineCoverage.falseCount := parseInt10 <$> line !! "falsecount" |}.

Definition parseFile_internal (fileElement : FileElement.t)
  : thrown + FileCoverage.t :=
  match parseMetrics (FileElement.metrics fileElement) with
  | inl e => inl e
  | inr metrics =>
      let lines := parseLine <$> as_array (FileElement.line fileElement) in
      inr {| FileCoverage.name := str_or (FileElement.name fileElement) [];
             FileCoverage.path := str_or (FileElement.path fileElement) [];
             FileCoverage.statements := CoverageMetrics.statements metrics;
             FileCoverage.coveredStatements := CoverageMetrics.coveredStatements metrics;
             FileCoverage.conditionals := CoverageMetrics.conditionals metrics;
             FileCoverage.coveredConditionals :=
               CoverageMetrics.coveredConditionals metrics;
             FileCoverage.methods := CoverageMetrics.methods metrics;
             FileCoverage.coveredMethods := CoverageMetrics.coveredMethods metrics;
             FileCoverage.lineRate := CoverageMetrics.lineRate metrics;
             FileCoverage.branchRate := CoverageMetrics.branchRate metrics;
             FileCoverage.lines := lines;
             FileCoverage.missingLines := None;
             FileCoverage.partialLines := None;
             FileCoverage.patchCoverage := None |}
  end.

(** The loop [for (const file of projectFiles) files.push(...)]: the
    first element that throws ends it. *)
Fixpoint parseFiles (projectFiles : list FileElement.t)
  : thrown + list FileCoverage.t :=
  match projectFiles with
  | [] => inr []
  | file :: rest =>
      match parseFile_internal file with
      | inl e => inl e
      | inr f =>
          match parseFiles rest with
          | inl e => inl e
          | inr fs => inr (f :: fs)
          end
      end
  end.

(** [parseXML] after [parseStringPromise] has decoded the text. *)
Definition parseXML (result : XmlResult.t) : thrown + CoverageResults.t :=
  match XmlResult.coverage result with
  | None => inl (ErrorObj (lit "Invalid Clover XML: missing coverage element"))
  | Some coverage =>
      match CoverageElement.project coverage with
      | None => inl (ErrorObj (lit "Invalid Clover XML: missing project element"))
      | Some project =>
          match parseMetrics (ProjectElement.metrics project) with
          | inl e => inl e
          | inr metrics =>
              match parseFiles (as_array (ProjectElement.file project)) with
              | inl e => inl e
              | inr files =>
                  inr {| CoverageResults.timestamp :=
                           parseInt10 (str_or (CoverageElement.generated coverage) (lit "0"));
                         CoverageResults.metrics := metrics;
                         CoverageResults.files := files |}
              end
          end
      end
  end.

(** *** Aggregation *)

Record totals := mkTotals {
  acc_totalStatements : number;
  acc_coveredStatements : number;
  acc_totalConditionals : number;
  acc_coveredConditionals : number;
  acc_totalMethods : number;
  acc_coveredMethods : number;
  acc_allFiles : list FileCoverage.t;
}.

(** One turn of [for (const result of results)]. *)
Definition aggregate_step (acc : totals) (result : CoverageResults.t) : totals :=
  let m := CoverageResults.metrics result in
  {| acc_totalStatements := add (acc_totalStatements acc) (CoverageMetrics.statements m);
     acc_coveredStatements :=
       add (acc_coveredStatements acc) (CoverageMetrics.coveredStatements m);
     acc_totalConditionals :=
       add (acc_totalConditionals acc) (CoverageMetrics.conditionals m);
     acc_coveredConditionals :=
       add (acc_coveredConditionals acc) (CoverageMetrics.coveredConditionals m);
     acc_totalMethods := add (acc_totalMethods acc) (CoverageMetrics.methods m);
     acc_coveredMethods := add (acc_coveredMethods acc) (CoverageMetrics.coveredMethods m);
     acc_allFiles := acc_allFiles acc ++ CoverageResults.files result |}.

Definition aggregateResults (results : list CoverageResults.t)
  : AggregatedCoverageResults.t :=
  let acc := fold_left aggregate_step results
               (mkTotals zero zero zero zero zero zero []) in
  let lineRate :=
    if gt (acc_totalStatements acc) zero
    then round2 (mul (div (acc_coveredStatements acc) (acc_totalStatements acc)) hundred)
    else zero in
  let branchRate :=
    if gt (acc_totalConditionals acc) zero
    then round2 (mul (div (acc_coveredConditionals acc) (acc_totalConditionals acc)) hundred)
    else zero in
  {| AggregatedCoverageResults.totalStatements := acc_totalStatements acc;
     AggregatedCoverageResults.coveredStatements := acc_coveredStatements acc;
     AggregatedCoverageResults.totalConditionals := acc_totalConditionals acc;
     AggregatedCoverageResults.coveredConditionals := acc_coveredConditionals acc;
     AggregatedCoverageResults.totalMethods := acc_totalMethods acc;
     AggregatedCoverageResults.coveredMethods := acc_coveredMethods acc;
     AggregatedCoverageResults.lineRate := lineRate;
     AggregatedCoverageResults.branchRate := branchRate;
     AggregatedCoverageResults.files := acc_allFiles acc;
     AggregatedCoverageResults.comparison := None;
     AggregatedCoverageResults.flags := None;
     AggregatedCoverageResults.name := None;
     AggregatedCoverageResults.totalHits := None;
     AggregatedCoverageResults.totalMisses := None;
     AggregatedCoverageResults.totalPartials := None;
     AggregatedCoverageResults.totalBranches := None;
     AggregatedCoverageResults.totalFiles := None;
     AggregatedCoverageResults.totalLines := None;
     AggregatedCoverageResults.patchCoverageRate := None |}.

(** ** The comparator (src/utils/coverage-comparison.ts)

    A JavaScript [Map] iterates in insertion order; [set] on a key that
    is present replaces the value and keeps the key's position. *)

Section JsMap.
Context {K V : Type} `{EqDecision K}.

Fixpoint map_set (k : K) (v : V) (m : list (K * V)) : list (K * V) :=
  match m with
  | [] => [(k, v)]
  | (k', v') :: rest =>
      if decide (k' = k) then (k, v) :: rest else (k', v') :: map_set k v rest
  end.

Fixpoint map_get (k : K) (m : list (K * V)) : option V :=
  match m with
  | [] => None
  | (k', v') :: rest => if decide (k' = k) then Some v' else map_get k rest
  end.

Definition map_has (k : K) (m : list (K * V)) : bool :=
  match map_get k m with
  | Some _ => true
  | None => false
  end.
End JsMap.

Module CompareOptions.
Record t := mk {
  baseBranch : option jsstring;
  headCommit : option jsstring;
  baseCommit : option jsstring;
}.
End CompareOptions.

(** [o || d] where [o] is an optional numeric field. *)
Definition num_or (o : option number) (d : number) : number :=
  match o with
  | Some x => or_else x d
  | None => d
  end.

(** [xs?.length || 0] *)
Definition length_or_zero {A} (xs : option (list A)) : number :=
  match xs with
  | Some l => or_else (of_Z (Z.of_nat (length l))) zero
  | None => zero
  end.

Definition compareFiles (baseFile currentFile : FileCoverage.t) : FileComparison.t :=
  {| FileComparison.name := FileCoverage.name currentFile;
     FileComparison.path := FileCoverage.path currentFile;
     FileComparison.baseLineRate := FileCoverage.lineRate baseFile;
     FileComparison.currentLineRate := FileCoverage.lineRate currentFile;
     FileComparison.baseBranchRate := FileCoverage.branchRate baseFile;
     FileComparison.currentBranchRate := FileCoverage.branchRate currentFile;
     FileComparison.deltaLineRate :=
       round2 (sub (FileCoverage.lineRate currentFile) (FileCoverage.lineRate baseFile));
     FileComparison.deltaBranchRate :=
       round2 (sub (FileCoverage.branchRate currentFile) (FileCoverage.branchRate baseFile));
     FileComparison.deltaStatements :=
       sub (FileCoverage.statements currentFile) (FileCoverage.statements baseFile);
     FileComparison.deltaCoveredStatements :=
       sub (FileCoverage.coveredStatements currentFile)
           (FileCoverage.coveredStatements baseFile);
     FileComparison.deltaConditionals :=
       sub (FileCoverage.conditionals currentFile) (FileCoverage.conditionals baseFile);
     FileComparison.deltaCoveredConditionals :=
       sub (FileCoverage.coveredConditionals currentFile)
           (FileCoverage.coveredConditionals baseFile);
     FileComparison.missingLines :=
       Some (length_or_zero (FileCoverage.missingLines currentFile));
     FileComparison.partialLines :=
       Some (length_or_zero (FileCoverage.partialLines currentFile)) |}.

(** [for (const file of files) fileMap.set(file.path, file)] *)
Definition build_file_map (files : list FileCoverage.t)
  : list (jsstring * FileCoverage.t) :=
  fold_left (fun m file => map_set (FileCoverage.path file) file m) files [].

(** One turn of the loop over [currentFileMap]. *)
Definition added_changed_step (baseFileMap : list (jsstring * FileCoverage.t))
    (acc : list FileCoverage.t * list FileComparison.t)
    (entry : jsstring * FileCoverage.t)
  : list FileCoverage.t * list FileComparison.t :=
  let '(filesAdded, filesChanged) := acc in
  let '(path, currentFile) := entry in
  match map_get path baseFileMap with
  | None => (filesAdded ++ [currentFile], filesChanged)
  | Some baseFile =>
      let comparison := compareFiles baseFile currentFile in
      if strict_ne (FileComparison.deltaLineRate comparison) zero
         || strict_ne (FileComparison.deltaBranchRate comparison) zero
      then (filesAdded, filesChanged ++ [comparison])
      else (filesAdded, filesChanged)
  end.

(** One turn of the loop over [baseFileMap]. *)
Definition removed_step (currentFileMap : list (jsstring * FileCoverage.t))
    (filesRemoved : list FileCoverage.t) (entry : jsstring * FileCoverage.t)
  : list FileCoverage.t :=
  let '(path, baseFile) := entry in
  if map_has path currentFileMap then filesRemoved else filesRemoved ++ [baseFile].

(** [files.length] *)
Definition files_length (r : AggregatedCoverageResults.t) : number :=
  of_Z (Z.of_nat (length (AggregatedCoverageResults.files r))).

Definition compareResults (baseResults currentResults : AggregatedCoverageResults.t)
    (options : option CompareOptions.t) : CoverageComparison.t :=
  let baseFileMap := build_file_map (AggregatedCoverageResults.files baseResults) in
  let currentFileMap := build_file_map (AggregatedCoverageResults.files currentResults) in
  let '(filesAdded, filesChanged) :=
    fold_left (added_changed_step baseFileMap) currentFileMap ([], []) in
  let filesRemoved := fold_left (removed_step currentFileMap) baseFileMap [] in
  let deltaLineRate :=
    round2 (sub (AggregatedCoverageResults.lineRate currentResults)
                (AggregatedCoverageResults.lineRate baseResults)) in
  let deltaBranchRate :=
    round2 (sub (AggregatedCoverageResults.branchRate currentResults)
                (AggregatedCoverageResults.branchRate baseResults)) in
  let improvement :=
    gt deltaLineRate zero || (strict_eq deltaLineRate zero && gt deltaBranchRate zero) in
  {| CoverageComparison.filesAdded := filesAdded;
     CoverageComparison.filesRemoved := filesRemoved;
     CoverageComparison.filesChanged := filesChanged;
     CoverageComparison.deltaLineRate := deltaLineRate;
     CoverageComparison.deltaBranchRate := deltaBranchRate;
     CoverageComparison.deltaTotalStatements :=
       sub (AggregatedCoverageResults.totalStatements currentResults)
           (AggregatedCoverageResults.totalStatements baseResults);
     CoverageComparison.deltaCoveredStatements :=
       sub (AggregatedCoverageResults.coveredStatements currentResults)
           (AggregatedCoverageResults.coveredStatements baseResults);
     CoverageComparison.deltaTotalConditionals :=
       sub (AggregatedCoverageResults.totalConditionals currentResults)
           (AggregatedCoverageResults.totalConditionals baseResults);
     CoverageComparison.deltaCoveredConditionals :=
       sub (AggregatedCoverageResults.coveredConditionals currentResults)
           (AggregatedCoverageResults.coveredConditionals baseResults);
     CoverageComparison.deltaTotalMethods :=
       sub (AggregatedCoverageResults.totalMethods currentResults)
           (AggregatedCoverageResults.totalMethods baseResults);
     CoverageComparison.deltaCoveredMethods :=
       sub (AggregatedCoverageResults.coveredMethods currentResults)
           (AggregatedCoverageResults.coveredMethods baseResults);
     CoverageComparison.improvement := improvement;
     CoverageComparison.deltaFiles :=
       Some (sub (num_or (AggregatedCoverageResults.totalFiles currentResults)
                         (files_length currentResults))
                 (num_or (AggregatedCoverageResults.totalFiles baseResults)
                         (files_length baseResults)));
     CoverageComparison.deltaLines :=
       Some (sub (num_or (AggregatedCoverageResults.totalLines currentResults) zero)
                 (num_or (AggregatedCoverageResults.totalLines baseResults) zero));
     CoverageComparison.deltaBranches :=
       Some (sub (num_or (AggregatedCoverageResults.totalBranches currentResults) zero)
                 (num_or (AggregatedCoverageResults.totalBranches baseResults) zero));
     CoverageComparison.deltaHits :=
       Some (sub (num_or (AggregatedCoverageResults.totalHits currentResults) zero)
                 (num_or (AggregatedCoverageResults.totalHits baseResults) zero));
     CoverageComparison.deltaMisses :=
       Some (sub (num_or (AggregatedCoverageResults.totalMisses currentResults) zero)
                 (num_or (AggregatedCoverageResults.totalMisses baseResults) zero));
     CoverageComparison.deltaPartials :=
       Some (sub (num_or (AggregatedCoverageResults.totalPartials currentResults) zero)
                 (num_or (AggregatedCoverageResults.totalPartials baseResults) zero));
     CoverageComparison.baseBranch := options ≫= CompareOptions.baseBranch;
     CoverageComparison.headCommit := options ≫= CompareOptions.headCommit;
     CoverageComparison.baseCommit := options ≫= CompareOptions.baseCommit;
     CoverageComparison.baseFiles :=
       Some (num_or (AggregatedCoverageResults.totalFiles baseResults)
                    (files_length baseResults));
     CoverageComparison.baseLines :=
       Some (num_or (AggregatedCoverageResults.totalLines baseResults) zero);
     CoverageComparison.baseBranches :=
       Some (num_or (AggregatedCoverageResults.totalBranches baseResults) zero);
     CoverageComparison.baseHits :=
       Some (num_or (AggregatedCoverageResults.totalHits baseResults) zero);
     CoverageComparison.baseMisses :=
       Some (num_or (AggregatedCoverageResults.totalMisses baseResults) zero);
     CoverageComparison.basePartials :=
       Some (num_or (AggregatedCoverageResults.totalPartials baseResults) zero);
     CoverageComparison.currentFiles :=
       Some (num_or (AggregatedCoverageResults.totalFiles currentResults)
                    (files_length currentResults));
     CoverageComparison.currentLines :=
       Some (num_or (AggregatedCoverageResults.totalLines currentResults) zero);
     CoverageComparison.currentBranches :=
       Some (num_or (AggregatedCoverageResults.totalBranches currentResults) zero);
     CoverageComparison.currentHits :=
       Some (num_or (AggregatedCoverageResults.totalHits currentResults) zero);
     CoverageComparison.currentMisses :=
       Some (num_or (AggregatedCoverageResults.totalMisses currentResults) zero);
     CoverageComparison.currentPartials :=
       Some (num_or (AggregatedCoverageResults.totalPartials currentResults) zero) |}.

(** ** Values, the outside world and effects

    [jsval] is the shape of the data that crosses [JSON.stringify] and
    [JSON.parse]; an object is its own enumerable properties in creation
    order. *)

#[local] Set Warnings "-register-all".
Inductive jsval :=
  | JUndefined
  | JNull
  | JBool (b : bool)
  | JNumber (x : number)
  | JString (s : jsstring)
  | JArray (items : list jsval)
  | JObject (props : list (string * jsval)).

Abbreviation jsobject := (list (string * jsval)).


(** [obj.key = v]: an existing property keeps its place, a new one is
    added last. *)
Definition set_prop (key : string) (v : jsval) (obj : jsobject) : jsobject :=
  map_set key v obj.

(** [const { key: _, ...rest } = obj]: a fresh object with every own
    property of [obj] but [key], in the same order. *)
Definition rest_without (key : string) (obj : jsobject) : jsobject :=
  filter (fun p => p.1 <> key) obj.

Module WorkflowRun.
Record t := mk { id : Z; run_number : Z }.
End WorkflowRun.

Module Artifact.
Record t := mk { name : jsstring; id : Z; expired : bool }.
End Artifact.

Module RunsQuery.
Record t := mk {
  owner : jsstring;
  repo : jsstring;
  branch : option jsstring;
  head_sha : option jsstring;
  status : jsstring;
  per_page : Z;
}.
End RunsQuery.

(** The collaborators of the artifact manager: the process environment,
    [node:fs], [node:os], [node:path], [adm-zip], [@actions/artifact] and
    the Octokit client.  [W] is the state of the world they act on; any
    call that can throw returns a [thrown] value instead. *)
Class Platform (W : Type) := {
  env_GITHUB_REPOSITORY : option jsstring;
  env_GITHUB_JOB : option jsstring;
  os_tmpdir : jsstring;
  path_join : jsstring -> jsstring -> jsstring;
  number_text : option Z -> jsstring;
  JSON_stringify : jsval -> thrown + jsstring;
  JSON_parse : jsstring -> thrown + jsval;
  fs_mkdtempSync : jsstring -> W -> (thrown + jsstring) * W;
  fs_writeFileSync : jsstring -> jsstring -> W -> (thrown + unit) * W;
  fs_unlinkSync : jsstring -> W -> (thrown + unit) * W;
  fs_rmdirSync : jsstring -> W -> (thrown + unit) * W;
  fs_rmSync_recursive : jsstring -> W -> (thrown + unit) * W;
  fs_existsSync : jsstring -> W -> bool;
  fs_readFileSync : jsstring -> W -> (thrown + jsstring) * W;
  zip_extractAllTo : jsstring -> jsstring -> W -> (thrown + unit) * W;
  artifact_uploadArtifact :
    jsstring -> list jsstring -> jsstring -> W -> (thrown + option Z) * W;
  octokit_listWorkflowRunsForRepo :
    RunsQuery.t -> W -> (thrown + list WorkflowRun.t) * W;
  octokit_listWorkflowRunArtifacts :
    jsstring -> jsstring -> Z -> W -> (thrown + list Artifact.t) * W;
  octokit_downloadArtifact :
    jsstring -> jsstring -> Z -> W -> (thrown + jsstring) * W;
}.

Inductive log_entry :=
  | LogInfo (msg : jsstring)
  | LogWarning (msg : jsstring).

(** What the manager asked of its collaborators, in order: the requests
    to the CI platform and the files it wrote. *)
Inductive event :=
  | EvListRuns (q : RunsQuery.t)
  | EvListArtifacts (run_id : Z)
  | EvDownload (artifact_id : Z)
  | EvWriteFile (path data : jsstring)
  | EvUpload (name : jsstring) (files : list jsstring) (rootDirectory : jsstring).

Record state (W : Type) := mkState {
  world : W;
  heap : gmap positive jsobject;
  log : list log_entry;
  events : list event;
}.
Arguments mkState {W}.
Arguments world {W}.
Arguments heap {W}.
Arguments log {W}.
Arguments events {W}.

(** Computations that read and change the state and may throw. *)
Definition M (W A : Type) : Type := state W -> (thrown + A) * state W.

Definition ret {W A} (a : A) : M W A := fun st => (inr a, st).

Definition bind {W A B} (m : M W A) (k : A -> M W B) : M W B :=
  fun st =>
    match m st with
    | (inl e, st') => (inl e, st')
    | (inr a, st') => k a st'
    end.

Definition throw {W A} (e : thrown) : M W A := fun st => (inl e, st).

(** [try { body } catch (error) { handler }] *)
Definition try_catch {W A} (body : M W A) (handler : thrown -> M W A) : M W A :=
  fun st =>
    match body st with
    | (inl e, st') => handler e st'
    | (inr a, st') => (inr a, st')
    end.

Declare Scope js_scope.
Delimit Scope js_scope with js.
Notation "x <- m ;; k" := (bind m (fun x => k))
  (at level 100, m at next level, right associativity) : js_scope.
Notation "m ;;; k" := (bind m (fun _ => k))
  (at level 100, right associativity) : js_scope.

(** A call on the world. *)
Definition call {W A} (f : W -> (thrown + A) * W) : M W A :=
  fun st =>
    let '(r, w) := f (world st) in
    (r, mkState w (heap st) (log st) (events st)).

(** A pure call that may throw. *)
Definition pure_call {W A} (r : thrown + A) : M W A := fun st => (r, st).

Definition observe {W A} (f : W -> A) : M W A := fun st => (inr (f (world st)), st).

Definition sent {W} (r : event) : M W unit :=
  fun st => (inr tt, mkState (world st) (heap st) (log st) (events st ++ [r])).

(** [core.info] and [core.warning] *)
Definition core_info {W} (msg : jsstring) : M W unit :=
  fun st => (inr tt, mkState (world st) (heap st) (log st ++ [LogInfo msg]) (events st)).

Definition core_warning {W} (msg : jsstring) : M W unit :=
  fun st =>
    (inr tt, mkState (world st) (heap st) (log st ++ [LogWarning msg]) (events st)).

(** Reading the object a reference points to. *)
Definition deref {W} (l : positive) : M W jsobject :=
  fun st =>
    match heap st !! l with
    | Some obj => (inr obj, st)
    | None => (inl (ErrorObj (lit "Cannot destructure 'results' as it is undefined.")), st)
    end.

(** [ref.key = v] *)
Definition assign_prop {W} (l : positive) (key : string) (v : jsval) : M W unit :=
  fun st =>
    match heap st !! l with
    | Some obj =>
        (inr tt,
         mkState (world st) (<[l := set_prop key v obj]> (heap st)) (log st) (events st))
    | None => (inl (ErrorObj (lit "Cannot set properties of undefined")), st)
    end.

(** [error instanceof Error ? error.message : "Unknown error"] *)
Definition error_message (error : thrown) : jsstring :=
  match error with
  | ErrorObj message => message
  | ThrownOther => lit "Unknown error"
  end.

(** [xs.join(sep)] *)
Fixpoint join (sep : jsstring) (xs : list jsstring) : jsstring :=
  match xs with
  | [] => []
  | [x] => x
  | x :: rest => x ++ sep ++ join sep rest
  end.

(** [s.split("/")] *)
Fixpoint split_slash (cur : jsstring) (s : jsstring) : list jsstring :=
  match s with
  | [] => [cur]
  | c :: rest =>
      if (c =? 47)%N then cur :: split_slash [] rest else split_slash (cur ++ [c]) rest
  end.

(** [[...new Set(xs)]]: the distinct elements in order of first
    occurrence. *)
Definition set_spread {A} `{EqDecision A} (xs : list A) : list A :=
  fold_left (fun acc x => if decide (x ∈ acc) then acc else acc ++ [x]) xs [].

(** ** The artifact manager (src/utils/artifact-manager.ts) *)

Module ArtifactManager.
Record t := mk { owner : jsstring; repo : jsstring }.
End ArtifactManager.

Section ArtifactManagerCode.
Context {W : Type} `{Platform W}.
Local Open Scope js_scope.

Definition constructor : ArtifactManager.t :=
  let repository := str_or env_GITHUB_REPOSITORY [] in
  let parts := split_slash [] repository in
  {| ArtifactManager.owner := str_or (parts !! 0%nat) [];
     ArtifactManager.repo := str_or (parts !! 1%nat) [] |}.

(** [/[^a-zA-Z0-9-_]/g]: the code units the pattern leaves alone. *)
Definition is_name_char (c : N) : bool :=
  (((97 <=? c) && (c <=? 122)) || ((65 <=? c) && (c <=? 90))
   || ((48 <=? c) && (c <=? 57)) || (c =? 45) || (c =? 95))%N.

Definition sanitizeBranchName (branchName : jsstring) : jsstring :=
  (fun c => if is_name_char c then c else 45%N) <$> branchName.

(** The two suffixes shared by both naming schemes. *)
Definition with_qualifiers (artifactName : jsstring)
    (flags : option (list jsstring)) (name : option jsstring) : jsstring :=
  let artifactName :=
    match name with
    | Some n => if str_truthy n then artifactName ++ lit "-" ++ sanitizeBranchName n
                else artifactName
    | None => artifactName
    end in
  match flags with
  | Some ((_ :: _) as fs) => artifactName ++ lit "-" ++ join (lit "-") (sanitizeBranchName <$> fs)
  | _ => artifactName
  end.

Definition getArtifactName (branchName type : jsstring)
    (flags : option (list jsstring)) (name : option jsstring) : jsstring :=
  let sanitized := sanitizeBranchName branchName in
  let jobId :=
    match env_GITHUB_JOB with
    | Some job => if str_truthy job then lit "-" ++ sanitizeBranchName job else []
    | None => []
    end in
  with_qualifiers (lit "codecov-" ++ type ++ lit "-results-" ++ sanitized ++ jobId)
    flags name.

Definition getLegacyArtifactName (branchName type : jsstring)
    (flags : option (list jsstring)) (name : option jsstring) : jsstring :=
  let sanitized := sanitizeBranchName branchName in
  with_qualifiers (lit "codecov-" ++ type ++ lit "-results-" ++ sanitized) flags name.

(** The [try] block of [uploadResults]. *)
Definition uploadResults_try (results : positive) (branchName : jsstring)
    (name : option jsstring) : M W unit :=
  let artifactName := getArtifactName branchName (lit "test") None name in
  core_info ([55357; 56548]%N ++ lit " Uploading test results as artifact: "
             ++ artifactName) ;;;
  tmpDir <- call (fs_mkdtempSync (path_join os_tmpdir (lit "codecov-test-"))) ;;
  let resultsFile := path_join tmpDir (lit "test-results.json") in
  obj <- deref results ;;
  let resultsToSave := rest_without "comparison" obj in
  text <- pure_call (JSON_stringify (JObject resultsToSave)) ;;
  sent (EvWriteFile resultsFile text) ;;;
  call (fs_writeFileSync resultsFile text) ;;;
  sent (EvUpload artifactName [resultsFile] tmpDir) ;;;
  uploadResult <- call (artifact_uploadArtifact artifactName [resultsFile] tmpDir) ;;
  core_info ([9989]%N ++ lit " Test artifact uploaded successfully. ID: "
             ++ number_text uploadResult) ;;;
  call (fs_unlinkSync resultsFile) ;;;
  call (fs_rmdirSync tmpDir).

Definition uploadResults (results : positive) (branchName : jsstring)
    (name : option jsstring) : M W unit :=
  try_catch (uploadResults_try results branchName name)
    (fun error =>
       let message := error_message error in
       core_warning (lit "Failed to upload test artifact: " ++ message)).

(** The [try] block of [uploadCoverageResults]. *)
Definition uploadCoverageResults_try (results : positive) (branchName : jsstring)
    (flags : option (list jsstring)) (name : option jsstring) : M W unit :=
  let artifactName := getArtifactName branchName (lit "coverage") flags name in
  core_info ([55357; 56548]%N ++ lit " Uploading coverage results as artifact: "
             ++ artifactName) ;;;
  match flags with
  | Some ((_ :: _) as fs) => core_info (lit "   Flags: " ++ join (lit ", ") fs)
  | _ => ret tt
  end ;;;
  tmpDir <- call (fs_mkdtempSync (path_join os_tmpdir (lit "codecov-coverage-"))) ;;
  let resultsFile := path_join tmpDir (lit "coverage-results.json") in
  obj <- deref results ;;
  let resultsToSave := rest_without "comparison" obj in
  text <- pure_call (JSON_stringify (JObject resultsToSave)) ;;
  sent (EvWriteFile resultsFile text) ;;;
  call (fs_writeFileSync resultsFile text) ;;;
  sent (EvUpload artifactName [resultsFile] tmpDir) ;;;
  uploadResult <- call (artifact_uploadArtifact artifactName [resultsFile] tmpDir) ;;
  core_info ([9989]%N ++ lit " Coverage artifact uploaded successfully. ID: "
             ++ number_text uploadResult) ;;;
  call (fs_unlinkSync resultsFile) ;;;
  call (fs_rmdirSync tmpDir).

Definition uploadCoverageResults (results : positive) (branchName : jsstring)
    (flags : option (list jsstring)) (name : option jsstring) : M W unit :=
  try_catch (uploadCoverageResults_try results branchName flags name)
    (fun error =>
       let message := error_message error in
       core_warning (lit "Failed to upload coverage artifact: " ++ message)).

(** [extractAndReadResults] and [extractAndReadCoverageResults] differ in
    the file they read and in their messages. *)
Definition extractAndRead (file what : jsstring) (zipPath extractDir : jsstring)
  : M W (option jsval) :=
  try_catch
    (call (zip_extractAllTo zipPath extractDir) ;;;
     let resultsFile := path_join extractDir file in
     present <- observe (fs_existsSync resultsFile) ;;
     if negb present : bool then
       core_warning (lit "Downloaded artifact does not contain " ++ file) ;;;
       ret None
     else
       resultsContent <- call (fs_readFileSync resultsFile) ;;
       results <- pure_call (JSON_parse resultsContent) ;;
       core_info ([9989]%N ++ lit " Base " ++ what
                  ++ lit " results downloaded and extracted successfully") ;;;
       ret (Some results))
    (fun error =>
       let message := error_message error in
       core_warning (lit "Failed to extract " ++ what ++ lit " artifact: " ++ message) ;;;
       ret None).

Definition extractAndReadResults : jsstring -> jsstring -> M W (option jsval) :=
  extractAndRead (lit "test-results.json") (lit "test").

Definition extractAndReadCoverageResults : jsstring -> jsstring -> M W (option jsval) :=
  extractAndRead (lit "coverage-results.json") (lit "coverage").

(** [artifacts.find((a) => a.name === artifactName && !a.expired)] *)
Definition find_artifact (artifactName : jsstring) (artifacts : list Artifact.t)
  : option Artifact.t :=
  find (fun a => bool_decide (Artifact.name a = artifactName) && negb (Artifact.expired a))
    artifacts.

(** The loop [for (const artifactName of artifactNamesToTry)] up to its
    first hit: the name and the artifact it found. *)
Fixpoint first_match (artifactNamesToTry : list jsstring) (artifacts : list Artifact.t)
  : option (jsstring * Artifact.t) :=
  match artifactNamesToTry with
  | [] => None
  | artifactName :: rest =>
      match find_artifact artifactName artifacts with
      | Some artifact => Some (artifactName, artifact)
      | None => first_match rest artifacts
      end
  end.

(** The body run on a hit: download the archive, unpack it, clean up and
    return what was read. *)
Definition fetch_artifact (self : ArtifactManager.t) (tmp_prefix : jsstring)
    (extract : jsstring -> jsstring -> M W (option jsval)) (artifact : Artifact.t)
  : M W (option jsval) :=
  sent (EvDownload (Artifact.id artifact)) ;;;
  download <- call (octokit_downloadArtifact (ArtifactManager.owner self)
                      (ArtifactManager.repo self) (Artifact.id artifact)) ;;
  tmpDir <- call (fs_mkdtempSync (path_join os_tmpdir tmp_prefix)) ;;
  let zipPath := path_join tmpDir (lit "artifact.zip") in
  sent (EvWriteFile zipPath download) ;;;
  call (fs_writeFileSync zipPath download) ;;;
  results <- extract zipPath tmpDir ;;
  call (fs_unlinkSync zipPath) ;;;
  call (fs_rmSync_recursive tmpDir) ;;;
  ret results.

(** The loop [for (const run of workflowRuns.data.workflow_runs)] and the
    statements after it. *)
Fixpoint scan_runs (self : ArtifactManager.t) (what tmp_prefix : jsstring)
    (extract : jsstring -> jsstring -> M W (option jsval))
    (artifactNamesToTry : list jsstring) (runs : list WorkflowRun.t)
  : M W (option jsval) :=
  match runs with
  | [] =>
      core_info ([8505; 65039]%N ++ lit " No artifact '"
                 ++ default (lit "undefined") (head artifactNamesToTry)
                 ++ lit "' found in recent workflow runs") ;;;
      ret None
  | run :: rest =>
      sent (EvListArtifacts (WorkflowRun.id run)) ;;;
      artifacts <- call (octokit_listWorkflowRunArtifacts (ArtifactManager.owner self)
                           (ArtifactManager.repo self) (WorkflowRun.id run)) ;;
      match first_match artifactNamesToTry artifacts with
      | Some (artifactName, artifact) =>
          core_info (lit "Found " ++ what ++ lit " artifact '" ++ artifactName
                     ++ lit "' from run #"
                     ++ number_text (Some (WorkflowRun.run_number run))) ;;;
          fetch_artifact self tmp_prefix extract artifact
      | None => scan_runs self what tmp_prefix extract artifactNamesToTry rest
      end
  end.

Definition branch_query (self : ArtifactManager.t) (baseBranch : jsstring) : RunsQuery.t :=
  {| RunsQuery.owner := ArtifactManager.owner self;
     RunsQuery.repo := ArtifactManager.repo self;
     RunsQuery.branch := Some baseBranch;
     RunsQuery.head_sha := None;
     RunsQuery.status := lit "success";
     RunsQuery.per_page := 10 |}.

Definition listWorkflowRunsForRepo (q : RunsQuery.t) : M W (list WorkflowRun.t) :=
  sent (EvListRuns q) ;;; call (octokit_listWorkflowRunsForRepo q).

(** The candidate names of a retrieval, most specific first. *)
Definition test_artifact_names (baseBranch : jsstring) (name : option jsstring)
  : list jsstring :=
  let artifactName := getArtifactName baseBranch (lit "test") None name in
  let legacyArtifactName := getLegacyArtifactName baseBranch (lit "test") None name in
  let unflaggedArtifactName := getArtifactName baseBranch (lit "test") None None in
  let legacyUnflaggedArtifactName :=
    getLegacyArtifactName baseBranch (lit "test") None None in
  set_spread [artifactName; unflaggedArtifactName; legacyArtifactName;
              legacyUnflaggedArtifactName].

Definition coverage_artifact_names (baseBranch : jsstring)
    (flags : option (list jsstring)) (name : option jsstring) : list jsstring :=
  let flaggedArtifactName := getArtifactName baseBranch (lit "coverage") flags name in
  let unflaggedArtifactName := getArtifactName baseBranch (lit "coverage") None None in
  let legacyFlaggedArtifactName :=
    getLegacyArtifactName baseBranch (lit "coverage") flags name in
  let legacyUnflaggedArtifactName :=
    getLegacyArtifactName baseBranch (lit "coverage") None None in
  set_spread [flaggedArtifactName; unflaggedArtifactName; legacyFlaggedArtifactName;
              legacyUnflaggedArtifactName].

Definition no_runs_for_branch (baseBranch : jsstring) : jsstring :=
  [8505; 65039]%N ++ lit " No successful workflow runs found for branch '"
  ++ baseBranch ++ lit "'".

Definition downloadBaseResults (self : ArtifactManager.t) (baseBranch : jsstring)
    (name : option jsstring) : M W (option jsval) :=
  try_catch
    (let artifactNamesToTry := test_artifact_names baseBranch name in
     core_info ([55357; 56549]%N ++ lit " Attempting to download base test results: "
                ++ default (lit "undefined") (head artifactNamesToTry)) ;;;
     workflowRuns <- listWorkflowRunsForRepo (branch_query self baseBranch) ;;
     match workflowRuns with
     | [] => core_info (no_runs_for_branch baseBranch) ;;; ret None
     | _ =>
         scan_runs self (lit "test") (lit "codecov-base-test-") extractAndReadResults
           artifactNamesToTry workflowRuns
     end)
    (fun error =>
       let message := error_message error in
       core_warning (lit "Failed to download base test artifact: " ++ message) ;;;
       ret None).

Definition downloadBaseCoverageResults (self : ArtifactManager.t) (baseBranch : jsstring)
    (flags : option (list jsstring)) (name : option jsstring) : M W (option jsval) :=
  try_catch
    (let artifactNamesToTry := coverage_artifact_names baseBranch flags name in
     core_info ([55357; 56549]%N
                ++ lit " Attempting to download base coverage results: "
                ++ default (lit "undefined") (head artifactNamesToTry)) ;;;
     match flags with
     | Some ((_ :: _) as fs) => core_info (lit "   Looking for flags: " ++ join (lit ", ") fs)
     | _ => ret tt
     end ;;;
     workflowRuns <- listWorkflowRunsForRepo (branch_query self baseBranch) ;;
     match workflowRuns with
     | [] => core_info (no_runs_for_branch baseBranch) ;;; ret None
     | _ =>
         scan_runs self (lit "coverage") (lit "codecov-base-coverage-")
           extractAndReadCoverageResults artifactNamesToTry workflowRuns
     end)
    (fun error =>
       let message := error_message error in
       core_warning (lit "Failed to download base coverage artifact: " ++ message) ;;;
       ret None).

(** [aggregatedResults.comparison = comparison] in the pipeline
    (src/index.ts), after the upload and the retrieval. *)
Definition attach_comparison (results : positive) (comparison : jsval) : M W unit :=
  assign_prop results "comparison" comparison.

End ArtifactManagerCode.

(** ** A scripted platform

    Canned answers in place of the collaborators, to run the manager on
    concrete scenarios. *)

Module Mock.
Record t := mk {
  job : option jsstring;
  runs : RunsQuery.t -> thrown + list WorkflowRun.t;
  artifacts : Z -> thrown + list Artifact.t;
  archive : Z -> thrown + jsstring;
  stored : jsstring -> thrown + jsval;
  upload : thrown + option Z;
}.

(** A stand-in for the text of an object: its keys. *)
Definition keys_text (v : jsval) : jsstring :=
  match v with
  | JObject props => join (lit ",") ((fun p => lit p.1) <$> props)
  | _ => []
  end.

Definition platform (m : t) : Platform unit :=
  {| env_GITHUB_REPOSITORY := Some (lit "owner/repo");
     env_GITHUB_JOB := job m;
     os_tmpdir := lit "/tmp";
     path_join := fun a b => a ++ lit "/" ++ b;
     number_text := fun _ => lit "N";
     JSON_stringify := fun v => inr (keys_text v);
     JSON_parse := stored m;
     fs_mkdtempSync := fun prefix w => (inr (prefix ++ lit "XXXXXX"), w);
     fs_writeFileSync := fun _ _ w => (inr tt, w);
     fs_unlinkSync := fun _ w => (inr tt, w);
     fs_rmdirSync := fun _ w => (inr tt, w);
     fs_rmSync_recursive := fun _ w => (inr tt, w);
     fs_existsSync := fun _ _ => true;
     fs_readFileSync := fun _ w => (inr (lit "{}"), w);
     zip_extractAllTo := fun _ _ w => (inr tt, w);
     artifact_uploadArtifact := fun _ _ _ w => (upload m, w);
     octokit_listWorkflowRunsForRepo := fun q w => (runs m q, w);
     octokit_listWorkflowRunArtifacts := fun _ _ run_id w => (artifacts m run_id, w);
     octokit_downloadArtifact := fun _ _ artifact_id w => (archive m artifact_id, w) |}.

Definition start (objects : gmap positive jsobject) : state unit :=
  mkState tt objects [] [].
End Mock.

(** ** What the specification calls the rate of a counter pair *)

(** [round(covered / total * 100, 2)] *)
Definition percentage (covered total : number) : number :=
  round2 (mul (div covered total) hundred).

(** The sum of a sequence of numbers, accumulated from [0] left to right. *)
Definition sum_numbers (xs : list number) : number := fold_left add xs zero.

(** The arithmetic mean of a sequence of numbers. *)
Definition mean (xs : list number) : number :=
  div (sum_numbers xs) (of_Z (Z.of_nat (length xs))).

(** [y] is the negation of [x], as numbers. *)
Definition negation_of (x y : number) : Prop := same_value_zero y (neg x).

Definition negation_of_opt (x y : option number) : Prop :=
  match x, y with
  | Some a, Some b => negation_of a b
  | _, _ => False
  end.

(** ** Sample data *)

(** A file with [covered] of [total] statements hit and no branch. *)
Definition sample_file (path : string) (covered total : Z) : FileCoverage.t :=
  {| FileCoverage.name := lit path;
     FileCoverage.path := lit path;
     FileCoverage.statements := of_Z total;
     FileCoverage.coveredStatements := of_Z covered;
     FileCoverage.conditionals := zero;
     FileCoverage.coveredConditionals := zero;
     FileCoverage.methods := zero;
     FileCoverage.coveredMethods := zero;
     FileCoverage.lineRate := percentage (of_Z covered) (of_Z total);
     FileCoverage.branchRate := zero;
     FileCoverage.lines := [];
     FileCoverage.missingLines := None;
     FileCoverage.partialLines := None;
     FileCoverage.patchCoverage := None |}.

(** A parsed document holding one file. *)
Definition sample_document (path : string) (covered total : Z) : CoverageResults.t :=
  {| CoverageResults.timestamp := zero;
     CoverageResults.metrics :=
       {| CoverageMetrics.statements := of_Z total;
          CoverageMetrics.coveredStatements := of_Z covered;
          CoverageMetrics.conditionals := zero;
          CoverageMetrics.coveredConditionals := zero;
          CoverageMetrics.methods := zero;
          CoverageMetrics.coveredMethods := zero;
          CoverageMetrics.elements := of_Z total;
          CoverageMetrics.coveredElements := of_Z covered;
          CoverageMetrics.lineRate := percentage (of_Z covered) (of_Z total);
          CoverageMetrics.branchRate := zero |};
     CoverageResults.files := [sample_file path covered total] |}.

(** One statement of two in a first report, ten of ten in a second. *)
Definition sample_documents : list CoverageResults.t :=
  [sample_document "src/a.ts" 1 2; sample_document "src/b.ts" 10 10].

(** A document with the rates of its metrics replaced. *)
Definition with_rates (rates : number * number) (r : CoverageResults.t)
  : CoverageResults.t :=
  let m := CoverageResults.metrics r in
  {| CoverageResults.timestamp := CoverageResults.timestamp r;
     CoverageResults.metrics :=
       {| CoverageMetrics.statements := CoverageMetrics.statements m;
          CoverageMetrics.coveredStatements := CoverageMetrics.coveredStatements m;
          CoverageMetrics.conditionals := CoverageMetrics.conditionals m;
          CoverageMetrics.coveredConditionals := CoverageMetrics.coveredConditionals m;
          CoverageMetrics.methods := CoverageMetrics.methods m;
          CoverageMetrics.coveredMethods := CoverageMetrics.coveredMethods m;
          CoverageMetrics.elements := CoverageMetrics.elements m;
          CoverageMetrics.coveredElements := CoverageMetrics.coveredElements m;
          CoverageMetrics.lineRate := rates.1;
          CoverageMetrics.branchRate := rates.2 |};
     CoverageResults.files := CoverageResults.files r |}.

(** The counters of a sequence of documents, one projection at a time. *)
Definition counters (f : CoverageMetrics.t -> number) (results : list CoverageResults.t)
  : list number :=
  (fun r => f (CoverageResults.metrics r)) <$> results.

(** The summary of no document at all. *)
Definition empty_summary : AggregatedCoverageResults.t :=
  {| AggregatedCoverageResults.totalStatements := zero;
     AggregatedCoverageResults.coveredStatements := zero;
     AggregatedCoverageResults.totalConditionals := zero;
     AggregatedCoverageResults.coveredConditionals := zero;
     AggregatedCoverageResults.totalMethods := zero;
     AggregatedCoverageResults.coveredMethods := zero;
     AggregatedCoverageResults.lineRate := zero;
     AggregatedCoverageResults.branchRate := zero;
     AggregatedCoverageResults.files := [];
     AggregatedCoverageResults.comparison := None;
     AggregatedCoverageResults.flags := None;
     AggregatedCoverageResults.name := None;
     AggregatedCoverageResults.totalHits := None;
     AggregatedCoverageResults.totalMisses := None;
     AggregatedCoverageResults.totalPartials := None;
     AggregatedCoverageResults.totalBranches := None;
     AggregatedCoverageResults.totalFiles := None;
     AggregatedCoverageResults.totalLines := None;
     AggregatedCoverageResults.patchCoverageRate := None |}.

(** The invariant of the data model: a rate is the percentage of its
    counters when the total is positive, and 0 when the total is 0. *)
Definition rate_invariant (rate covered total : number) : Prop :=
  (gt total zero = true -> rate = percentage covered total)
  /\ (strict_eq total zero = true -> rate = zero).

Definition metrics_invariant (m : CoverageMetrics.t) : Prop :=
  rate_invariant (CoverageMetrics.lineRate m) (CoverageMetrics.coveredStatements m)
    (CoverageMetrics.statements m)
  /\ rate_invariant (CoverageMetrics.branchRate m) (CoverageMetrics.coveredConditionals m)
       (CoverageMetrics.conditionals m).

Definition file_invariant (f : FileCoverage.t) : Prop :=
  rate_invariant (FileCoverage.lineRate f) (FileCoverage.coveredStatements f)
    (FileCoverage.statements f)
  /\ rate_invariant (FileCoverage.branchRate f) (FileCoverage.coveredConditionals f)
       (FileCoverage.conditionals f).

(** The attributes [parseMetrics] reads. *)
Definition count_keys : list string :=
  ["statements"; "coveredstatements"; "conditionals"; "coveredconditionals";
   "methods"; "coveredmethods"; "elements"; "coveredelements"].

(** A [metrics] element that also carries rates of its own. *)
Definition sample_metrics_attrs (statements covered conditionals coveredConditionals : string)
  : gmap string jsstring :=
  list_to_map [("statements", lit statements); ("coveredstatements", lit covered);
               ("conditionals", lit conditionals);
               ("coveredconditionals", lit coveredConditionals);
               ("linerate", lit "12.5"); ("branchrate", lit "99")].

Definition sample_xml : XmlResult.t :=
  {| XmlResult.coverage :=
       Some {| CoverageElement.generated := Some (lit "1700000000");
               CoverageElement.project :=
                 Some {| ProjectElement.metrics := Some (sample_metrics_attrs "3" "1" "0" "0");
                         ProjectElement.file :=
                           Single {| FileElement.name := Some (lit "a.ts");
                                     FileElement.path := Some (lit "src/a.ts");
                                     FileElement.metrics :=
                                       Some (sample_metrics_attrs "3" "1" "0" "0");
                                     FileElement.line :=
                                       Single (list_to_map [("num", lit "1");
                                                            ("count", lit "4");
                                                            ("type", lit "stmt")]) |} |} |} |}.

Definition sample_parsed : CoverageResults.t :=
  match parseXML sample_xml with
  | inr r => r
  | inl _ => sample_document "" 0 0
  end.

(** ** What the specification says of a comparison *)

(** The entry of a sequence of files for a path: the last one when the
    path repeats. *)
Definition file_at (p : jsstring) (files : list FileCoverage.t) : option FileCoverage.t :=
  last (filter (fun f => FileCoverage.path f = p) files).

(** Added: present in current, absent in base. *)
Definition added_entry (baseFileMap : list (jsstring * FileCoverage.t))
    (entry : jsstring * FileCoverage.t) : option FileCoverage.t :=
  match map_get entry.1 baseFileMap with
  | None => Some entry.2
  | Some _ => None
  end.

(** Removed: present in base, absent in current. *)
Definition removed_entry (currentFileMap : list (jsstring * FileCoverage.t))
    (entry : jsstring * FileCoverage.t) : option FileCoverage.t :=
  if map_has entry.1 currentFileMap then None else Some entry.2.

(** The rounded rate deltas of a file comparison are not both zero. *)
Definition rates_moved (c : FileComparison.t) : bool :=
  strict_ne (FileComparison.deltaLineRate c) zero
  || strict_ne (FileComparison.deltaBranchRate c) zero.

(** Changed: present in both, with a rate that moved. *)
Definition changed_entry (baseFileMap : list (jsstring * FileCoverage.t))
    (entry : jsstring * FileCoverage.t) : option FileComparison.t :=
  match map_get entry.1 baseFileMap with
  | Some baseFile =>
      let comparison := compareFiles baseFile entry.2 in
      if rates_moved comparison then Some comparison else None
  | None => None
  end.

(** A path occurs in the changed set of a comparison. *)
Definition in_filesChanged (p : jsstring) (c : CoverageComparison.t) : Prop :=
  exists fc, fc ∈ CoverageComparison.filesChanged c /\ FileComparison.path fc = p.

(** A summary with the given rates, in percent, over the given files. *)
Definition sample_summary (lineRate branchRate : Z) (files : list FileCoverage.t)
  : AggregatedCoverageResults.t :=
  {| AggregatedCoverageResults.totalStatements := of_Z 100;
     AggregatedCoverageResults.coveredStatements := of_Z lineRate;
     AggregatedCoverageResults.totalConditionals := of_Z 100;
     AggregatedCoverageResults.coveredConditionals := of_Z branchRate;
     AggregatedCoverageResults.totalMethods := zero;
     AggregatedCoverageResults.coveredMethods := zero;
     AggregatedCoverageResults.lineRate := of_Z lineRate;
     AggregatedCoverageResults.branchRate := of_Z branchRate;
     AggregatedCoverageResults.files := files;
     AggregatedCoverageResults.comparison := None;
     AggregatedCoverageResults.flags := None;
     AggregatedCoverageResults.name := None;
     AggregatedCoverageResults.totalHits := None;
     AggregatedCoverageResults.totalMisses := None;
     AggregatedCoverageResults.totalPartials := None;
     AggregatedCoverageResults.totalBranches := None;
     AggregatedCoverageResults.totalFiles := None;
     AggregatedCoverageResults.totalLines := None;
     AggregatedCoverageResults.patchCoverageRate := None |}.

(** Line coverage falls from 80 to 70 while branch coverage rises from 50
    to 90. *)
Definition sample_base : AggregatedCoverageResults.t :=
  sample_summary 80 50 [sample_file "src/a.ts" 1 2; sample_file "src/b.ts" 4 5].

Definition sample_current : AggregatedCoverageResults.t :=
  sample_summary 70 90
    [sample_file "src/a.ts" 2 4; sample_file "src/b.ts" 3 5; sample_file "src/c.ts" 9 10].

(** A summary that lists [src/a.ts] twice. *)
Definition sample_repeated : AggregatedCoverageResults.t :=
  sample_summary 80 50
    [sample_file "src/a.ts" 1 2; sample_file "src/b.ts" 1 1; sample_file "src/a.ts" 3 4].

(** ** What the specification says of the effects *)

(** Every run of [m] takes a state to one related to it by [R]. *)
Definition respects {W A} (R : relation (state W)) (m : M W A) : Prop :=
  forall st r st', m st = (r, st') -> R st st'.

(** The objects of the caller are as they were. *)
Definition same_heap {W} : relation (state W) :=
  fun st st' => heap st' = heap st.

(** The events of the run all satisfy [P]. *)
Definition emitted {W} (P : event -> Prop) : relation (state W) :=
  fun st st' => exists evs, events st' = events st ++ evs /\ Forall P evs.

(** A relation that holds across steps which only change the world or
    only write to the log. *)
Class Frame {W} (R : relation (state W)) := {
  frame_refl : forall st, R st st;
  frame_trans : forall a b c, R a b -> R b c -> R a c;
  frame_world : forall st w, R st (mkState w (heap st) (log st) (events st));
  frame_log : forall st l, R st (mkState (world st) (heap st) l (events st));
}.

(** [m] returns a value, whatever the state: it does not throw. *)
Definition returns_normally {W A} (m : M W A) : Prop :=
  forall st, exists a st', m st = (inr a, st').

(** The events a run added. *)
Definition new_events {W} (st st' : state W) : list event :=
  drop (length (events st)) (events st').

(** A failed attempt is turned into a warning: the upload returns, the
    caller's objects are as they were, the log ends with the warning
    that carries the message of the failure, and a comparison attached
    afterwards lands on the object the caller had. *)
Definition swallows_failure {W} (attempt upload : M W unit) (prefix : jsstring)
    (results : positive) : Prop :=
  forall st,
    exists st',
      upload st = (inr tt, st')
      /\ heap st' = heap st
      /\ (forall e st1,
            attempt st = (inl e, st1) ->
            world st' = world st1 /\ events st' = events st1
            /\ log st' = log st1 ++ [LogWarning (prefix ++ error_message e)])
      /\ (forall obj comparison,
            heap st !! results = Some obj ->
            exists st'',
              bind upload (fun _ => attach_comparison results comparison) st = (inr tt, st'')
              /\ heap st'' = <[results := set_prop "comparison" comparison obj]> (heap st)).


(** A platform whose artifact store is down. *)
Definition outage : Mock.t :=
  {| Mock.job := Some (lit "test");
     Mock.runs := fun _ => inr [];
     Mock.artifacts := fun _ => inr [];
     Mock.archive := fun _ => inr [];
     Mock.stored := fun _ => inr JNull;
     Mock.upload := inl (ErrorObj (lit "network error")) |}.

(** A results object with a comparison from an earlier step. *)
Definition sample_object : jsobject :=
  [("totalStatements", JNumber (of_Z 12)); ("comparison", JObject []);
   ("lineRate", JNumber (of_Z 50)); ("files", JArray [])].

Definition sample_heap : gmap positive jsobject := {[ 1%positive := sample_object ]}.

(** A platform on which every call succeeds and nothing is stored. *)
Definition healthy : Mock.t :=
  {| Mock.job := Some (lit "test");
     Mock.runs := fun _ => inr [];
     Mock.artifacts := fun _ => inr [];
     Mock.archive := fun _ => inr [];
     Mock.stored := fun _ => inr JNull;
     Mock.upload := inr (Some 7%Z) |}.

(** The computation returns [null] or throws; it never returns a value. *)
Definition null_or_throws {W A} (m : M W (option A)) : Prop :=
  forall st, (m st).1 = inr None \/ exists e, (m st).1 = inl e.

(** Every download a retrieval asks for is that of an artifact which
    [first_match] picked from the listing of some run. *)
Definition download_was_selected {W} `{Platform W} (self : ArtifactManager.t)
    (artifactNamesToTry : list jsstring) (ev : event) : Prop :=
  match ev with
  | EvDownload artifact_id =>
      exists run_id w artifacts w' artifactName artifact,
        octokit_listWorkflowRunArtifacts (ArtifactManager.owner self)
          (ArtifactManager.repo self) run_id w = (inr artifacts, w')
        /\ first_match artifactNamesToTry artifacts = Some (artifactName, artifact)
        /\ Artifact.id artifact = artifact_id
        /\ Artifact.expired artifact = false
  | _ => True
  end.

(** The four names a coverage retrieval tries, before duplicates are
    dropped: current scheme with qualifiers, current scheme without,
    legacy scheme with qualifiers, legacy scheme without. *)
Definition coverage_candidates {W} `{Platform W} (baseBranch : jsstring)
    (flags : option (list jsstring)) (name : option jsstring) : list jsstring :=
  [getArtifactName baseBranch (lit "coverage") flags name;
   getArtifactName baseBranch (lit "coverage") None None;
   getLegacyArtifactName baseBranch (lit "coverage") flags name;
   getLegacyArtifactName baseBranch (lit "coverage") None None].

Definition test_candidates {W} `{Platform W} (baseBranch : jsstring)
    (name : option jsstring) : list jsstring :=
  [getArtifactName baseBranch (lit "test") None name;
   getArtifactName baseBranch (lit "test") None None;
   getLegacyArtifactName baseBranch (lit "test") None name;
   getLegacyArtifactName baseBranch (lit "test") None None].

(** The base branch has one successful run; its only artifact carries
    the current name and has expired. *)
Definition expired_only : Mock.t :=
  {| Mock.job := Some (lit "test");
     Mock.runs := fun _ => inr [WorkflowRun.mk 101 7];
     Mock.artifacts :=
       fun _ => inr [Artifact.mk (lit "codecov-coverage-results-main-test-unit") 1 true];
     Mock.archive := fun _ => inr [];
     Mock.stored := fun _ => inr (JObject [("lineRate", JNumber (of_Z 80))]);
     Mock.upload := inr (Some 7%Z) |}.

(** The commit has no successful run; the one run of the base branch
    holds an expired artifact under the current name and a live one
    under the legacy name without qualifiers. *)
Definition legacy_only : Mock.t :=
  {| Mock.job := Some (lit "test");
     Mock.runs :=
       fun q => match RunsQuery.head_sha q with
                | Some _ => inr []
                | None => inr [WorkflowRun.mk 101 7]
                end;
     Mock.artifacts :=
       fun _ => inr [Artifact.mk (lit "codecov-coverage-results-main-test-unit") 1 true;
                     Artifact.mk (lit "codecov-coverage-results-main") 2 false];
     Mock.archive := fun _ => inr [];
     Mock.stored := fun _ => inr (JObject [("lineRate", JNumber (of_Z 80))]);
     Mock.upload := inr (Some 7%Z) |}.

Definition sample_manager : ArtifactManager.t :=
  ArtifactManager.mk (lit "owner") (lit "repo").

(** The scenario of the specification: [a] at 70 and [b] at 80 percent in
    the base; [a] at 85, [b] at 80 and a new [c] at 90 in the current
    summary. *)
Definition scenario_base : AggregatedCoverageResults.t :=
  sample_summary 75 0 [sample_file "a" 70 100; sample_file "b" 80 100].

Definition scenario_current : AggregatedCoverageResults.t :=
  sample_summary 85 0
    [sample_file "a" 85 100; sample_file "b" 80 100; sample_file "c" 90 100].

(** ** The earlier artifact manager (second part of
    src/utils/coverage-comparison.ts)

    It names an artifact by kind and branch alone. *)

Module Earlier.
Definition getArtifactName (branchName type : jsstring) : jsstring :=
  let sanitized := sanitizeBranchName branchName in
  lit "codecov-" ++ type ++ lit "-results-" ++ sanitized.
End Earlier.

(** Every code unit of a string is one the naming pattern leaves alone. *)
Definition clean_name (s : jsstring) : Prop := Forall (fun c => is_name_char c = true) s.

(** A platform on which [GITHUB_JOB] is not set. *)
Definition no_job : Mock.t :=
  {| Mock.job := None;
     Mock.runs := fun _ => inr [];
     Mock.artifacts := fun _ => inr [];
     Mock.archive := fun _ => inr [];
     Mock.stored := fun _ => inr JNull;
     Mock.upload := inr (Some 7%Z) |}.

(** ** The shape of what the manager asks of its collaborators *)

(** The events stayed as they were. *)
Definition same_events {W} : relation (state W) :=
  fun st st' => events st' = events st.

(** An upload writes one file in the directory [mkdtempSync] made and
    hands that file to the artifact client under [name], or stops before. *)
Definition upload_trace {W} `{Platform W} (st : state W) (tmp_prefix file name : jsstring)
    (evs : list event) : Prop :=
  evs = []
  \/ exists tmpDir w text,
       fs_mkdtempSync (path_join os_tmpdir tmp_prefix) (world st) = (inr tmpDir, w)
       /\ (evs = [EvWriteFile (path_join tmpDir file) text]
           \/ evs = [EvWriteFile (path_join tmpDir file) text;
                     EvUpload name [path_join tmpDir file] tmpDir]).

(** A platform on which the downloaded archive cannot be removed. *)
Definition stuck_archive : Platform unit :=
  let p := Mock.platform legacy_only in
  {| env_GITHUB_REPOSITORY := env_GITHUB_REPOSITORY;
     env_GITHUB_JOB := env_GITHUB_JOB;
     os_tmpdir := os_tmpdir;
     path_join := path_join;
     number_text := number_text;
     JSON_stringify := JSON_stringify;
     JSON_parse := JSON_parse;
     fs_mkdtempSync := fs_mkdtempSync;
     fs_writeFileSync := fs_writeFileSync;
     fs_unlinkSync := fun _ w => (inl (ErrorObj (lit "EPERM: operation not permitted")), w);
     fs_rmdirSync := fs_rmdirSync;
     fs_rmSync_recursive := fs_rmSync_recursive;
     fs_existsSync := fs_existsSync;
     fs_readFileSync := fs_readFileSync;
     zip_extractAllTo := zip_extractAllTo;
     artifact_uploadArtifact := artifact_uploadArtifact;
     octokit_listWorkflowRunsForRepo := octokit_listWorkflowRunsForRepo;
     octokit_listWorkflowRunArtifacts := octokit_listWorkflowRunArtifacts;
     octokit_downloadArtifact := octokit_downloadArtifact |}.


(** The file [file] of the archive unpacked into [extractDir] could be
    read and parsed, and [v] is what the parser gave. *)
Definition parsed_from {W} `{Platform W} (file zipPath extractDir : jsstring) (w : W)
    (v : jsval) : Prop :=
  exists w1 text w2,
    zip_extractAllTo zipPath extractDir w = (inr tt, w1)
    /\ fs_existsSync (path_join extractDir file) w1 = true
    /\ fs_readFileSync (path_join extractDir file) w1 = (inr text, w2)
    /\ JSON_parse text = inr v.


(** Removing a file always fails on this platform. *)
Definition unlink_always_fails {W} `{Platform W} : Prop :=
  forall path w, exists e w', fs_unlinkSync path w = (inl e, w').

(** [s.startsWith(prefix)] *)
Fixpoint starts_with (prefix s : jsstring) : bool :=
  match prefix, s with
  | [], _ => true
  | p :: ps, c :: cs => bool_decide (p = c) && starts_with ps cs
  | _ :: _, [] => false
  end.

(** [s.replace(pattern, replacement)] with a string pattern and a
    replacement without [$]: the first occurrence only. *)
Fixpoint replace_first (pattern replacement s : jsstring) : jsstring :=
  if starts_with pattern s then replacement ++ drop (length pattern) s
  else
    match s with
    | [] => []
    | c :: cs => c :: replace_first pattern replacement cs
    end.

(** [ArtifactManager.getCurrentBranch]; the two variables it reads from
    [process.env] are its arguments. *)
Definition getCurrentBranch (env_GITHUB_REF env_GITHUB_HEAD_REF : option jsstring)
  : jsstring :=
  let ref := str_or env_GITHUB_REF [] in
  if starts_with (lit "refs/heads/") ref then replace_first (lit "refs/heads/") [] ref
  else if starts_with (lit "refs/pull/") ref then
    str_or env_GITHUB_HEAD_REF (lit "unknown")
  else lit "unknown".

Definition slash : N := 47%N.
Definition not_slash (c : N) : bool := negb (c =? slash)%N.

(** No rate of the summary or of its files is [NaN] or infinite. *)
Definition finite_rates (r : AggregatedCoverageResults.t) : Prop :=
  is_finite (AggregatedCoverageResults.lineRate r) = true
  /\ is_finite (AggregatedCoverageResults.branchRate r) = true
  /\ Forall (fun f => is_finite (FileCoverage.lineRate f) = true
                      /\ is_finite (FileCoverage.branchRate f) = true)
       (AggregatedCoverageResults.files r).

(** The paths of the files of a summary, in order, repetitions kept. *)
Definition paths_of (r : AggregatedCoverageResults.t) : list jsstring :=
  FileCoverage.path <$> AggregatedCoverageResults.files r.

(** ** The summary line (getSummary in src/utils/coverage-comparison.ts) *)

(** [x >= y] on numbers. *)
Definition ge (x y : number) : bool := SFleb y x.

(** The three headlines, with the code units the source file holds. *)
Definition improved_text : jsstring :=
  [240; 376; 8220; 710]%N ++ lit " Coverage improved!".

Definition decreased_text : jsstring :=
  [240; 376; 8220; 8240]%N ++ lit " Coverage decreased".

Definition unchanged_text : jsstring :=
  [226; 382; 161; 239; 184]%N ++ lit " Coverage unchanged".

(** [`${delta >= 0 ? "+" : ""}${delta}%`] after its label; [show] is the
    conversion of a number to a string in a template literal. *)
Definition signed_percent (show : number -> jsstring) (label : string) (delta : number)
  : jsstring :=
  lit label ++ (if ge delta zero then lit "+" else []) ++ show delta ++ lit "%".

(** [xs.length] as the number a template literal prints. *)
Definition length_number {A} (xs : list A) : number := of_Z (Z.of_nat (length xs)).

(** The array [parts] at the end of [getSummary]. *)
Definition getSummary_parts (show : number -> jsstring) (comparison : CoverageComparison.t)
  : list jsstring :=
  let parts : list jsstring := [] in
  let parts :=
    if CoverageComparison.improvement comparison then parts ++ [improved_text]
    else if lt (CoverageComparison.deltaLineRate comparison) zero
            || lt (CoverageComparison.deltaBranchRate comparison) zero
         then parts ++ [decreased_text]
         else parts ++ [unchanged_text] in
  let parts :=
    parts ++ [signed_percent show "Line: " (CoverageComparison.deltaLineRate comparison)] in
  let parts :=
    parts
    ++ [signed_percent show "Branch: " (CoverageComparison.deltaBranchRate comparison)] in
  let parts :=
    if (0 <? length (CoverageComparison.filesAdded comparison))%nat
    then parts ++ [lit "+" ++ show (length_number (CoverageComparison.filesAdded comparison))
                   ++ lit " files"]
    else parts in
  let parts :=
    if (0 <? length (CoverageComparison.filesRemoved comparison))%nat
    then parts ++ [lit "-"
                   ++ show (length_number (CoverageComparison.filesRemoved comparison))
                   ++ lit " files"]
    else parts in
  parts.

Definition getSummary (show : number -> jsstring) (comparison : CoverageComparison.t)
  : jsstring :=
  join (lit " | ") (getSummary_parts show comparison).

(** The first part of the summary. *)
Definition headline (show : number -> jsstring) (comparison : CoverageComparison.t)
  : option jsstring :=
  head (getSummary_parts show comparison).

(** ** Well-formed documents *)

(** The document has a coverage element with a project in it, and the
    project and each of its file elements carry a metrics element. *)
Definition well_formed (result : XmlResult.t) : Prop :=
  exists coverage project,
    XmlResult.coverage result = Some coverage
    /\ CoverageElement.project coverage = Some project
    /\ is_Some (ProjectElement.metrics project)
    /\ Forall (fun fileElement => is_Some (FileElement.metrics fileElement))
         (as_array (ProjectElement.file project)).

(** The file elements of a document, in document order. *)
Definition file_elements (result : XmlResult.t) : list FileElement.t :=
  match XmlResult.coverage result ≫= CoverageElement.project with
  | Some project => as_array (ProjectElement.file project)
  | None => []
  end.

(** A document with one file element that has no metrics. *)
Definition broken_document : XmlResult.t :=
  {| XmlResult.coverage :=
       Some {| CoverageElement.generated := Some (lit "1700000000");
               CoverageElement.project :=
                 Some {| ProjectElement.metrics :=
                           Some {[ "statements" := lit "4";
                                   "coveredstatements" := lit "3" ]};
                         ProjectElement.file :=
                           Single {| FileElement.name := Some (lit "a.ts");
                                     FileElement.path := Some (lit "src/a.ts");
                                     FileElement.metrics := None;
                                     FileElement.line := Absent |} |} |} |}.

(** ** What the log says at the end of a retrieval *)

Definition no_artifact_found (artifactNamesToTry : list jsstring) : jsstring :=
  [8505; 65039]%N ++ lit " No artifact '"
  ++ default (lit "undefined") (head artifactNamesToTry)
  ++ lit "' found in recent workflow runs".

Definition extracted_successfully (what : jsstring) : jsstring :=
  [9989]%N ++ lit " Base " ++ what
  ++ lit " results downloaded and extracted successfully".

(** The last message is a warning, or the information that the branch
    has no successful run, or that no run holds an artifact. *)
Definition says_why_null (baseBranch : jsstring) (artifactNamesToTry : list jsstring)
    (l : list log_entry) : Prop :=
  (exists msg, last l = Some (LogWarning msg))
  \/ last l = Some (LogInfo (no_runs_for_branch baseBranch))
  \/ last l = Some (LogInfo (no_artifact_found artifactNamesToTry)).

Definition outcome_logged {W} (baseBranch : jsstring) (artifactNamesToTry : list jsstring)
    (what : jsstring) (out : (thrown + option jsval) * state W) : Prop :=
  match out.1 with
  | inl _ => True
  | inr None => says_why_null baseBranch artifactNamesToTry (log out.2)
  | inr (Some _) => last (log out.2) = Some (LogInfo (extracted_successfully what))
  end.

(** Two branch names that differ only in characters the artifact names
    do not keep. *)
Definition same_after_sanitizing (b1 b2 : jsstring) : Prop :=
  sanitizeBranchName b1 = sanitizeBranchName b2.

(** ** The first artifact manager (src/unnamed/part_006)

    It names an artifact by branch alone, without the kind of results. *)

Module Oldest.
Definition getArtifactName (branchName : jsstring) : jsstring :=
  let sanitized := sanitizeBranchName branchName in
  lit "codecov-results-" ++ sanitized.
End Oldest.

(** ** What a retrieval finds

    The observations the properties of a retrieval are stated with: the
    runs a scan passed without a hit, the run and artifact of its first
    hit, and a fetch whose every step succeeds. *)

Section RetrievalOutcomes.
Context {W : Type} `{Platform W}.
Local Open Scope js_scope.

(** The runs are asked for their artifacts one after the other, starting
    in world [w]; every request succeeds and no listing holds an
    unexpired artifact under one of the names.  The value is the world
    after the last request. *)
Fixpoint scanned_without_hit (self : ArtifactManager.t) (names : list jsstring)
    (runs : list WorkflowRun.t) (w : W) : option W :=
  match runs with
  | [] => Some w
  | run :: rest =>
      match octokit_listWorkflowRunArtifacts (ArtifactManager.owner self)
              (ArtifactManager.repo self) (WorkflowRun.id run) w with
      | (inr artifacts, w1) =>
          match first_match names artifacts with
          | None => scanned_without_hit self names rest w1
          | Some _ => None
          end
      | (inl _, _) => None
      end
  end.

(** The requests for the artifacts of the runs, in order. *)
Definition artifact_listings (runs : list WorkflowRun.t) : list event :=
  EvListArtifacts <$> (WorkflowRun.id <$> runs).

(** [run] is the first of [runs] whose listing holds an unexpired
    artifact under one of the names: the runs before it, [skipped], were
    scanned without a hit from world [w0], and [artifact] is the first
    match in the listing of [run], which leaves world [w2]. *)
Definition first_hit (self : ArtifactManager.t) (names : list jsstring)
    (runs : list WorkflowRun.t) (w0 : W) (skipped : list WorkflowRun.t)
    (run : WorkflowRun.t) (artifact : Artifact.t) (w2 : W) : Prop :=
  exists rest w1 artifacts n,
    runs = skipped ++ run :: rest
    /\ scanned_without_hit self names skipped w0 = Some w1
    /\ octokit_listWorkflowRunArtifacts (ArtifactManager.owner self)
         (ArtifactManager.repo self) (WorkflowRun.id run) w1 = (inr artifacts, w2)
    /\ first_match names artifacts = Some (n, artifact).

(** Every step of fetching [artifact] from world [w] succeeds: the
    download, the temporary directory, the archive written, unpacked,
    the results file read and parsed into [v], and the clean-up. *)
Definition fetch_succeeds (self : ArtifactManager.t) (tmp_prefix file : jsstring)
    (artifact : Artifact.t) (w : W) (v : jsval) : Prop :=
  exists data w1 tmpDir w2 w3 w4 text w5 w6 w7,
    octokit_downloadArtifact (ArtifactManager.owner self) (ArtifactManager.repo self)
      (Artifact.id artifact) w = (inr data, w1)
    /\ fs_mkdtempSync (path_join os_tmpdir tmp_prefix) w1 = (inr tmpDir, w2)
    /\ fs_writeFileSync (path_join tmpDir (lit "artifact.zip")) data w2 = (inr tt, w3)
    /\ zip_extractAllTo (path_join tmpDir (lit "artifact.zip")) tmpDir w3 = (inr tt, w4)
    /\ fs_existsSync (path_join tmpDir file) w4 = true
    /\ fs_readFileSync (path_join tmpDir file) w4 = (inr text, w5)
    /\ JSON_parse text = inr v
    /\ fs_unlinkSync (path_join tmpDir (lit "artifact.zip")) w5 = (inr tt, w6)
    /\ fs_rmSync_recursive tmpDir w6 = (inr tt, w7).

(** What a hit adds to the requests after the download: nothing, or the
    archive written to disk. *)
Definition after_download (tail : list event) : Prop :=
  tail = [] \/ exists path data, tail = [EvWriteFile path data].

(** The retrieval takes the first hit: when [run] is the first run of the
    branch listing that holds a candidate, the retrieval has listed the
    runs, asked for the artifacts of the runs up to [run] and of no later
    one, and then asked for the download of the first match of [run];
    when every step of the fetch succeeds it returns what was parsed. *)
Definition takes_first_hit (self : ArtifactManager.t) (baseBranch : jsstring)
    (names : list jsstring) (tmp_prefix file : jsstring)
    (retrieval : M W (option jsval)) : Prop :=
  forall st runs w0 skipped run artifact w2,
    octokit_listWorkflowRunsForRepo (branch_query self baseBranch) (world st)
    = (inr runs, w0) ->
    first_hit self names runs w0 skipped run artifact w2 ->
    (exists tail,
        new_events st (retrieval st).2
        = EvListRuns (branch_query self baseBranch)
          :: artifact_listings (skipped ++ [run])
          ++ EvDownload (Artifact.id artifact) :: tail
        /\ after_download tail)
    /\ (forall v,
          fetch_succeeds self tmp_prefix file artifact w2 v ->
          (retrieval st).1 = inr (Some v)).

(** The retrieval returns null, and does not throw, when it has scanned
    every run of the branch listing without a hit; it has then asked for
    the artifacts of each of these runs and for no download. *)
Definition null_without_hit (self : ArtifactManager.t) (baseBranch : jsstring)
    (names : list jsstring) (retrieval : M W (option jsval)) : Prop :=
  forall st runs w0 w1,
    octokit_listWorkflowRunsForRepo (branch_query self baseBranch) (world st)
    = (inr runs, w0) ->
    scanned_without_hit self names runs w0 = Some w1 ->
    (retrieval st).1 = inr None
    /\ new_events st (retrieval st).2
       = EvListRuns (branch_query self baseBranch) :: artifact_listings runs.

(** The requests of a retrieval, from the answers of the platform: one
    listing of the runs of the branch; then, when that listing succeeded,
    the artifacts of the runs in the order listed, up to and including
    the first run whose request fails or whose listing holds a candidate
    and of no run after it; on a hit the download of the first match of
    that run and at most the archive written. *)
Definition retrieval_trace (self : ArtifactManager.t) (baseBranch : jsstring)
    (names : list jsstring) (st : state W) (evs : list event) : Prop :=
  let q := branch_query self baseBranch in
  match octokit_listWorkflowRunsForRepo q (world st) with
  | (inl _, _) => evs = [EvListRuns q]
  | (inr runs, w0) =>
      exists skipped w1,
        scanned_without_hit self names skipped w0 = Some w1
        /\ ((runs = skipped /\ evs = EvListRuns q :: artifact_listings runs)
            \/ exists run rest,
                 runs = skipped ++ run :: rest
                 /\ match octokit_listWorkflowRunArtifacts (ArtifactManager.owner self)
                            (ArtifactManager.repo self) (WorkflowRun.id run) w1 with
                    | (inl _, _) =>
                        evs = EvListRuns q :: artifact_listings (skipped ++ [run])
                    | (inr artifacts, _) =>
                        exists n artifact tail,
                          first_match names artifacts = Some (n, artifact)
                          /\ evs = EvListRuns q
                                   :: artifact_listings (skipped ++ [run])
                                   ++ EvDownload (Artifact.id artifact) :: tail
                          /\ after_download tail
                    end)
  end.

(** The steps of a retrieval after its first messages: list the runs of
    the base branch and scan them. *)
Definition branch_lookup (self : ArtifactManager.t) (what tmp_prefix : jsstring)
    (extract : jsstring -> jsstring -> M W (option jsval))
    (artifactNamesToTry : list jsstring) (baseBranch : jsstring) : M W (option jsval) :=
  workflowRuns <- listWorkflowRunsForRepo (branch_query self baseBranch) ;;
  match workflowRuns with
  | [] => core_info (no_runs_for_branch baseBranch) ;;; ret None
  | _ => scan_runs self what tmp_prefix extract artifactNamesToTry workflowRuns
  end.

(** The [catch] block of a retrieval. *)
Definition on_failure (prefix : jsstring) (error : thrown) : M W (option jsval) :=
  let message := error_message error in
  core_warning (prefix ++ message) ;;;
  ret None.

(** *** What an upload persists *)


End RetrievalOutcomes.

(** ** A drop in line rate below the rounding *)





(** ** Retrieval by base commit

    The revision of the artifact manager whose retrievals take a base
    commit is not among the sources; only its test file
    (src/__tests__/artifact-manager.test.ts) is.  The definitions of this
    section follow section 4.4 of the specification, its state machine
    and its fallback policy, and reuse the steps of the retrieval by
    branch the sources have. *)

Section BaseCommitCode.
Context {W : Type} `{Platform W}.
Local Open Scope js_scope.

(** Modelled from the spec: the filter of the listing by commit, which
    the missing revision builds (policy item 1: that exact commit,
    successful runs, a bounded page; the test file gives the fields). *)
Definition sha_query (self : ArtifactManager.t) (baseSha : jsstring) : RunsQuery.t :=
  {| RunsQuery.owner := ArtifactManager.owner self;
     RunsQuery.repo := ArtifactManager.repo self;
     RunsQuery.branch := None;
     RunsQuery.head_sha := Some baseSha;
     RunsQuery.status := lit "success";
     RunsQuery.per_page := 10 |}.

(** Modelled from the spec: the two ends of an artifact scan in the
    state machine of the missing retrieval, HIT with what was read from
    the artifact and MISS. *)
Inductive tier_outcome :=
  | Hit (results : option jsval)
  | Miss.

(** Modelled from the spec: ARTIFACT_SCAN of the missing retrieval over
    the runs of one tier (policy items 3 and 4, first hit wins); the
    scan and the fetch are those of the retrieval by branch. *)
Fixpoint scan_tier (self : ArtifactManager.t) (what tmp_prefix : jsstring)
    (extract : jsstring -> jsstring -> M W (option jsval))
    (artifactNamesToTry : list jsstring) (runs : list WorkflowRun.t)
  : M W tier_outcome :=
  match runs with
  | [] => ret Miss
  | run :: rest =>
      sent (EvListArtifacts (WorkflowRun.id run)) ;;;
      artifacts <- call (octokit_listWorkflowRunArtifacts (ArtifactManager.owner self)
                           (ArtifactManager.repo self) (WorkflowRun.id run)) ;;
      match first_match artifactNamesToTry artifacts with
      | Some (artifactName, artifact) =>
          core_info (lit "Found " ++ what ++ lit " artifact '" ++ artifactName
                     ++ lit "' from run #"
                     ++ number_text (Some (WorkflowRun.run_number run))) ;;;
          results <- fetch_artifact self tmp_prefix extract artifact ;;
          ret (Hit results)
      | None => scan_tier self what tmp_prefix extract artifactNamesToTry rest
      end
  end.

(** Modelled from the spec: the message of the missing retrieval when
    the commit has no successful run (the text is the one the test file
    expects). *)
Definition no_runs_for_sha (baseSha baseBranch : jsstring) : jsstring :=
  [8505; 65039]%N ++ lit " No successful workflow runs found for SHA '" ++ baseSha
  ++ lit "'. Falling back to branch '" ++ baseBranch ++ lit "'".

(** Modelled from the spec: SHA_LOOKUP of the missing retrieval (policy
    item 1).  Without a commit, or with a commit that has no successful
    run, or whose runs hold no candidate, the tier is a MISS. *)
Definition sha_lookup (self : ArtifactManager.t) (what tmp_prefix : jsstring)
    (extract : jsstring -> jsstring -> M W (option jsval))
    (artifactNamesToTry : list jsstring) (baseBranch : jsstring)
    (baseSha : option jsstring) : M W tier_outcome :=
  match baseSha with
  | Some sha =>
      if str_truthy sha then
        shaRuns <- listWorkflowRunsForRepo (sha_query self sha) ;;
        match shaRuns with
        | [] => core_info (no_runs_for_sha sha baseBranch) ;;; ret Miss
        | _ => scan_tier self what tmp_prefix extract artifactNamesToTry shaRuns
        end
      else ret Miss
  | None => ret Miss
  end.

(** Modelled from the spec: the state machine of the missing retrieval,
    SHA_LOOKUP, then BRANCH_LOOKUP only if SHA_LOOKUP had no runs or no
    artifact (policy items 2 and 5); BRANCH_LOOKUP is the lookup of the
    retrieval by branch.  The test file of the missing revision expects
    a single listing when the run of the commit holds no artifact; the
    model follows the state machine of the specification, which lists
    the branch in that case too. *)
Definition resolve_base (self : ArtifactManager.t) (what tmp_prefix : jsstring)
    (extract : jsstring -> jsstring -> M W (option jsval))
    (artifactNamesToTry : list jsstring) (baseBranch : jsstring)
    (baseSha : option jsstring) : M W (option jsval) :=
  outcome <- sha_lookup self what tmp_prefix extract artifactNamesToTry baseBranch
               baseSha ;;
  match outcome with
  | Hit results => ret results
  | Miss => branch_lookup self what tmp_prefix extract artifactNamesToTry baseBranch
  end.

(** Modelled from the spec: [downloadBaseCoverageResults(baseBranch,
    flags, baseSha)] of the missing revision, the retrieval of the
    sources with [resolve_base] in place of the lookup by branch. *)
Definition downloadBaseCoverageResults_sha (self : ArtifactManager.t)
    (baseBranch : jsstring) (flags : option (list jsstring))
    (baseSha : option jsstring) (name : option jsstring) : M W (option jsval) :=
  try_catch
    (let artifactNamesToTry := coverage_artifact_names baseBranch flags name in
     core_info ([55357; 56549]%N
                ++ lit " Attempting to download base coverage results: "
                ++ default (lit "undefined") (head artifactNamesToTry)) ;;;
     match flags with
     | Some ((_ :: _) as fs) => core_info (lit "   Looking for flags: " ++ join (lit ", ") fs)
     | _ => ret tt
     end ;;;
     resolve_base self (lit "coverage") (lit "codecov-base-coverage-")
       extractAndReadCoverageResults artifactNamesToTry baseBranch baseSha)
    (fun error =>
       let message := error_message error in
       core_warning (lit "Failed to download base coverage artifact: " ++ message) ;;;
       ret None).

(** Modelled from the spec: [downloadBaseResults(baseBranch, baseSha)] of
    the missing revision. *)
Definition downloadBaseResults_sha (self : ArtifactManager.t) (baseBranch : jsstring)
    (baseSha : option jsstring) (name : option jsstring) : M W (option jsval) :=
  try_catch
    (let artifactNamesToTry := test_artifact_names baseBranch name in
     core_info ([55357; 56549]%N ++ lit " Attempting to download base test results: "
                ++ default (lit "undefined") (head artifactNamesToTry)) ;;;
     resolve_base self (lit "test") (lit "codecov-base-test-") extractAndReadResults
       artifactNamesToTry baseBranch baseSha)
    (fun error =>
       let message := error_message error in
       core_warning (lit "Failed to download base test artifact: " ++ message) ;;;
       ret None).

(** *** What the specification says of it *)

(** The listing is most recent first for the order [newer]: every run
    is newer than the runs listed after it. *)
Fixpoint most_recent_first (newer : relation WorkflowRun.t)
    (runs : list WorkflowRun.t) : Prop :=
  match runs with
  | [] => True
  | run :: rest => Forall (newer run) rest /\ most_recent_first newer rest
  end.

(** The retrieval searches the commit first and the branch only after
    it.  Its first request lists the runs of the commit.  A hit among
    them is taken from the first run that holds one, in the order
    listed, and ends the search.  When the commit has no run, or its
    runs were all scanned without a hit, the next request lists the runs
    of the base branch, and that listing is made in no other case.  A
    hit among the runs of the branch is then taken in the same way; when
    these too are scanned without a hit the retrieval returns null. *)
Definition commit_then_branch (self : ArtifactManager.t) (baseBranch sha : jsstring)
    (names : list jsstring) (tmp_prefix file : jsstring)
    (retrieval : M W (option jsval)) : Prop :=
  let by_commit := sha_query self sha in
  let by_branch := branch_query self baseBranch in
  forall st,
    let evs := new_events st (retrieval st).2 in
    (exists rest, evs = EvListRuns by_commit :: rest)
    /\ (forall runs w0 skipped run artifact w2,
          octokit_listWorkflowRunsForRepo by_commit (world st) = (inr runs, w0) ->
          first_hit self names runs w0 skipped run artifact w2 ->
          (exists tail,
              evs = EvListRuns by_commit :: artifact_listings (skipped ++ [run])
                    ++ EvDownload (Artifact.id artifact) :: tail
              /\ after_download tail)
          /\ (forall v,
                fetch_succeeds self tmp_prefix file artifact w2 v ->
                (retrieval st).1 = inr (Some v)))
    /\ (forall w0,
          octokit_listWorkflowRunsForRepo by_commit (world st) = (inr [], w0) ->
          exists rest, evs = EvListRuns by_commit :: EvListRuns by_branch :: rest)
    /\ (forall runs w0 w1,
          octokit_listWorkflowRunsForRepo by_commit (world st) = (inr runs, w0) ->
          scanned_without_hit self names runs w0 = Some w1 ->
          exists rest,
            evs = EvListRuns by_commit :: artifact_listings runs
                  ++ EvListRuns by_branch :: rest)
    /\ (EvListRuns by_branch ∈ evs ->
        exists runs w0 w1,
          octokit_listWorkflowRunsForRepo by_commit (world st) = (inr runs, w0)
          /\ scanned_without_hit self names runs w0 = Some w1)
    /\ (forall runs w0 w1 branchRuns w2 skipped run artifact w3,
          octokit_listWorkflowRunsForRepo by_commit (world st) = (inr runs, w0) ->
          scanned_without_hit self names runs w0 = Some w1 ->
          octokit_listWorkflowRunsForRepo by_branch w1 = (inr branchRuns, w2) ->
          first_hit self names branchRuns w2 skipped run artifact w3 ->
          (exists tail,
              evs = EvListRuns by_commit :: artifact_listings runs
                    ++ EvListRuns by_branch :: artifact_listings (skipped ++ [run])
                    ++ EvDownload (Artifact.id artifact) :: tail
              /\ after_download tail)
          /\ (forall v,
                fetch_succeeds self tmp_prefix file artifact w3 v ->
                (retrieval st).1 = inr (Some v)))
    /\ (forall runs w0 w1 branchRuns w2 w3,
          octokit_listWorkflowRunsForRepo by_commit (world st) = (inr runs, w0) ->
          scanned_without_hit self names runs w0 = Some w1 ->
          octokit_listWorkflowRunsForRepo by_branch w1 = (inr branchRuns, w2) ->
          scanned_without_hit self names branchRuns w2 = Some w3 ->
          (retrieval st).1 = inr None
          /\ evs = EvListRuns by_commit :: artifact_listings runs
                   ++ EvListRuns by_branch :: artifact_listings branchRuns).

End BaseCommitCode.

(** The commit has a successful run that holds no artifact; the one run
    of the base branch holds a live artifact under the legacy name
    without qualifiers. *)
Definition commit_without_artifact : Mock.t :=
  {| Mock.job := Some (lit "test");
     Mock.runs :=
       fun q => match RunsQuery.head_sha q with
                | Some _ => inr [WorkflowRun.mk 201 8]
                | None => inr [WorkflowRun.mk 101 7]
                end;
     Mock.artifacts :=
       fun run_id =>
         if (run_id =? 201)%Z then inr []
         else inr [Artifact.mk (lit "codecov-coverage-results-main") 2 false];
     Mock.archive := fun _ => inr [];
     Mock.stored := fun _ => inr (JObject [("lineRate", JNumber (of_Z 80))]);
     Mock.upload := inr (Some 7%Z) |}.
(** * Properties *)

(** ** Worked examples *)

Example round2_one_third :
  round2 (mul (div (of_Z 1) (of_Z 3)) hundred) = of_decimal false 3333 100.
Proof. vm_compute. reflexivity. Qed.

Example round2_keeps_the_sign_of_a_small_negative :
  round2 (of_decimal true 1 1000) = S754_zero true.
Proof. vm_compute. reflexivity. Qed.

Example round2_of_1_005_rounds_down :
  round2 (of_decimal false 1005 1000) = of_Z 1.
Proof. vm_compute. reflexivity. Qed.

Example percentage_11_of_12 : percentage (of_Z 11) (of_Z 12) = of_decimal false 9167 100.
Proof. vm_compute. reflexivity. Qed.

Example parseInt10_digits : parseInt10 (lit "42") = of_Z 42.
Proof. vm_compute. reflexivity. Qed.

Example parseInt10_sign_and_suffix : parseInt10 (lit "  -7px") = of_Z (-7).
Proof. vm_compute. reflexivity. Qed.

Example parseInt10_fraction : parseInt10 (lit "12.5") = of_Z 12.
Proof. vm_compute. reflexivity. Qed.

Example parseInt10_no_digit : parseInt10 (lit "abc") = NaN /\ parseInt10 [] = NaN.
Proof. split; vm_compute; reflexivity. Qed.

Example parseInt10_negative_zero : parseInt10 (lit "-0") = S754_zero true.
Proof. vm_compute. reflexivity. Qed.

Example sanitizeBranchName_path :
  sanitizeBranchName (lit "feature/login page" ++ [233%N])
  = lit "feature-login-page-".
Proof. vm_compute. reflexivity. Qed.

Example getArtifactName_matrix :
  getArtifactName (H := Mock.platform healthy) (lit "release/1.x") (lit "coverage")
    (Some [lit "unit"; lit "e2e"]) (Some (lit "node 20"))
  = lit "codecov-coverage-results-release-1-x-test-node-20-unit-e2e"
  /\ getLegacyArtifactName (lit "release/1.x") (lit "coverage")
       (Some [lit "unit"; lit "e2e"]) (Some (lit "node 20"))
     = lit "codecov-coverage-results-release-1-x-node-20-unit-e2e".
Proof. split; vm_compute; reflexivity. Qed.

Example constructor_splits_the_repository :
  constructor (H := Mock.platform healthy) = sample_manager.
Proof. vm_compute. reflexivity. Qed.

Example set_spread_first_occurrences :
  set_spread [3%N; 1%N; 3%N; 2%N; 1%N] = [3%N; 1%N; 2%N].
Proof. vm_compute. reflexivity. Qed.

Example map_set_keeps_the_position :
  map_set 1%N "c" [(1%N, "a"); (2%N, "b")] = [(1%N, "c"); (2%N, "b")]
  /\ map_set 3%N "c" [(1%N, "a"); (2%N, "b")] = [(1%N, "a"); (2%N, "b"); (3%N, "c")].
Proof. split; reflexivity. Qed.

Example scenario_comparison :
  let c := compareResults scenario_base scenario_current None in
  CoverageComparison.filesAdded c = [sample_file "c" 90 100]
  /\ CoverageComparison.filesRemoved c = []
  /\ FileComparison.path <$> CoverageComparison.filesChanged c = [lit "a"]
  /\ CoverageComparison.deltaLineRate c = of_Z 10
  /\ CoverageComparison.improvement c = true.
Proof. vm_compute. repeat split; reflexivity. Qed.

Example comparison_with_itself :
  let c := compareResults scenario_base scenario_base None in
  CoverageComparison.filesAdded c = []
  /\ CoverageComparison.filesRemoved c = []
  /\ CoverageComparison.filesChanged c = []
  /\ CoverageComparison.deltaLineRate c = zero
  /\ CoverageComparison.improvement c = false.
Proof. vm_compute. repeat split; reflexivity. Qed.

Example retrieval_falls_back_to_the_legacy_name :
  let p := Mock.platform legacy_only in
  let run := downloadBaseCoverageResults sample_manager (lit "main") (Some [lit "unit"])
               None (Mock.start ∅) in
  run.1 = inr (Some (JObject [("lineRate", JNumber (of_Z 80))]))
  /\ events run.2
     = [EvListRuns (branch_query sample_manager (lit "main")); EvListArtifacts 101;
        EvDownload 2;
        EvWriteFile (lit "/tmp/codecov-base-coverage-XXXXXX/artifact.zip") []].
Proof. vm_compute. split; reflexivity. Qed.

Example upload_on_a_healthy_platform :
  let p := Mock.platform healthy in
  let run := uploadCoverageResults 1%positive (lit "feature/x") (Some [lit "unit"]) None
               (Mock.start sample_heap) in
  run.1 = inr tt
  /\ events run.2
     = [EvWriteFile (lit "/tmp/codecov-coverage-XXXXXX/coverage-results.json")
          (lit "totalStatements,lineRate,files");
        EvUpload (lit "codecov-coverage-results-feature-x-test-unit")
          [lit "/tmp/codecov-coverage-XXXXXX/coverage-results.json"]
          (lit "/tmp/codecov-coverage-XXXXXX")]
  /\ log run.2
     = [LogInfo ([55357; 56548]%N
                 ++ lit " Uploading coverage results as artifact: "
                 ++ lit "codecov-coverage-results-feature-x-test-unit");
        LogInfo (lit "   Flags: unit");
        LogInfo ([9989]%N ++ lit " Coverage artifact uploaded successfully. ID: N")].
Proof. vm_compute. repeat split; reflexivity. Qed.

(** ** Numbers *)

Section NumberFacts.
Local Open Scope Z_scope.

Lemma binary_round_aux_opp s m e l :
  SFopp (binary_round_aux prec emax s m e l) = binary_round_aux prec emax (negb s) m e l.
Proof.
  unfold binary_round_aux.
  destruct (shr_fexp prec emax m e l) as [mrs e'].
  destruct (shr_fexp prec emax _ e' loc_Exact) as [mrs' e''].
  destruct (shr_m mrs') as [|p|p]; [reflexivity| |reflexivity].
  destruct (e'' <=? emax - prec); reflexivity.
Qed.

Lemma binary_round_opp s m e :
  SFopp (binary_round prec emax s m e) = binary_round prec emax (negb s) m e.
Proof.
  unfold binary_round.
  destruct (shl_align m e _) as [mz ez]. apply binary_round_aux_opp.
Qed.

Lemma binary_normalize_opp z e :
  same_value_zero (binary_normalize prec emax (- z) e false)
                  (SFopp (binary_normalize prec emax z e false)).
Proof.
  destruct z as [|p|p]; simpl.
  - right. eauto.
  - left. symmetry. apply (binary_round_opp false).
  - left. symmetry. apply (binary_round_opp true).
Qed.

Lemma sub_anti x y : same_value_zero (sub y x) (neg (sub x y)).
Proof.
  destruct x as [sx|sx| |sx mx ex], y as [sy|sy| |sy my ey].
  1-15: repeat match goal with s : bool |- _ => destruct s end;
        simpl; first [left; reflexivity | right; eauto].
  unfold sub, neg, SFsub.
  rewrite (Z.min_comm ey ex).
  set (a := cond_Zopp sx _). set (b := cond_Zopp sy _).
  replace (b - a) with (- (a - b)) by lia.
  apply binary_normalize_opp.
Qed.

Lemma sub_diag x : is_finite x = true -> sub x x = zero.
Proof.
  destruct x as [s|s| |s m e]; try discriminate; intros _.
  - destruct s; reflexivity.
  - unfold sub, SFsub. rewrite Z.sub_diag. reflexivity.
Qed.

Lemma of_decimal_opp s n d : SFopp (of_decimal s n d) = of_decimal (negb s) n d.
Proof.
  unfold of_decimal. destruct n as [|p|p]; try reflexivity.
  destruct (SFdiv_core_binary prec emax (Z.pos p) 0 (Z.pos d) 0) as [[q e] l].
  apply binary_round_aux_opp.
Qed.

Lemma round2_opp x : same_value_zero (round2 (neg x)) (neg (round2 x)).
Proof.
  destruct x as [s|s| |s m e]; simpl.
  - right. eauto.
  - left. reflexivity.
  - left. reflexivity.
  - left. destruct ((0 <=? e) && (10 ^ 21 <=? Z.pos m * 2 ^ e)); [reflexivity|].
    symmetry. apply of_decimal_opp.
Qed.

Lemma round2_same_value_zero x y : same_value_zero x y -> round2 x = round2 y.
Proof. intros [->|(s & t & -> & ->)]; reflexivity. Qed.

Lemma same_value_zero_trans x y z :
  same_value_zero x y -> same_value_zero y z -> same_value_zero x z.
Proof.
  intros [->|(s & t & -> & ->)] [<-|(s' & t' & E & ->)];
    first [left; reflexivity | right; eauto].
Qed.

Lemma sub_negation x y : negation_of (sub x y) (sub y x).
Proof. apply sub_anti. Qed.

Lemma round2_sub_negation x y : negation_of (round2 (sub x y)) (round2 (sub y x)).
Proof.
  unfold negation_of.
  rewrite (round2_same_value_zero _ _ (sub_anti x y)).
  apply round2_opp.
Qed.

Lemma round2_sub_diag x : is_finite x = true -> round2 (sub x x) = zero.
Proof. intros Hx. rewrite sub_diag by assumption. reflexivity. Qed.

Lemma strict_eq_sub x y :
  strict_eq x y = true -> is_finite y = true -> round2 (sub y x) = zero.
Proof.
  unfold strict_eq, SFeqb.
  destruct x as [sx|sx| |sx mx ex], y as [sy|sy| |sy my ey]; simpl;
    try discriminate; intros Hcmp Hfin; try discriminate Hfin.
  1-5: destruct sx; try destruct sy; try discriminate Hcmp; reflexivity.
  assert (Heq : sx = sy /\ ex = ey /\ mx = my).
  { destruct sx, sy; try discriminate;
      destruct (ex ?= ey) eqn:He; try discriminate;
      apply Z.compare_eq in He;
      destruct (Pos.compare_cont Eq mx my) eqn:Hm; try discriminate;
      apply Pos.compare_eq in Hm; auto. }
  destruct Heq as (-> & -> & ->).
  rewrite Z.sub_diag. reflexivity.
Qed.


End NumberFacts.

(** ** Aggregation *)

Lemma strict_eq_zero_not_gt x : strict_eq x zero = true -> gt x zero = false.
Proof. destruct x as [s|s| |s m e]; try destruct s; try discriminate; reflexivity. Qed.

Lemma fold_aggregate_step results acc :
  fold_left aggregate_step results acc =
  {| acc_totalStatements :=
       fold_left add (counters CoverageMetrics.statements results) (acc_totalStatements acc);
     acc_coveredStatements :=
       fold_left add (counters CoverageMetrics.coveredStatements results)
         (acc_coveredStatements acc);
     acc_totalConditionals :=
       fold_left add (counters CoverageMetrics.conditionals results)
         (acc_totalConditionals acc);
     acc_coveredConditionals :=
       fold_left add (counters CoverageMetrics.coveredConditionals results)
         (acc_coveredConditionals acc);
     acc_totalMethods :=
       fold_left add (counters CoverageMetrics.methods results) (acc_totalMethods acc);
     acc_coveredMethods :=
       fold_left add (counters CoverageMetrics.coveredMethods results)
         (acc_coveredMethods acc);
     acc_allFiles := acc_allFiles acc ++ concat (CoverageResults.files <$> results) |}.
Proof.
  revert acc. induction results as [|r results IH]; intros acc.
  - destruct acc. simpl. rewrite app_nil_r. reflexivity.
  - simpl. rewrite IH. simpl. rewrite app_assoc. reflexivity.
Qed.

Lemma counters_with_rates f g results :
  (forall m rates, f (CoverageResults.metrics (with_rates rates m)) = f (CoverageResults.metrics m)) ->
  counters f ((fun r => with_rates (g r) r) <$> results) = counters f results.
Proof.
  intros Hf. unfold counters. rewrite <- list_fmap_compose.
  apply list_fmap_ext. intros i r _. apply Hf.
Qed.

Lemma aggregateResults_with_rates g results :
  aggregateResults ((fun r => with_rates (g r) r) <$> results) = aggregateResults results.
Proof.
  unfold aggregateResults. rewrite !fold_aggregate_step. simpl.
  rewrite !counters_with_rates by reflexivity.
  rewrite <- list_fmap_compose.
  rewrite (list_fmap_ext (CoverageResults.files ∘ _) CoverageResults.files results);
    [reflexivity|].
  intros i r _. reflexivity.
Qed.

(** C1.  The line rate of an aggregate is the percentage of the summed
    covered statements in the summed statements when that sum is
    positive and 0 when it is 0, and likewise the branch rate from the
    conditionals.  The rates the documents carry are not read, so the
    result is not their mean: there are documents on which the two
    differ.  No document at all gives the summary of zeros with no
    file. *)
Theorem aggregateResults_rates_from_sums (results : list CoverageResults.t) :
  let statements := sum_numbers (counters CoverageMetrics.statements results) in
  let covered := sum_numbers (counters CoverageMetrics.coveredStatements results) in
  let conditionals := sum_numbers (counters CoverageMetrics.conditionals results) in
  let coveredConditionals :=
    sum_numbers (counters CoverageMetrics.coveredConditionals results) in
  let summary := aggregateResults results in
  (gt statements zero = true ->
   AggregatedCoverageResults.lineRate summary = percentage covered statements)
  /\ (strict_eq statements zero = true ->
      AggregatedCoverageResults.lineRate summary = zero)
  /\ (gt conditionals zero = true ->
      AggregatedCoverageResults.branchRate summary
      = percentage coveredConditionals conditionals)
  /\ (strict_eq conditionals zero = true ->
      AggregatedCoverageResults.branchRate summary = zero)
  /\ (forall g, aggregateResults ((fun r => with_rates (g r) r) <$> results) = summary)
  /\ (exists documents,
        AggregatedCoverageResults.lineRate (aggregateResults documents)
        <> mean (counters CoverageMetrics.lineRate documents))
  /\ aggregateResults [] = empty_summary.
Proof.
  cbv zeta. unfold aggregateResults at 1 2 3 4. rewrite fold_aggregate_step. simpl.
  fold (sum_numbers (counters CoverageMetrics.statements results)).
  fold (sum_numbers (counters CoverageMetrics.coveredStatements results)).
  fold (sum_numbers (counters CoverageMetrics.conditionals results)).
  fold (sum_numbers (counters CoverageMetrics.coveredConditionals results)).
  repeat split.
  - intros ->. reflexivity.
  - intros Hz. rewrite (strict_eq_zero_not_gt _ Hz). reflexivity.
  - intros ->. reflexivity.
  - intros Hz. rewrite (strict_eq_zero_not_gt _ Hz). reflexivity.
  - intros g. apply aggregateResults_with_rates.
  - exists sample_documents. vm_compute. discriminate.
Qed.

(** The sample documents: 11 statements of 12 are covered, 91.67 percent,
    while the rates of the two documents are 50 and 100. *)
Lemma aggregateResults_rates_from_sums_witness :
  gt (sum_numbers (counters CoverageMetrics.statements sample_documents)) zero = true
  /\ AggregatedCoverageResults.lineRate (aggregateResults sample_documents)
     = percentage (of_Z 11) (of_Z 12).
Proof.
  split; [reflexivity|].
  apply (proj1 (aggregateResults_rates_from_sums sample_documents)). reflexivity.
Defined.

(** ** The Clover parser *)

Lemma parseMetrics_invariant attrs m :
  parseMetrics attrs = inr m -> metrics_invariant m.
Proof.
  destruct attrs as [a|]; [|discriminate].
  intros [= <-]. unfold metrics_invariant, rate_invariant. simpl.
  repeat split.
  - intros ->. reflexivity.
  - intros Hz. rewrite (strict_eq_zero_not_gt _ Hz). reflexivity.
  - intros ->. reflexivity.
  - intros Hz. rewrite (strict_eq_zero_not_gt _ Hz). reflexivity.
Qed.

Lemma parseFile_internal_invariant fileElement f :
  parseFile_internal fileElement = inr f -> file_invariant f.
Proof.
  unfold parseFile_internal.
  destruct (parseMetrics (FileElement.metrics fileElement)) as [e|m] eqn:Hm; [discriminate|].
  intros [= <-]. apply parseMetrics_invariant in Hm. exact Hm.
Qed.

Lemma parseFiles_invariant projectFiles files :
  parseFiles projectFiles = inr files -> Forall file_invariant files.
Proof.
  revert files. induction projectFiles as [|file rest IH]; intros files; simpl.
  - intros [= <-]. constructor.
  - destruct (parseFile_internal file) as [e|f] eqn:Hf; [discriminate|].
    destruct (parseFiles rest) as [e|fs]; [discriminate|].
    intros [= <-]. constructor.
    + eapply parseFile_internal_invariant, Hf.
    + apply IH. reflexivity.
Qed.

Lemma parseMetrics_other_attribute attrs k v :
  k ∉ count_keys ->
  parseMetrics (Some (<[k := v]> attrs)) = parseMetrics (Some attrs).
Proof.
  intros Hk. unfold parseMetrics.
  rewrite !lookup_insert_ne; [reflexivity|..];
    intros ->; apply Hk; unfold count_keys; set_solver.
Qed.

(** C8.  In every document the parser returns, the project metrics and
    each file satisfy the rate invariant: a rate is
    [round(covered / total * 100, 2)] when the total is positive and 0
    when it is 0.  The rates come from the counters alone: an attribute
    that is not one of the eight counters, such as a rate written in the
    document, changes nothing. *)
Theorem clover_rates_recomputed (document : XmlResult.t) (r : CoverageResults.t) :
  parseXML document = inr r ->
  metrics_invariant (CoverageResults.metrics r)
  /\ Forall file_invariant (CoverageResults.files r)
  /\ (forall attrs k v, k ∉ count_keys ->
        parseMetrics (Some (<[k := v]> attrs)) = parseMetrics (Some attrs)).
Proof.
  unfold parseXML.
  destruct (XmlResult.coverage document) as [coverage|]; [|discriminate].
  destruct (CoverageElement.project coverage) as [project|]; [|discriminate].
  destruct (parseMetrics (ProjectElement.metrics project)) as [e|m] eqn:Hm; [discriminate|].
  destruct (parseFiles (as_array (ProjectElement.file project))) as [e|fs] eqn:Hfs;
    [discriminate|].
  intros [= <-]. simpl. split; [|split].
  - eapply parseMetrics_invariant, Hm.
  - eapply parseFiles_invariant, Hfs.
  - apply parseMetrics_other_attribute.
Qed.

(** The sample document: one statement of three, 33.33 percent, whatever
    its [linerate] attribute says. *)
Lemma clover_rates_recomputed_witness :
  parseXML sample_xml = inr sample_parsed
  /\ CoverageMetrics.lineRate (CoverageResults.metrics sample_parsed)
     = percentage (of_Z 1) (of_Z 3)
  /\ metrics_invariant (CoverageResults.metrics sample_parsed)
  /\ Forall file_invariant (CoverageResults.files sample_parsed).
Proof.
  split; [vm_compute; reflexivity|].
  split; [vm_compute; reflexivity|].
  destruct (clover_rates_recomputed sample_xml sample_parsed) as (Hm & Hf & _);
    [vm_compute; reflexivity|].
  split; assumption.
Defined.

(** ** Insertion-ordered maps *)

Section JsMapFacts.
Context {K V : Type} `{EqDecision K}.
Implicit Types (m : list (K * V)) (k : K) (v : V).

Lemma map_get_set_eq k v m : map_get k (map_set k v m) = Some v.
Proof.
  induction m as [|[k' v'] m IH]; simpl.
  - destruct (decide (k = k)); [reflexivity|congruence].
  - destruct (decide (k' = k)) as [->|Hne]; simpl.
    + destruct (decide (k = k)); [reflexivity|congruence].
    + destruct (decide (k' = k)); [congruence|exact IH].
Qed.

Lemma map_get_set_ne k k' v m : k <> k' -> map_get k' (map_set k v m) = map_get k' m.
Proof.
  intros Hne. induction m as [|[k0 v0] m IH]; simpl.
  - destruct (decide (k = k')); [congruence|reflexivity].
  - destruct (decide (k0 = k)) as [->|Hk0]; simpl.
    + destruct (decide (k = k')); [congruence|reflexivity].
    + destruct (decide (k0 = k')); [reflexivity|exact IH].
Qed.

Lemma map_set_keys_old k v m : k ∈ m.*1 -> (map_set k v m).*1 = m.*1.
Proof.
  induction m as [|[k' v'] m IH]; intros Hin.
  - apply elem_of_nil in Hin. contradiction.
  - cbn [map_set]. destruct (decide (k' = k)) as [->|Hne]; [reflexivity|].
    cbn [fmap list_fmap fst]. f_equal. apply IH.
    cbn [fmap list_fmap fst] in Hin. apply elem_of_cons in Hin as [->|Hin]; [|exact Hin].
    contradiction.
Qed.

Lemma map_set_keys_new k v m : k ∉ m.*1 -> (map_set k v m).*1 = m.*1 ++ [k].
Proof.
  induction m as [|[k' v'] m IH]; intros Hnin; [reflexivity|].
  cbn [fmap list_fmap fst] in Hnin. apply not_elem_of_cons in Hnin as [Hne Hnin].
  cbn [map_set]. destruct (decide (k' = k)) as [->|_]; [contradiction|].
  cbn [fmap list_fmap fst app]. f_equal. apply IH, Hnin.
Qed.

Lemma map_set_keys_NoDup k v m : NoDup m.*1 -> NoDup (map_set k v m).*1.
Proof.
  intros Hnd. destruct (decide (k ∈ m.*1)) as [Hin|Hnin].
  - rewrite map_set_keys_old by assumption. assumption.
  - rewrite map_set_keys_new by assumption.
    apply NoDup_app. split; [assumption|]. split.
    + intros x Hx Hx'. apply list_elem_of_singleton in Hx' as ->. contradiction.
    + apply NoDup_singleton.
Qed.

Lemma map_get_elem_of k v m : map_get k m = Some v -> (k, v) ∈ m.
Proof.
  induction m as [|[k' v'] m IH]; simpl; [discriminate|].
  destruct (decide (k' = k)) as [->|Hne].
  - intros [= ->]. apply list_elem_of_here.
  - intros Hget. apply list_elem_of_further, IH, Hget.
Qed.

Lemma elem_of_map_get k v m : NoDup m.*1 -> (k, v) ∈ m -> map_get k m = Some v.
Proof.
  induction m as [|[k' v'] m IH]; simpl; intros Hnd Hin.
  - apply elem_of_nil in Hin. contradiction.
  - apply NoDup_cons in Hnd as [Hk' Hnd].
    apply elem_of_cons in Hin as [[= <- <-]|Hin].
    + destruct (decide (k = k)); [reflexivity|congruence].
    + destruct (decide (k' = k)) as [->|Hne]; [|apply IH; assumption].
      exfalso. apply Hk'. apply (list_elem_of_fmap_2 fst _ (k, v)), Hin.
Qed.

Lemma map_set_elem_of k v k' v' m :
  (k', v') ∈ map_set k v m -> (k', v') = (k, v) \/ (k', v') ∈ m.
Proof.
  induction m as [|[k0 v0] m IH]; simpl.
  - intros Hin. apply list_elem_of_singleton in Hin. left. exact Hin.
  - destruct (decide (k0 = k)) as [->|Hne]; intros Hin;
      apply elem_of_cons in Hin as [Heq|Hin].
    + left. exact Heq.
    + right. apply list_elem_of_further, Hin.
    + right. rewrite Heq. apply list_elem_of_here.
    + destruct (IH Hin) as [Heq|Hin']; [left; exact Heq|].
      right. apply list_elem_of_further, Hin'.
Qed.

Lemma omap_keys_NoDup {B C} (g : K * V -> option B) (key : B -> C) (h : K -> C) m :
  Inj (=) (=) h ->
  NoDup m.*1 ->
  (forall e y, e ∈ m -> g e = Some y -> key y = h e.1) ->
  NoDup (key <$> omap g m).
Proof.
  intros Hinj. induction m as [|e m IH]; simpl; intros Hnd Hkey.
  - constructor.
  - apply NoDup_cons in Hnd as [He Hnd].
    assert (IHm : NoDup (key <$> omap g m)).
    { apply IH; [assumption|]. intros e' y He'. apply Hkey. apply list_elem_of_further, He'. }
    destruct (g e) as [y|] eqn:Hge; [|exact IHm].
    simpl. apply NoDup_cons. split; [|exact IHm].
    intros Hin. apply list_elem_of_fmap in Hin as (y' & Hy' & Hin).
    apply list_elem_of_omap in Hin as (e' & He' & Hge').
    apply He. rewrite (Hkey e y (list_elem_of_here _ _) Hge) in Hy'.
    rewrite (Hkey e' y' (list_elem_of_further _ _ _ He') Hge') in Hy'.
    apply Hinj in Hy'. rewrite Hy'. apply (list_elem_of_fmap_2 fst), He'.
Qed.

End JsMapFacts.

(** ** The file maps of a comparison *)

Lemma build_from_keys_NoDup files (m0 : list (jsstring * FileCoverage.t)) :
  NoDup m0.*1 ->
  NoDup (fold_left (fun m file => map_set (FileCoverage.path file) file m) files m0).*1.
Proof.
  revert m0. induction files as [|f files IH]; intros m0 Hnd; simpl; [assumption|].
  apply IH, map_set_keys_NoDup, Hnd.
Qed.

Lemma build_from_keyed files (m0 : list (jsstring * FileCoverage.t)) :
  (forall e, e ∈ m0 -> FileCoverage.path e.2 = e.1) ->
  forall e, e ∈ fold_left (fun m file => map_set (FileCoverage.path file) file m) files m0 ->
            FileCoverage.path e.2 = e.1.
Proof.
  revert m0. induction files as [|f files IH]; intros m0 Hm0; simpl; [assumption|].
  apply IH. intros [k v] Hin.
  apply map_set_elem_of in Hin as [[= -> ->]|Hin]; [reflexivity|].
  apply (Hm0 _ Hin).
Qed.

Lemma file_at_cons p f files :
  file_at p (f :: files) =
  match file_at p files with
  | Some g => Some g
  | None => if decide (FileCoverage.path f = p) then Some f else None
  end.
Proof.
  unfold file_at. rewrite filter_cons.
  destruct (decide (FileCoverage.path f = p)); [apply last_cons|].
  destruct (last _); reflexivity.
Qed.

Lemma build_from_get p files (m0 : list (jsstring * FileCoverage.t)) :
  map_get p (fold_left (fun m file => map_set (FileCoverage.path file) file m) files m0) =
  match file_at p files with
  | Some f => Some f
  | None => map_get p m0
  end.
Proof.
  revert m0. induction files as [|f files IH]; intros m0; [reflexivity|].
  cbn [fold_left]. rewrite IH, file_at_cons.
  destruct (file_at p files); [reflexivity|].
  destruct (decide (FileCoverage.path f = p)) as [<-|Hne].
  - apply map_get_set_eq.
  - apply map_get_set_ne, Hne.
Qed.

Lemma build_file_map_keys_NoDup files : NoDup (build_file_map files).*1.
Proof. apply build_from_keys_NoDup. constructor. Qed.

Lemma build_file_map_keyed files e :
  e ∈ build_file_map files -> FileCoverage.path e.2 = e.1.
Proof.
  apply build_from_keyed. intros e' He'. apply elem_of_nil in He'. contradiction.
Qed.

Lemma build_file_map_get p files : map_get p (build_file_map files) = file_at p files.
Proof.
  unfold build_file_map. rewrite build_from_get. destruct (file_at p files); reflexivity.
Qed.

Lemma build_file_map_elem_of p f files :
  (p, f) ∈ build_file_map files <-> file_at p files = Some f.
Proof.
  rewrite <- build_file_map_get. split.
  - apply elem_of_map_get, build_file_map_keys_NoDup.
  - apply map_get_elem_of.
Qed.

Lemma fold_added_changed baseFileMap currentFileMap added changed :
  fold_left (added_changed_step baseFileMap) currentFileMap (added, changed) =
  (added ++ omap (added_entry baseFileMap) currentFileMap,
   changed ++ omap (changed_entry baseFileMap) currentFileMap).
Proof.
  revert added changed.
  induction currentFileMap as [|[p f] m IH]; intros added changed; simpl.
  - rewrite !app_nil_r. reflexivity.
  - unfold added_entry, changed_entry, rates_moved. simpl.
    destruct (map_get p baseFileMap) as [bf|]; simpl.
    + destruct (strict_ne _ zero || strict_ne _ zero); rewrite IH; simpl.
      * rewrite <- app_assoc. reflexivity.
      * reflexivity.
    + rewrite IH, <- app_assoc. reflexivity.
Qed.

Lemma fold_removed currentFileMap baseFileMap removed :
  fold_left (removed_step currentFileMap) baseFileMap removed =
  removed ++ omap (removed_entry currentFileMap) baseFileMap.
Proof.
  revert removed. induction baseFileMap as [|[p f] m IH]; intros removed; simpl.
  - rewrite app_nil_r. reflexivity.
  - unfold removed_entry. simpl. destruct (map_has p currentFileMap); rewrite IH; simpl.
    + reflexivity.
    + rewrite <- app_assoc. reflexivity.
Qed.

Lemma compareResults_filesAdded base current options :
  CoverageComparison.filesAdded (compareResults base current options) =
  omap (added_entry (build_file_map (AggregatedCoverageResults.files base)))
       (build_file_map (AggregatedCoverageResults.files current)).
Proof. unfold compareResults. rewrite fold_added_changed. reflexivity. Qed.

Lemma compareResults_filesChanged base current options :
  CoverageComparison.filesChanged (compareResults base current options) =
  omap (changed_entry (build_file_map (AggregatedCoverageResults.files base)))
       (build_file_map (AggregatedCoverageResults.files current)).
Proof. unfold compareResults. rewrite fold_added_changed. reflexivity. Qed.

Lemma compareResults_filesRemoved base current options :
  CoverageComparison.filesRemoved (compareResults base current options) =
  omap (removed_entry (build_file_map (AggregatedCoverageResults.files current)))
       (build_file_map (AggregatedCoverageResults.files base)).
Proof. unfold compareResults. rewrite fold_added_changed, fold_removed. reflexivity. Qed.

Lemma compareResults_deltaLineRate base current options :
  CoverageComparison.deltaLineRate (compareResults base current options) =
  round2 (sub (AggregatedCoverageResults.lineRate current)
              (AggregatedCoverageResults.lineRate base)).
Proof. unfold compareResults. rewrite fold_added_changed. reflexivity. Qed.

Lemma compareResults_deltaBranchRate base current options :
  CoverageComparison.deltaBranchRate (compareResults base current options) =
  round2 (sub (AggregatedCoverageResults.branchRate current)
              (AggregatedCoverageResults.branchRate base)).
Proof. unfold compareResults. rewrite fold_added_changed. reflexivity. Qed.

Lemma compareResults_improvement base current options :
  let c := compareResults base current options in
  CoverageComparison.improvement c =
  gt (CoverageComparison.deltaLineRate c) zero
  || (strict_eq (CoverageComparison.deltaLineRate c) zero
      && gt (CoverageComparison.deltaBranchRate c) zero).
Proof. cbv zeta. unfold compareResults. rewrite fold_added_changed. reflexivity. Qed.

Lemma file_at_Some p f files :
  file_at p files = Some f -> FileCoverage.path f = p /\ f ∈ files.
Proof.
  unfold file_at. intros Hlast. apply last_Some_elem_of in Hlast.
  apply list_elem_of_filter in Hlast. exact Hlast.
Qed.

Lemma omap_ext_all {A B} (f g : A -> option B) (l : list A) :
  (forall x, f x = g x) -> omap f l = omap g l.
Proof.
  intros Hfg. induction l as [|x l IH]; [reflexivity|].
  cbn [omap list_omap]. rewrite Hfg. destruct (g x); [f_equal|]; exact IH.
Qed.

Lemma added_entry_removed_entry m e : added_entry m e = removed_entry m e.
Proof.
  unfold added_entry, removed_entry, map_has. destruct (map_get e.1 m); reflexivity.
Qed.

Lemma in_filesChanged_iff base current options p bf cf :
  file_at p (AggregatedCoverageResults.files base) = Some bf ->
  file_at p (AggregatedCoverageResults.files current) = Some cf ->
  in_filesChanged p (compareResults base current options)
  <-> rates_moved (compareFiles bf cf) = true.
Proof.
  intros Hbf Hcf. unfold in_filesChanged. rewrite compareResults_filesChanged. split.
  - intros (fc & Hin & Hpath).
    apply list_elem_of_omap in Hin as ([k f] & He & Hce).
    unfold changed_entry in Hce. simpl in Hce.
    pose proof (build_file_map_keyed _ _ He) as Hk. simpl in Hk.
    rewrite build_file_map_get in Hce.
    destruct (file_at k (AggregatedCoverageResults.files base)) as [b|] eqn:Hb;
      [|discriminate].
    destruct (rates_moved (compareFiles b f)) eqn:Hmoved; [|discriminate].
    injection Hce as <-. simpl in Hpath.
    assert (k = p) as -> by congruence.
    apply build_file_map_elem_of in He.
    assert (f = cf) as -> by congruence.
    assert (b = bf) as -> by congruence.
    exact Hmoved.
  - intros Hmoved. exists (compareFiles bf cf). split.
    + apply list_elem_of_omap. exists (p, cf). split.
      * apply build_file_map_elem_of, Hcf.
      * unfold changed_entry. simpl. rewrite build_file_map_get, Hbf, Hmoved. reflexivity.
    + simpl. apply (file_at_Some _ _ _ Hcf).
Qed.

(** ** The comparator *)


(** C6.  A file present in both summaries is in the changed set exactly
    when its line-rate delta or its branch-rate delta, rounded to two
    decimals, is not zero.  With rates that are equal ([===]) on both
    sides and are not infinite it is left out, and nothing is asked of
    its statement or conditional counts. *)
Theorem filesChanged_iff_rates_moved
    (base current : AggregatedCoverageResults.t) (options : option CompareOptions.t)
    (p : jsstring) (bf cf : FileCoverage.t) :
  file_at p (AggregatedCoverageResults.files base) = Some bf ->
  file_at p (AggregatedCoverageResults.files current) = Some cf ->
  let c := compareResults base current options in
  (in_filesChanged p c
   <-> strict_ne (round2 (sub (FileCoverage.lineRate cf) (FileCoverage.lineRate bf)))
         zero = true
       \/ strict_ne (round2 (sub (FileCoverage.branchRate cf) (FileCoverage.branchRate bf)))
            zero = true)
  /\ (strict_eq (FileCoverage.lineRate bf) (FileCoverage.lineRate cf) = true ->
      strict_eq (FileCoverage.branchRate bf) (FileCoverage.branchRate cf) = true ->
      is_finite (FileCoverage.lineRate cf) = true ->
      is_finite (FileCoverage.branchRate cf) = true ->
      ~ in_filesChanged p c).
Proof.
  intros Hbf Hcf c. subst c.
  rewrite (in_filesChanged_iff _ _ _ _ _ _ Hbf Hcf).
  unfold rates_moved. simpl. split.
  - apply orb_true_iff.
  - intros Hl Hb Hfl Hfb.
    rewrite (strict_eq_sub _ _ Hl Hfl), (strict_eq_sub _ _ Hb Hfb). discriminate.
Qed.

(** [src/a.ts] goes from 1 of 2 statements to 2 of 4: the counts differ,
    the rate is 50 on both sides, and the file is not in the changed
    set. *)
Lemma filesChanged_iff_rates_moved_witness :
  file_at (lit "src/a.ts") (AggregatedCoverageResults.files sample_base)
  = Some (sample_file "src/a.ts" 1 2)
  /\ file_at (lit "src/a.ts") (AggregatedCoverageResults.files sample_current)
     = Some (sample_file "src/a.ts" 2 4)
  /\ FileCoverage.statements (sample_file "src/a.ts" 1 2)
     <> FileCoverage.statements (sample_file "src/a.ts" 2 4)
  /\ ~ in_filesChanged (lit "src/a.ts") (compareResults sample_base sample_current None).
Proof.
  split; [vm_compute; reflexivity|].
  split; [vm_compute; reflexivity|].
  split; [vm_compute; discriminate|].
  apply (filesChanged_iff_rates_moved sample_base sample_current None (lit "src/a.ts")
           (sample_file "src/a.ts" 1 2) (sample_file "src/a.ts" 2 4));
    vm_compute; reflexivity.
Defined.

(** C7.  Comparing two summaries in one order and in the other gives
    scalar deltas that are negations of each other, and the files added
    in one direction are the files removed in the other, even in the same
    order. *)
Theorem compareResults_swap
    (A B : AggregatedCoverageResults.t) (optionsAB optionsBA : option CompareOptions.t) :
  let ab := compareResults A B optionsAB in
  let ba := compareResults B A optionsBA in
  negation_of (CoverageComparison.deltaLineRate ab) (CoverageComparison.deltaLineRate ba)
  /\ negation_of (CoverageComparison.deltaBranchRate ab)
       (CoverageComparison.deltaBranchRate ba)
  /\ negation_of (CoverageComparison.deltaTotalStatements ab)
       (CoverageComparison.deltaTotalStatements ba)
  /\ negation_of (CoverageComparison.deltaCoveredStatements ab)
       (CoverageComparison.deltaCoveredStatements ba)
  /\ negation_of (CoverageComparison.deltaTotalConditionals ab)
       (CoverageComparison.deltaTotalConditionals ba)
  /\ negation_of (CoverageComparison.deltaCoveredConditionals ab)
       (CoverageComparison.deltaCoveredConditionals ba)
  /\ negation_of (CoverageComparison.deltaTotalMethods ab)
       (CoverageComparison.deltaTotalMethods ba)
  /\ negation_of (CoverageComparison.deltaCoveredMethods ab)
       (CoverageComparison.deltaCoveredMethods ba)
  /\ negation_of_opt (CoverageComparison.deltaFiles ab) (CoverageComparison.deltaFiles ba)
  /\ negation_of_opt (CoverageComparison.deltaLines ab) (CoverageComparison.deltaLines ba)
  /\ negation_of_opt (CoverageComparison.deltaBranches ab)
       (CoverageComparison.deltaBranches ba)
  /\ negation_of_opt (CoverageComparison.deltaHits ab) (CoverageComparison.deltaHits ba)
  /\ negation_of_opt (CoverageComparison.deltaMisses ab) (CoverageComparison.deltaMisses ba)
  /\ negation_of_opt (CoverageComparison.deltaPartials ab)
       (CoverageComparison.deltaPartials ba)
  /\ CoverageComparison.filesAdded ab = CoverageComparison.filesRemoved ba
  /\ CoverageComparison.filesRemoved ab = CoverageComparison.filesAdded ba.
Proof.
  cbv zeta.
  rewrite !compareResults_filesAdded, !compareResults_filesRemoved.
  unfold compareResults. rewrite !fold_added_changed. cbn -[sub round2 build_file_map].
  repeat split; try apply round2_sub_negation; try apply sub_negation.
  - apply omap_ext_all, added_entry_removed_entry.
  - symmetry. apply omap_ext_all, added_entry_removed_entry.
Qed.

(** C10.  A comparison looks a path up in maps that hold, for each path,
    the last file of the summary with that path.  The added, removed and
    changed sets therefore hold one entry per path at most, each built
    from those last files, while aggregation keeps every file of every
    document, repeated paths included. *)
Theorem compareResults_one_entry_per_path
    (base current : AggregatedCoverageResults.t) (options : option CompareOptions.t) :
  let c := compareResults base current options in
  (forall p files, map_get p (build_file_map files) = file_at p files)
  /\ NoDup (FileCoverage.path <$> CoverageComparison.filesAdded c)
  /\ NoDup (FileCoverage.path <$> CoverageComparison.filesRemoved c)
  /\ NoDup (FileComparison.path <$> CoverageComparison.filesChanged c)
  /\ (forall f, f ∈ CoverageComparison.filesAdded c ->
        file_at (FileCoverage.path f) (AggregatedCoverageResults.files current) = Some f
        /\ file_at (FileCoverage.path f) (AggregatedCoverageResults.files base) = None)
  /\ (forall f, f ∈ CoverageComparison.filesRemoved c ->
        file_at (FileCoverage.path f) (AggregatedCoverageResults.files base) = Some f
        /\ file_at (FileCoverage.path f) (AggregatedCoverageResults.files current) = None)
  /\ (forall fc, fc ∈ CoverageComparison.filesChanged c ->
        exists bf cf,
          file_at (FileComparison.path fc) (AggregatedCoverageResults.files base) = Some bf
          /\ file_at (FileComparison.path fc) (AggregatedCoverageResults.files current)
             = Some cf
          /\ fc = compareFiles bf cf)
  /\ (forall results,
        AggregatedCoverageResults.files (aggregateResults results)
        = concat (CoverageResults.files <$> results)).
Proof.
  cbv zeta.
  rewrite compareResults_filesAdded, compareResults_filesRemoved,
    compareResults_filesChanged.
  split; [intros p files; apply build_file_map_get|].
  split; [|split; [|split; [|split; [|split; [|split]]]]].
  - apply (omap_keys_NoDup _ _ id); [apply _|apply build_file_map_keys_NoDup|].
    intros [k f] y He. unfold added_entry. simpl.
    destruct (map_get k _); [discriminate|]. intros [= <-].
    apply (build_file_map_keyed _ _ He).
  - apply (omap_keys_NoDup _ _ id); [apply _|apply build_file_map_keys_NoDup|].
    intros [k f] y He. unfold removed_entry. simpl.
    destruct (map_has k _); [discriminate|]. intros [= <-].
    apply (build_file_map_keyed _ _ He).
  - apply (omap_keys_NoDup _ _ id); [apply _|apply build_file_map_keys_NoDup|].
    intros [k f] y He. unfold changed_entry. simpl.
    destruct (map_get k _); [|discriminate].
    destruct (rates_moved _); [|discriminate]. intros [= <-].
    apply (build_file_map_keyed _ _ He).
  - intros f Hin. apply list_elem_of_omap in Hin as ([k g] & He & Hadd).
    unfold added_entry in Hadd. simpl in Hadd.
    destruct (map_get k _) eqn:Hget; [discriminate|]. injection Hadd as ->.
    pose proof (build_file_map_keyed _ _ He) as Hk. simpl in Hk. subst k.
    rewrite build_file_map_get in Hget.
    split; [apply build_file_map_elem_of, He|exact Hget].
  - intros f Hin. apply list_elem_of_omap in Hin as ([k g] & He & Hrem).
    unfold removed_entry, map_has in Hrem. simpl in Hrem.
    destruct (map_get k _) eqn:Hget; [discriminate|]. injection Hrem as ->.
    pose proof (build_file_map_keyed _ _ He) as Hk. simpl in Hk. subst k.
    rewrite build_file_map_get in Hget.
    split; [apply build_file_map_elem_of, He|exact Hget].
  - intros fc Hin. apply list_elem_of_omap in Hin as ([k g] & He & Hch).
    unfold changed_entry in Hch. simpl in Hch.
    destruct (map_get k _) as [bf|] eqn:Hget; [|discriminate].
    destruct (rates_moved _); [|discriminate]. injection Hch as <-.
    pose proof (build_file_map_keyed _ _ He) as Hk. simpl in Hk. subst k.
    rewrite build_file_map_get in Hget.
    exists bf, g. simpl. split; [exact Hget|].
    split; [apply build_file_map_elem_of, He|reflexivity].
  - intros results. unfold aggregateResults. rewrite fold_aggregate_step. reflexivity.
Qed.

(** [src/a.ts] is listed twice in the current summary: the comparison
    reports it once, with the counters of its second entry. *)
Lemma compareResults_one_entry_per_path_witness :
  sample_file "src/a.ts" 3 4
    ∈ CoverageComparison.filesAdded (compareResults empty_summary sample_repeated None)
  /\ file_at (lit "src/a.ts") (AggregatedCoverageResults.files sample_repeated)
     = Some (sample_file "src/a.ts" 3 4)
  /\ length (CoverageComparison.filesAdded (compareResults empty_summary sample_repeated None))
     = 2%nat.
Proof.
  assert (Hin : sample_file "src/a.ts" 3 4
                  ∈ CoverageComparison.filesAdded
                      (compareResults empty_summary sample_repeated None)).
  { vm_compute. apply list_elem_of_here. }
  split; [exact Hin|].
  split; [|vm_compute; reflexivity].
  destruct (compareResults_one_entry_per_path empty_summary sample_repeated None)
    as (_ & _ & _ & _ & Hadded & _).
  apply (Hadded _ Hin).
Defined.

(** ** Effects *)

Section Frames.
Context {W : Type} (R : relation (state W)) `{!Frame R}.

Lemma respects_ret {A} (a : A) : respects R (ret a).
Proof. intros st r st' [= <- <-]. apply frame_refl. Qed.

Lemma respects_pure_call {A} (x : thrown + A) : respects R (pure_call x).
Proof. intros st r st' [= <- <-]. apply frame_refl. Qed.

Lemma respects_bind {A B} (m : M W A) (k : A -> M W B) :
  respects R m -> (forall a, respects R (k a)) -> respects R (bind m k).
Proof.
  intros Hm Hk st r st'. unfold bind.
  destruct (m st) as [[e|a] st1] eqn:Hrun.
  - intros [= <- <-]. apply (Hm _ _ _ Hrun).
  - intros Hk'. eapply frame_trans; [apply (Hm _ _ _ Hrun)|apply (Hk _ _ _ _ Hk')].
Qed.

Lemma respects_try_catch {A} (body : M W A) (handler : thrown -> M W A) :
  respects R body -> (forall e, respects R (handler e)) -> respects R (try_catch body handler).
Proof.
  intros Hb Hh st r st'. unfold try_catch.
  destruct (body st) as [[e|a] st1] eqn:Hrun.
  - intros Hh'. eapply frame_trans; [apply (Hb _ _ _ Hrun)|apply (Hh _ _ _ _ Hh')].
  - intros [= <- <-]. apply (Hb _ _ _ Hrun).
Qed.

Lemma respects_call {A} (f : W -> (thrown + A) * W) : respects R (call f).
Proof.
  intros st r st'. unfold call. destruct (f (world st)) as [r' w].
  intros [= <- <-]. apply frame_world.
Qed.

Lemma respects_bind_call {A B} (f : W -> (thrown + A) * W) (k : A -> M W B) :
  (forall w a w', f w = (inr a, w') -> respects R (k a)) -> respects R (bind (call f) k).
Proof.
  intros Hk st r st'. unfold bind, call.
  destruct (f (world st)) as [[e|a] w] eqn:Hf.
  - intros [= <- <-]. apply frame_world.
  - intros Hk'. eapply frame_trans; [apply frame_world|apply (Hk _ _ _ Hf _ _ _ Hk')].
Qed.

Lemma respects_observe {A} (f : W -> A) : respects R (observe f).
Proof. intros st r st' [= <- <-]. apply frame_refl. Qed.

Lemma respects_core_info msg : respects R (core_info msg).
Proof. intros st r st' [= <- <-]. apply frame_log. Qed.

Lemma respects_core_warning msg : respects R (core_warning msg).
Proof. intros st r st' [= <- <-]. apply frame_log. Qed.

Lemma respects_deref l : respects R (deref l).
Proof.
  intros st r st'. unfold deref. destruct (heap st !! l); intros [= <- <-]; apply frame_refl.
Qed.

End Frames.

#[export] Instance same_heap_frame {W} : Frame (@same_heap W).
Proof. split; unfold same_heap; intros; simpl; congruence. Qed.

#[export] Instance emitted_frame {W} (P : event -> Prop) : Frame (@emitted W P).
Proof.
  split; unfold emitted.
  - intros st. exists []. rewrite app_nil_r. split; [reflexivity|constructor].
  - intros a b c (e1 & H1 & F1) (e2 & H2 & F2). exists (e1 ++ e2).
    rewrite H2, H1, app_assoc. split; [reflexivity|]. apply Forall_app. split; assumption.
  - intros st w. exists []. simpl. rewrite app_nil_r. split; [reflexivity|constructor].
  - intros st l. exists []. simpl. rewrite app_nil_r. split; [reflexivity|constructor].
Qed.

Lemma same_heap_sent {W} (ev : event) : respects (@same_heap W) (sent ev).
Proof. intros st r st' [= <- <-]. reflexivity. Qed.

Lemma emitted_sent {W} (P : event -> Prop) (ev : event) :
  P ev -> respects (@emitted W P) (sent ev).
Proof.
  intros HP st r st' [= <- <-]. exists [ev]. split; [reflexivity|].
  constructor; [exact HP|constructor].
Qed.

Lemma returns_normally_try_catch {W A} (body : M W A) (handler : thrown -> M W A) :
  (forall e, returns_normally (handler e)) -> returns_normally (try_catch body handler).
Proof.
  intros Hh st. unfold try_catch. destruct (body st) as [[e|a] st1].
  - apply Hh.
  - eauto.
Qed.

(** One step of a frame proof, by the shape of the computation. *)
Ltac frame_step :=
  first
    [ lazymatch goal with |- Frame _ => apply _ end
    | apply respects_ret
    | apply respects_pure_call
    | apply respects_call
    | apply respects_observe
    | apply respects_core_info
    | apply respects_core_warning
    | apply respects_deref
    | apply same_heap_sent
    | apply respects_try_catch; [..|intros ?]
    | apply respects_bind; [..|intros ?] ].

Section UploadFacts.
Context {W : Type} `{Platform W}.

Lemma uploadCoverageResults_try_same_heap results branchName flags name :
  respects same_heap (uploadCoverageResults_try results branchName flags name).
Proof.
  unfold uploadCoverageResults_try.
  repeat frame_step.
  destruct flags as [[|]|]; repeat frame_step.
Qed.

Lemma uploadResults_try_same_heap results branchName name :
  respects same_heap (uploadResults_try results branchName name).
Proof. unfold uploadResults_try. repeat frame_step. Qed.

End UploadFacts.

Section UploadProperties.
Context {W : Type} `{Platform W}.

Lemma swallows_failure_intro (attempt : M W unit) prefix results :
  respects same_heap attempt ->
  swallows_failure attempt
    (try_catch attempt (fun error => core_warning (prefix ++ error_message error)))
    prefix results.
Proof.
  intros Hheap st.
  assert (Hrun : exists st',
             try_catch attempt (fun error => core_warning (prefix ++ error_message error)) st
             = (inr tt, st')
             /\ heap st' = heap st
             /\ (forall e st1,
                   attempt st = (inl e, st1) ->
                   world st' = world st1 /\ events st' = events st1
                   /\ log st' = log st1 ++ [LogWarning (prefix ++ error_message e)])).
  { unfold try_catch. destruct (attempt st) as [[e|[]] st1] eqn:Hrun.
    - eexists. split; [reflexivity|]. split; [apply (Hheap _ _ _ Hrun)|].
      intros e' st1' [= <- <-]. simpl. auto.
    - eexists. split; [reflexivity|]. split; [apply (Hheap _ _ _ Hrun)|].
      intros e' st1' [=]. }
  destruct Hrun as (st' & Hup & Hh & Hlog). exists st'.
  split; [exact Hup|]. split; [exact Hh|]. split; [exact Hlog|].
  intros obj comparison Hobj. unfold bind. rewrite Hup.
  unfold attach_comparison, assign_prop.
  destruct (heap st' !! results) as [obj'|] eqn:Hobj'; rewrite Hh, Hobj in Hobj';
    [|discriminate].
  injection Hobj' as <-.
  eexists. split; [reflexivity|]. simpl. rewrite Hh. reflexivity.
Qed.

(** C4.  Both uploads catch every failure of their attempt: they return
    to the pipeline without throwing, the warning ["Failed to upload ...
    artifact: <message>"] is the last line logged, the results object of
    the caller is not written to, and the comparison the pipeline
    attaches afterwards is set on that same object. *)
Theorem upload_failure_is_swallowed
    (results : positive) (branchName : jsstring) (flags : option (list jsstring))
    (name : option jsstring) :
  swallows_failure (uploadCoverageResults_try results branchName flags name)
    (uploadCoverageResults results branchName flags name)
    (lit "Failed to upload coverage artifact: ") results
  /\ swallows_failure (uploadResults_try results branchName name)
       (uploadResults results branchName name)
       (lit "Failed to upload test artifact: ") results.
Proof.
  split.
  - apply swallows_failure_intro, uploadCoverageResults_try_same_heap.
  - apply swallows_failure_intro, uploadResults_try_same_heap.
Qed.

End UploadProperties.

(** The artifact store is down: the attempt throws ["network error"],
    the upload returns, warns, and leaves the object as it was. *)
Lemma upload_failure_is_swallowed_witness :
  let p := Mock.platform outage in
  let st := Mock.start sample_heap in
  let attempt := uploadCoverageResults_try 1%positive (lit "main") None None st in
  let st' := (uploadCoverageResults 1%positive (lit "main") None None st).2 in
  attempt.1 = inl (ErrorObj (lit "network error"))
  /\ heap st' !! 1%positive = Some sample_object
  /\ last (log st')
     = Some (LogWarning (lit "Failed to upload coverage artifact: network error")).
Proof.
  cbv zeta. split; [vm_compute; reflexivity|].
  destruct (proj1 (upload_failure_is_swallowed (H := Mock.platform outage)
                     1%positive (lit "main") None None) (Mock.start sample_heap))
    as (st' & Hup & Hheap & Hlog & _).
  rewrite Hup. simpl. split.
  - rewrite Hheap. reflexivity.
  - destruct (uploadCoverageResults_try (H := Mock.platform outage)
                1%positive (lit "main") None None (Mock.start sample_heap))
      as [r st1] eqn:Hattempt.
    assert (Hr : (uploadCoverageResults_try (H := Mock.platform outage)
                    1%positive (lit "main") None None (Mock.start sample_heap)).1
                 = inl (ErrorObj (lit "network error"))) by (vm_compute; reflexivity).
    rewrite Hattempt in Hr. simpl in Hr. subst r. destruct (Hlog _ _ eq_refl) as (_ & _ & ->).
    rewrite last_snoc. reflexivity.
Defined.

(** ** The payload of an upload *)



Lemma new_events_app {W} (st st' : state W) evs :
  events st' = events st ++ evs -> new_events st st' = evs.
Proof. intros Hev. unfold new_events. rewrite Hev. apply drop_app_length. Qed.

(** The events of an upload, read off its final state. *)
Ltac upload_events :=
  match goal with
  | |- context [new_events ?st ?st'] =>
      first
        [ rewrite (new_events_app st st' []) by (simpl; rewrite app_nil_r; reflexivity)
        | rewrite (new_events_app st st' [_]) by reflexivity
        | rewrite (new_events_app st st' [_; _]) by (simpl; rewrite <- app_assoc; reflexivity) ]
  end.


Section UploadPayload.
Context {W : Type} `{Platform W}.



End UploadPayload.


(** ** Retrieval of the base summary *)

Lemma set_spread_from {A} `{EqDecision A} (xs acc : list A) :
  NoDup (acc ++ xs) ->
  fold_left (fun acc x => if decide (x ∈ acc) then acc else acc ++ [x]) xs acc = acc ++ xs.
Proof.
  revert acc. induction xs as [|x xs IH]; intros acc Hnd; simpl.
  - rewrite app_nil_r. reflexivity.
  - destruct (decide (x ∈ acc)) as [Hin|_].
    + apply NoDup_app in Hnd as (_ & Hdisj & _).
      exfalso. apply (Hdisj x Hin), list_elem_of_here.
    + rewrite IH; rewrite <- app_assoc; [reflexivity|exact Hnd].
Qed.

Lemma set_spread_NoDup {A} `{EqDecision A} (xs : list A) : NoDup xs -> set_spread xs = xs.
Proof. intros Hnd. unfold set_spread. apply (set_spread_from xs []), Hnd. Qed.

Section Selection.
Context {W : Type} `{Platform W}.

Lemma find_artifact_Some n artifacts a :
  find_artifact n artifacts = Some a ->
  a ∈ artifacts /\ Artifact.name a = n /\ Artifact.expired a = false.
Proof.
  unfold find_artifact. induction artifacts as [|a' artifacts IH]; simpl; [discriminate|].
  destruct (bool_decide (Artifact.name a' = n) && negb (Artifact.expired a')) eqn:Hok.
  - intros [= <-]. apply andb_true_iff in Hok as [Hn He].
    apply bool_decide_eq_true in Hn. apply negb_true_iff in He.
    split; [apply list_elem_of_here|]. split; assumption.
  - intros Hfind. destruct (IH Hfind) as (Hin & Hn & He).
    split; [apply list_elem_of_further, Hin|]. split; assumption.
Qed.

Lemma find_artifact_None n artifacts :
  find_artifact n artifacts = None <->
  forall a, a ∈ artifacts -> Artifact.name a = n -> Artifact.expired a = true.
Proof.
  unfold find_artifact. induction artifacts as [|a' artifacts IH]; simpl.
  - split; [|reflexivity]. intros _ a Hin. apply elem_of_nil in Hin. contradiction.
  - destruct (bool_decide (Artifact.name a' = n) && negb (Artifact.expired a')) eqn:Hok.
    + split; [discriminate|]. intros Hall. exfalso.
      apply andb_true_iff in Hok as [Hn He].
      apply bool_decide_eq_true in Hn. apply negb_true_iff in He.
      rewrite (Hall a' (list_elem_of_here _ _) Hn) in He. discriminate.
    + rewrite IH. split.
      * intros Hall a Hin Hn. apply elem_of_cons in Hin as [->|Hin]; [|apply Hall; assumption].
        apply andb_false_iff in Hok as [Hne|He].
        -- apply bool_decide_eq_false in Hne. contradiction.
        -- apply negb_false_iff in He. exact He.
      * intros Hall a Hin. apply Hall, list_elem_of_further, Hin.
Qed.

Lemma first_match_Some names artifacts n a :
  first_match names artifacts = Some (n, a) ->
  a ∈ artifacts /\ Artifact.name a = n /\ Artifact.expired a = false
  /\ exists i, names !! i = Some n
       /\ forall j n' a', (j < i)%nat -> names !! j = Some n' -> a' ∈ artifacts ->
                          Artifact.name a' = n' -> Artifact.expired a' = true.
Proof.
  induction names as [|n0 names IH]; simpl; [discriminate|].
  destruct (find_artifact n0 artifacts) as [a0|] eqn:Hfind.
  - intros [= <- <-]. destruct (find_artifact_Some _ _ _ Hfind) as (Hin & Hn & He).
    repeat (split; [assumption|]). exists 0%nat. split; [reflexivity|].
    intros j n' a' Hj. lia.
  - intros Hrest. destruct (IH Hrest) as (Hin & Hn & He & i & Hi & Hbefore).
    repeat (split; [assumption|]). exists (S i). split; [exact Hi|].
    intros [|j] n' a' Hj Hlook Hin' Hn'.
    + injection Hlook as <-. apply (proj1 (find_artifact_None _ _) Hfind a' Hin' Hn').
    + apply (Hbefore j n' a'); [lia|assumption..].
Qed.

Lemma first_match_None names artifacts :
  first_match names artifacts = None <->
  forall a, a ∈ artifacts -> Artifact.name a ∈ names -> Artifact.expired a = true.
Proof.
  induction names as [|n0 names IH]; simpl.
  - split; [|reflexivity]. intros _ a _ Hin. apply elem_of_nil in Hin. contradiction.
  - destruct (find_artifact n0 artifacts) as [a0|] eqn:Hfind.
    + split; [discriminate|]. intros Hall. exfalso.
      destruct (find_artifact_Some _ _ _ Hfind) as (Hin & Hn & He).
      rewrite (Hall a0 Hin) in He; [discriminate|]. rewrite Hn. apply list_elem_of_here.
    + rewrite IH. split.
      * intros Hall a Hin Hn. apply elem_of_cons in Hn as [Hn|Hn]; [|apply Hall; assumption].
        apply (proj1 (find_artifact_None _ _) Hfind a Hin Hn).
      * intros Hall a Hin Hn. apply Hall; [assumption|]. apply list_elem_of_further, Hn.
Qed.

End Selection.

Ltac frame_step ::=
  first
    [ lazymatch goal with |- Frame _ => apply _ end
    | apply respects_ret
    | apply respects_pure_call
    | apply respects_call
    | apply respects_observe
    | apply respects_core_info
    | apply respects_core_warning
    | apply respects_deref
    | apply same_heap_sent
    | apply emitted_sent; solve [simpl; auto]
    | apply respects_try_catch; [..|intros ?]
    | apply respects_bind; [..|intros ?] ].

Section RetrievalFacts.
Context {W : Type} `{Platform W}.
Implicit Types (self : ArtifactManager.t) (st : state W).

Lemma extractAndRead_emitted (P : event -> Prop) file what zipPath extractDir :
  respects (emitted P) (extractAndRead file what zipPath extractDir).
Proof.
  unfold extractAndRead.
  apply respects_try_catch; [apply _| |intros e; repeat frame_step].
  apply respects_bind; [apply _|apply respects_call; apply _|intros _].
  apply respects_bind; [apply _|apply respects_observe; apply _|intros present].
  destruct (negb present); repeat frame_step.
Qed.

Lemma fetch_artifact_emitted (P : event -> Prop) self tmp_prefix extract artifact :
  (forall zipPath tmpDir, respects (emitted P) (extract zipPath tmpDir)) ->
  P (EvDownload (Artifact.id artifact)) ->
  (forall path data, P (EvWriteFile path data)) ->
  respects (emitted P) (fetch_artifact self tmp_prefix extract artifact).
Proof.
  intros Hextract Hdownload Hwrite. unfold fetch_artifact.
  repeat first [ apply Hextract | frame_step ].
Qed.

Lemma scan_runs_emitted (P : event -> Prop) self what tmp_prefix extract names runs :
  (forall zipPath tmpDir, respects (emitted P) (extract zipPath tmpDir)) ->
  (forall run_id, P (EvListArtifacts run_id)) ->
  (forall path data, P (EvWriteFile path data)) ->
  (forall run_id w artifacts w' n a,
      octokit_listWorkflowRunArtifacts (ArtifactManager.owner self)
        (ArtifactManager.repo self) run_id w = (inr artifacts, w') ->
      first_match names artifacts = Some (n, a) ->
      P (EvDownload (Artifact.id a))) ->
  respects (emitted P) (scan_runs self what tmp_prefix extract names runs).
Proof.
  intros Hextract Hlist Hwrite Hdownload.
  induction runs as [|run rest IH]; simpl.
  - repeat frame_step.
  - apply respects_bind; [apply _|apply emitted_sent, Hlist|intros _].
    apply respects_bind_call; [apply _|]. intros w artifacts w' Hcall.
    destruct (first_match names artifacts) as [[n a]|] eqn:Hmatch; [|exact IH].
    apply respects_bind; [apply _|apply respects_core_info; apply _|intros _].
    apply fetch_artifact_emitted; [exact Hextract| |exact Hwrite].
    apply (Hdownload _ _ _ _ _ _ Hcall Hmatch).
Qed.

Lemma null_or_throws_bind {A B} (m : M W A) (k : A -> M W (option B)) :
  (forall a, null_or_throws (k a)) -> null_or_throws (bind m k).
Proof.
  intros Hk st. unfold bind. destruct (m st) as [[e|a] st1].
  - right. eauto.
  - apply Hk.
Qed.

Lemma null_or_throws_bind_call {A B} (f : W -> (thrown + A) * W) (k : A -> M W (option B)) :
  (forall w a w', f w = (inr a, w') -> null_or_throws (k a)) ->
  null_or_throws (bind (call f) k).
Proof.
  intros Hk st. unfold bind, call. destruct (f (world st)) as [[e|a] w'] eqn:Hf.
  - right. eauto.
  - apply (Hk _ _ _ Hf).
Qed.

Lemma null_or_throws_ret {A} : null_or_throws (ret (None : option A) : M W (option A)).
Proof. intros st. left. reflexivity. Qed.

Lemma try_catch_null {A} (body : M W (option A)) (handler : thrown -> M W (option A)) :
  null_or_throws body ->
  (forall e st, (handler e st).1 = inr None) ->
  forall st, (try_catch body handler st).1 = inr None.
Proof.
  intros Hbody Hh st. unfold try_catch.
  pose proof (Hbody st) as Hn.
  destruct (body st) as [[e'|a] st1]; simpl in Hn.
  - apply Hh.
  - destruct Hn as [Hn|[e He]]; [exact Hn|discriminate].
Qed.

Lemma downloadBaseCoverageResults_returns self baseBranch flags name :
  returns_normally (downloadBaseCoverageResults self baseBranch flags name).
Proof.
  apply returns_normally_try_catch. intros e st. eexists _, _.
  unfold bind, core_warning, ret. reflexivity.
Qed.

Lemma downloadBaseResults_returns self baseBranch name :
  returns_normally (downloadBaseResults self baseBranch name).
Proof.
  apply returns_normally_try_catch. intros e st. eexists _, _.
  unfold bind, core_warning, ret. reflexivity.
Qed.

End RetrievalFacts.

Section RetrievalProperties.
Context {W : Type} `{Platform W}.
Implicit Types (self : ArtifactManager.t) (st : state W).

Lemma scan_runs_downloads_selected self what tmp_prefix file kind names runs :
  respects (emitted (download_was_selected self names))
    (scan_runs self what tmp_prefix (extractAndRead file kind) names runs).
Proof.
  apply scan_runs_emitted.
  - intros zipPath tmpDir. apply extractAndRead_emitted.
  - intros run_id. exact I.
  - intros path data. exact I.
  - intros run_id w artifacts w' n a Hcall Hmatch. simpl.
    exists run_id, w, artifacts, w', n, a.
    repeat (split; [assumption || reflexivity|]).
    apply (first_match_Some _ _ _ _ Hmatch).
Qed.

Lemma downloadBaseCoverageResults_downloads_selected self baseBranch flags name :
  respects (emitted (download_was_selected self (coverage_artifact_names baseBranch flags name)))
    (downloadBaseCoverageResults self baseBranch flags name).
Proof.
  unfold downloadBaseCoverageResults, listWorkflowRunsForRepo. cbv zeta.
  apply respects_try_catch; [apply _| |intros e; repeat frame_step].
  apply respects_bind; [apply _|apply respects_core_info; apply _|intros _].
  apply respects_bind; [apply _|destruct flags as [[|]|]; repeat frame_step|intros _].
  apply respects_bind; [apply _|repeat frame_step|intros runs].
  destruct runs as [|run runs]; [repeat frame_step|].
  apply scan_runs_downloads_selected.
Qed.

Lemma downloadBaseResults_downloads_selected self baseBranch name :
  respects (emitted (download_was_selected self (test_artifact_names baseBranch name)))
    (downloadBaseResults self baseBranch name).
Proof.
  unfold downloadBaseResults, listWorkflowRunsForRepo. cbv zeta.
  apply respects_try_catch; [apply _| |intros e; repeat frame_step].
  apply respects_bind; [apply _|apply respects_core_info; apply _|intros _].
  apply respects_bind; [apply _|repeat frame_step|intros runs].
  destruct runs as [|run runs]; [repeat frame_step|].
  apply scan_runs_downloads_selected.
Qed.

Lemma emitted_new_events (P : event -> Prop) (m : M W (option jsval)) st ev :
  respects (emitted P) m -> ev ∈ new_events st (m st).2 -> P ev.
Proof.
  intros Hm Hin. destruct (m st) as [r st'] eqn:Hrun.
  destruct (Hm _ _ _ Hrun) as (evs & Hev & Hall). simpl in Hin.
  rewrite (new_events_app _ _ _ Hev) in Hin.
  apply (proj1 (Forall_forall _ _) Hall _ Hin).
Qed.

End RetrievalProperties.

(** ** Stepping into a try block *)

Section TryBlock.
Context {W : Type} `{Platform W}.
Implicit Types (self : ArtifactManager.t) (st : state W).

Lemma try_catch_core_info {A} msg (m : M W A) handler st :
  try_catch (bind (core_info msg) (fun _ => m)) handler st =
  try_catch m handler (mkState (world st) (heap st) (log st ++ [LogInfo msg]) (events st)).
Proof. reflexivity. Qed.

Lemma try_catch_ret {A} (m : M W A) handler st :
  try_catch (bind (ret tt) (fun _ => m)) handler st = try_catch m handler st.
Proof. reflexivity. Qed.

End TryBlock.

(** * Further properties of the code *)

(** ** Artifact names *)

Lemma sanitizeBranchName_clean_name s : clean_name (sanitizeBranchName s).
Proof.
  unfold clean_name, sanitizeBranchName. induction s as [|c s IH]; [constructor|].
  rewrite fmap_cons. constructor; [|exact IH].
  destruct (is_name_char c) eqn:Hc; [exact Hc|reflexivity].
Qed.

Lemma sanitizeBranchName_fixed s : sanitizeBranchName s = s <-> clean_name s.
Proof.
  unfold clean_name, sanitizeBranchName. induction s as [|c s IH].
  - split; [constructor|reflexivity].
  - rewrite fmap_cons. split.
    + intros [= Hc Hs]. constructor; [|apply IH, Hs].
      destruct (is_name_char c) eqn:Hn; [reflexivity|]. subst c. discriminate.
    + intros Hall. apply Forall_cons in Hall as [Hc Hs].
      rewrite Hc. f_equal. apply IH, Hs.
Qed.

(** X1.  [sanitizeBranchName] returns a string of the same length made
    only of letters, digits, hyphens and underscores; it changes nothing
    else than the other code units, so it is the identity exactly on the
    strings that are already of that form, and applying it twice is
    applying it once. *)
Theorem sanitizeBranchName_normalizes (s : jsstring) :
  clean_name (sanitizeBranchName s)
  /\ length (sanitizeBranchName s) = length s
  /\ (sanitizeBranchName s = s <-> clean_name s)
  /\ sanitizeBranchName (sanitizeBranchName s) = sanitizeBranchName s.
Proof.
  split; [apply sanitizeBranchName_clean_name|].
  split; [apply length_fmap|].
  split; [apply sanitizeBranchName_fixed|].
  apply sanitizeBranchName_fixed, sanitizeBranchName_clean_name.
Qed.

Lemma clean_name_app s t : clean_name s -> clean_name t -> clean_name (s ++ t).
Proof. intros Hs Ht. apply Forall_app. split; assumption. Qed.

Lemma clean_name_join_sanitized fs :
  clean_name (join (lit "-") (sanitizeBranchName <$> fs)).
Proof.
  induction fs as [|f fs IH]; [constructor|].
  rewrite fmap_cons. destruct fs as [|g fs].
  - apply sanitizeBranchName_clean_name.
  - change (join (lit "-") (sanitizeBranchName f :: (sanitizeBranchName <$> (g :: fs))))
      with (sanitizeBranchName f ++ lit "-"
            ++ join (lit "-") (sanitizeBranchName <$> (g :: fs))).
    apply clean_name_app; [apply sanitizeBranchName_clean_name|].
    apply clean_name_app; [repeat constructor|exact IH].
Qed.

Lemma with_qualifiers_clean_name base flags name :
  clean_name base -> clean_name (with_qualifiers base flags name).
Proof.
  intros Hbase. unfold with_qualifiers.
  assert (Hnamed : clean_name
            match name with
            | Some n => if str_truthy n then base ++ lit "-" ++ sanitizeBranchName n else base
            | None => base
            end).
  { destruct name as [n|]; [|exact Hbase]. destruct (str_truthy n); [|exact Hbase].
    apply clean_name_app; [exact Hbase|].
    apply clean_name_app; [repeat constructor|apply sanitizeBranchName_clean_name]. }
  destruct flags as [[|f fs]|]; try exact Hnamed.
  apply clean_name_app; [exact Hnamed|].
  apply clean_name_app; [repeat constructor|apply clean_name_join_sanitized].
Qed.

Section NamingFacts.
Context {W : Type} `{Platform W}.

Lemma getLegacyArtifactName_clean_name branchName type flags name :
  clean_name type -> clean_name (getLegacyArtifactName branchName type flags name).
Proof.
  intros Htype. unfold getLegacyArtifactName. apply with_qualifiers_clean_name.
  apply clean_name_app; [repeat constructor|].
  apply clean_name_app; [exact Htype|].
  apply clean_name_app; [repeat constructor|apply sanitizeBranchName_clean_name].
Qed.

Lemma getArtifactName_clean_name branchName type flags name :
  clean_name type -> clean_name (getArtifactName branchName type flags name).
Proof.
  intros Htype. unfold getArtifactName. apply with_qualifiers_clean_name.
  apply clean_name_app; [repeat constructor|].
  apply clean_name_app; [exact Htype|].
  apply clean_name_app; [repeat constructor|].
  apply clean_name_app; [apply sanitizeBranchName_clean_name|].
  destruct env_GITHUB_JOB as [job|]; [|constructor].
  destruct (str_truthy job); [|constructor].
  apply clean_name_app; [repeat constructor|apply sanitizeBranchName_clean_name].
Qed.

(** X2.  Whatever the branch, the job, the flags and the name are, the
    artifact names of both schemes, for test and for coverage results,
    are made only of letters, digits, hyphens and underscores. *)
Theorem artifact_names_are_clean
    (branchName : jsstring) (flags : option (list jsstring)) (name : option jsstring) :
  clean_name (getArtifactName branchName (lit "coverage") flags name)
  /\ clean_name (getArtifactName branchName (lit "test") flags name)
  /\ clean_name (getLegacyArtifactName branchName (lit "coverage") flags name)
  /\ clean_name (getLegacyArtifactName branchName (lit "test") flags name).
Proof.
  repeat split;
    first [apply getArtifactName_clean_name | apply getLegacyArtifactName_clean_name];
    repeat constructor.
Qed.

End NamingFacts.

Lemma spread_fold {A} `{EqDecision A} (xs acc : list A) :
  NoDup acc ->
  let r := fold_left (fun acc x => if decide (x ∈ acc) then acc else acc ++ [x]) xs acc in
  NoDup r /\ (forall x, x ∈ r <-> x ∈ acc \/ x ∈ xs) /\ acc `prefix_of` r.
Proof.
  revert acc. induction xs as [|x xs IH]; intros acc Hnd; simpl.
  - split; [exact Hnd|]. split; [|reflexivity].
    intros y. split; [auto|]. intros [Hy|Hy]; [exact Hy|].
    apply elem_of_nil in Hy. contradiction.
  - destruct (decide (x ∈ acc)) as [Hin|Hnin].
    + destruct (IH acc Hnd) as (Hr & Hmem & Hpre). split; [exact Hr|]. split; [|exact Hpre].
      intros y. rewrite Hmem, elem_of_cons. split; [tauto|].
      intros [Hy|[->|Hy]]; auto.
    + assert (Hnd' : NoDup (acc ++ [x])).
      { apply NoDup_app. split; [exact Hnd|]. split; [|apply NoDup_singleton].
        intros y Hy Hy'. apply list_elem_of_singleton in Hy' as ->. contradiction. }
      destruct (IH (acc ++ [x]) Hnd') as (Hr & Hmem & Hpre). split; [exact Hr|]. split.
      * intros y. rewrite Hmem, elem_of_app, list_elem_of_singleton, elem_of_cons. tauto.
      * etrans; [|exact Hpre]. apply prefix_app_r. reflexivity.
Qed.

Lemma set_spread_facts {A} `{EqDecision A} (x : A) (xs : list A) :
  head (set_spread (x :: xs)) = Some x
  /\ NoDup (set_spread (x :: xs))
  /\ (forall y, y ∈ set_spread (x :: xs) <-> y ∈ x :: xs)
  /\ (length (set_spread (x :: xs)) <= length (x :: xs))%nat.
Proof.
  unfold set_spread. cbn [fold_left].
  destruct (decide (x ∈ [])) as [Hin|_]; [apply elem_of_nil in Hin; contradiction|].
  cbn [app].
  destruct (spread_fold xs [x] (NoDup_singleton x)) as (Hnd & Hmem & Hpre).
  cbv zeta in Hnd, Hmem, Hpre.
  assert (Hall : forall y, y ∈ fold_left
                    (fun acc x0 => if decide (x0 ∈ acc) then acc else acc ++ [x0]) xs [x]
                  <-> y ∈ x :: xs).
  { intros y. rewrite Hmem, list_elem_of_singleton, elem_of_cons. reflexivity. }
  split; [|split; [exact Hnd|split; [exact Hall|]]].
  - destruct Hpre as [k ->]. reflexivity.
  - apply submseteq_length, NoDup_submseteq; [exact Hnd|]. intros y. apply Hall.
Qed.

Section CandidateFacts.
Context {W : Type} `{Platform W}.

Lemma job_unset_same_scheme branchName type flags name :
  str_or env_GITHUB_JOB [] = [] ->
  getArtifactName branchName type flags name
  = getLegacyArtifactName branchName type flags name.
Proof.
  unfold getArtifactName, getLegacyArtifactName, str_or.
  destruct env_GITHUB_JOB as [[|c job]|]; simpl; try discriminate;
    intros _; rewrite app_nil_r; reflexivity.
Qed.

(** X3.  The names a retrieval tries are never empty and hold no name
    twice; they are the four candidates and nothing else, and the first
    one is the name under which an upload for the same branch, flags and
    name stores its artifact.  When [GITHUB_JOB] is not set the two
    schemes give the same names and at most two names are tried. *)
Theorem candidates_begin_with_upload_name
    (branchName : jsstring) (flags : option (list jsstring)) (name : option jsstring) :
  let coverage := coverage_artifact_names branchName flags name in
  let tests := test_artifact_names branchName name in
  head coverage = Some (getArtifactName branchName (lit "coverage") flags name)
  /\ head tests = Some (getArtifactName branchName (lit "test") None name)
  /\ NoDup coverage /\ NoDup tests
  /\ (forall n, n ∈ coverage <-> n ∈ coverage_candidates branchName flags name)
  /\ (forall n, n ∈ tests <-> n ∈ test_candidates branchName name)
  /\ (length coverage <= 4)%nat /\ (length tests <= 4)%nat
  /\ (str_or env_GITHUB_JOB [] = [] ->
      (forall type fs n,
          getArtifactName branchName type fs n = getLegacyArtifactName branchName type fs n)
      /\ (length coverage <= 2)%nat /\ (length tests <= 2)%nat).
Proof.
  cbv zeta. unfold coverage_artifact_names, test_artifact_names. cbv zeta.
  destruct (set_spread_facts
              (getArtifactName branchName (lit "coverage") flags name)
              [getArtifactName branchName (lit "coverage") None None;
               getLegacyArtifactName branchName (lit "coverage") flags name;
               getLegacyArtifactName branchName (lit "coverage") None None])
    as (Hc1 & Hc2 & Hc3 & Hc4).
  destruct (set_spread_facts
              (getArtifactName branchName (lit "test") None name)
              [getArtifactName branchName (lit "test") None None;
               getLegacyArtifactName branchName (lit "test") None name;
               getLegacyArtifactName branchName (lit "test") None None])
    as (Ht1 & Ht2 & Ht3 & Ht4).
  repeat (split; [assumption|]).
  intros Hjob. split; [intros type fs n; apply job_unset_same_scheme, Hjob|].
  split.
  - transitivity (length [getArtifactName branchName (lit "coverage") flags name;
                          getArtifactName branchName (lit "coverage") None None]);
      [|reflexivity].
    apply submseteq_length, NoDup_submseteq; [exact Hc2|].
    intros n Hn. apply Hc3 in Hn.
    rewrite <- !(job_unset_same_scheme _ _ _ _ Hjob) in Hn.
    repeat (apply elem_of_cons in Hn as [->|Hn]);
      try (apply elem_of_nil in Hn; contradiction);
      first [apply list_elem_of_here | apply list_elem_of_further, list_elem_of_here].
  - transitivity (length [getArtifactName branchName (lit "test") None name;
                          getArtifactName branchName (lit "test") None None]);
      [|reflexivity].
    apply submseteq_length, NoDup_submseteq; [exact Ht2|].
    intros n Hn. apply Ht3 in Hn.
    rewrite <- !(job_unset_same_scheme _ _ _ _ Hjob) in Hn.
    repeat (apply elem_of_cons in Hn as [->|Hn]);
      try (apply elem_of_nil in Hn; contradiction);
      first [apply list_elem_of_here | apply list_elem_of_further, list_elem_of_here].
Qed.

(** X4.  The name the earlier artifact manager gave an artifact is the
    legacy name without qualifiers, and every retrieval of the current
    manager has it among the names it tries: artifacts stored by the
    earlier revision stay retrievable. *)
Theorem earlier_names_stay_retrievable
    (branchName : jsstring) (flags : option (list jsstring)) (name : option jsstring) :
  (forall type,
      Earlier.getArtifactName branchName type
      = getLegacyArtifactName branchName type None None)
  /\ Earlier.getArtifactName branchName (lit "coverage")
     ∈ coverage_artifact_names branchName flags name
  /\ Earlier.getArtifactName branchName (lit "test") ∈ test_artifact_names branchName name.
Proof.
  split; [reflexivity|]. split.
  - unfold coverage_artifact_names. cbv zeta. apply set_spread_facts.
    do 3 apply list_elem_of_further. apply list_elem_of_here.
  - unfold test_artifact_names. cbv zeta. apply set_spread_facts.
    do 3 apply list_elem_of_further. apply list_elem_of_here.
Qed.

End CandidateFacts.

(** Without [GITHUB_JOB], a retrieval with flags tries two names. *)
Lemma candidates_begin_with_upload_name_witness :
  let p := Mock.platform no_job in
  str_or env_GITHUB_JOB [] = []
  /\ coverage_artifact_names (lit "main") (Some [lit "unit"]) None
     = [lit "codecov-coverage-results-main-unit"; lit "codecov-coverage-results-main"]
  /\ (length (coverage_artifact_names (lit "main") (Some [lit "unit"]) None) <= 2)%nat.
Proof.
  cbv zeta. split; [reflexivity|]. split; [vm_compute; reflexivity|].
  destruct (candidates_begin_with_upload_name (H := Mock.platform no_job)
              (lit "main") (Some [lit "unit"]) None)
    as (_ & _ & _ & _ & _ & _ & _ & _ & Hjob).
  apply (Hjob eq_refl).
Defined.

(** ** The requests of an upload *)

Ltac upload_trace_leaf :=
  simpl; repeat upload_events;
  first
    [ left; reflexivity
    | right; eexists _, _, _; split; [reflexivity|];
      first [left; reflexivity | right; reflexivity] ].

Section UploadTrace.
Context {W : Type} `{Platform W}.

Lemma uploadCoverageResults_trace results branchName flags name (st : state W) :
  upload_trace st (lit "codecov-coverage-") (lit "coverage-results.json")
    (getArtifactName branchName (lit "coverage") flags name)
    (new_events st (uploadCoverageResults results branchName flags name st).2).
Proof.
  unfold upload_trace, uploadCoverageResults, try_catch, uploadCoverageResults_try,
    bind, call, core_info, core_warning, sent, deref, pure_call, ret.
  cbv zeta.
  generalize (getArtifactName branchName (lit "coverage") flags name).
  intros artifactName.
  destruct flags as [[|f fs]|]; simpl.
  all: destruct (fs_mkdtempSync _ (world st)) as [[e|tmpDir] w1] eqn:Hmk;
    [upload_trace_leaf|].
  all: simpl; destruct (heap st !! results) as [obj|]; [|upload_trace_leaf].
  all: simpl; destruct (JSON_stringify _) as [e|text]; [upload_trace_leaf|].
  all: simpl; destruct (fs_writeFileSync _ _ w1) as [[e|[]] w2]; [upload_trace_leaf|].
  all: simpl; destruct (artifact_uploadArtifact _ _ _ w2) as [[e|id] w3];
    [upload_trace_leaf|].
  all: simpl; destruct (fs_unlinkSync _ w3) as [[e|[]] w4]; [upload_trace_leaf|].
  all: simpl; destruct (fs_rmdirSync _ w4) as [[e|[]] w5]; upload_trace_leaf.
Qed.

Lemma uploadResults_trace results branchName name (st : state W) :
  upload_trace st (lit "codecov-test-") (lit "test-results.json")
    (getArtifactName branchName (lit "test") None name)
    (new_events st (uploadResults results branchName name st).2).
Proof.
  unfold upload_trace, uploadResults, try_catch, uploadResults_try,
    bind, call, core_info, core_warning, sent, deref, pure_call, ret.
  cbv zeta.
  generalize (getArtifactName branchName (lit "test") None name).
  intros artifactName. simpl.
  destruct (fs_mkdtempSync _ (world st)) as [[e|tmpDir] w1] eqn:Hmk; [upload_trace_leaf|].
  simpl; destruct (heap st !! results) as [obj|]; [|upload_trace_leaf].
  simpl; destruct (JSON_stringify _) as [e|text]; [upload_trace_leaf|].
  simpl; destruct (fs_writeFileSync _ _ w1) as [[e|[]] w2]; [upload_trace_leaf|].
  simpl; destruct (artifact_uploadArtifact _ _ _ w2) as [[e|id] w3]; [upload_trace_leaf|].
  simpl; destruct (fs_unlinkSync _ w3) as [[e|[]] w4]; [upload_trace_leaf|].
  simpl; destruct (fs_rmdirSync _ w4) as [[e|[]] w5]; upload_trace_leaf.
Qed.

(** X5.  An upload asks nothing of the CI platform but one upload: it
    writes at most one file, [coverage-results.json] or
    [test-results.json] in the directory it has just made, and hands at
    most that one file to the artifact client, under the name of the
    current scheme and never under a legacy name of its own. *)
Theorem upload_writes_one_file_under_current_name
    (results : positive) (branchName : jsstring) (flags : option (list jsstring))
    (name : option jsstring) (st : state W) :
  upload_trace st (lit "codecov-coverage-") (lit "coverage-results.json")
    (getArtifactName branchName (lit "coverage") flags name)
    (new_events st (uploadCoverageResults results branchName flags name st).2)
  /\ upload_trace st (lit "codecov-test-") (lit "test-results.json")
       (getArtifactName branchName (lit "test") None name)
       (new_events st (uploadResults results branchName name st).2).
Proof. split; [apply uploadCoverageResults_trace|apply uploadResults_trace]. Qed.

End UploadTrace.

(** ** The requests of a retrieval *)

#[export] Instance same_events_frame {W} : Frame (@same_events W).
Proof. split; unfold same_events; intros; simpl; congruence. Qed.

Section RetrievalTrace.
Context {W : Type} `{Platform W}.
Implicit Types (self : ArtifactManager.t) (st : state W).

Lemma extractAndRead_same_events file what zipPath extractDir :
  respects same_events (extractAndRead file what zipPath extractDir).
Proof.
  unfold extractAndRead.
  apply respects_try_catch; [apply _| |intros e; repeat frame_step].
  apply respects_bind; [apply _|apply respects_call; apply _|intros _].
  apply respects_bind; [apply _|apply respects_observe; apply _|intros present].
  destruct (negb present); repeat frame_step.
Qed.

Lemma extractAndRead_same_heap file what zipPath extractDir :
  respects same_heap (extractAndRead file what zipPath extractDir).
Proof.
  unfold extractAndRead.
  apply respects_try_catch; [apply _| |intros e; repeat frame_step].
  apply respects_bind; [apply _|apply respects_call; apply _|intros _].
  apply respects_bind; [apply _|apply respects_observe; apply _|intros present].
  destruct (negb present); repeat frame_step.
Qed.

Lemma fetch_artifact_trace self tmp_prefix extract artifact st :
  (forall zipPath tmpDir, respects same_events (extract zipPath tmpDir)) ->
  exists tail,
    events (fetch_artifact self tmp_prefix extract artifact st).2 = events st ++ tail
    /\ (tail = [EvDownload (Artifact.id artifact)]
        \/ exists path data, tail = [EvDownload (Artifact.id artifact); EvWriteFile path data]).
Proof.
  intros Hextract.
  unfold fetch_artifact, bind, call, sent, ret. simpl.
  destruct (octokit_downloadArtifact _ _ _ (world st)) as [[e|download] w1]; simpl;
    [eexists; split; [reflexivity|left; reflexivity]|].
  destruct (fs_mkdtempSync _ w1) as [[e|tmpDir] w2]; simpl;
    [eexists; split; [reflexivity|left; reflexivity]|].
  destruct (fs_writeFileSync _ _ w2) as [[e|[]] w3]; simpl;
    [eexists; split; [rewrite <- app_assoc; reflexivity|right; eauto]|].
  match goal with
  | |- context [extract ?z ?t ?s] =>
      destruct (extract z t s) as [[e|r] st3] eqn:Hx;
      pose proof (Hextract _ _ _ _ _ Hx) as Hev; unfold same_events in Hev; simpl in Hev
  end; simpl.
  - eexists; split; [rewrite Hev, <- app_assoc; reflexivity|right; eauto].
  - destruct (fs_unlinkSync _ (world st3)) as [[e|[]] w4]; simpl;
      [eexists; split; [rewrite Hev, <- app_assoc; reflexivity|right; eauto]|].
    destruct (fs_rmSync_recursive _ w4) as [[e|[]] w5]; simpl;
      eexists; (split; [rewrite Hev, <- app_assoc; reflexivity|right; eauto]).
Qed.

Lemma scan_runs_same_heap self what tmp_prefix file kind names runs :
  respects same_heap
    (scan_runs self what tmp_prefix (extractAndRead file kind) names runs).
Proof.
  induction runs as [|run rest IH]; simpl.
  - repeat frame_step.
  - apply respects_bind; [apply _|apply same_heap_sent|intros _].
    apply respects_bind; [apply _|apply respects_call; apply _|intros artifacts].
    destruct (first_match names artifacts) as [[n a]|]; [|exact IH].
    unfold fetch_artifact.
    repeat first [apply extractAndRead_same_heap | frame_step].
Qed.

End RetrievalTrace.

(** ** Reading the downloaded archive *)

Section ExtractAndRead.
Context {W : Type} `{Platform W}.
Implicit Types (self : ArtifactManager.t) (st : state W).

Lemma extractAndRead_returns file what zipPath extractDir :
  returns_normally (extractAndRead file what zipPath extractDir).
Proof.
  apply returns_normally_try_catch. intros e st.
  unfold bind, core_warning, ret. simpl. eauto.
Qed.

Lemma extractAndRead_Some file what zipPath extractDir st v :
  (extractAndRead file what zipPath extractDir st).1 = inr (Some v)
  <-> parsed_from file zipPath extractDir (world st) v.
Proof.
  unfold parsed_from, extractAndRead, try_catch, bind, call, observe, pure_call,
    core_warning, core_info, ret. simpl.
  destruct (zip_extractAllTo zipPath extractDir (world st)) as [[e|[]] w1] eqn:Hzip; simpl.
  - split; [discriminate|]. intros (w1' & text & w2 & Hx & _). discriminate.
  - destruct (fs_existsSync (path_join extractDir file) w1) eqn:Hex; simpl.
    + destruct (fs_readFileSync (path_join extractDir file) w1) as [[e|text] w2] eqn:Hrd;
        simpl.
      * split; [discriminate|].
        intros (w1' & text & w2' & Hx & _ & Hr & _).
        injection Hx as <-. rewrite Hrd in Hr. discriminate.
      * destruct (JSON_parse text) as [e|parsed] eqn:Hparse; simpl.
        -- split; [discriminate|].
           intros (w1' & text' & w2' & Hx & _ & Hr & Hp).
           injection Hx as <-. rewrite Hrd in Hr. injection Hr as <- <-.
           rewrite Hparse in Hp. discriminate.
        -- split.
           ++ intros [= <-]. exists w1, text, w2. auto.
           ++ intros (w1' & text' & w2' & Hx & _ & Hr & Hp).
              injection Hx as <-. rewrite Hrd in Hr. injection Hr as <- <-.
              rewrite Hparse in Hp. injection Hp as <-. reflexivity.
    + split; [discriminate|].
      intros (w1' & text & w2 & Hx & He & _).
      injection Hx as <-. rewrite Hex in He. discriminate.
Qed.

Lemma extractAndRead_None file what zipPath extractDir st :
  (extractAndRead file what zipPath extractDir st).1 = inr None ->
  exists msg,
    last (log (extractAndRead file what zipPath extractDir st).2) = Some (LogWarning msg).
Proof.
  unfold extractAndRead, try_catch, bind, call, observe, pure_call,
    core_warning, core_info, ret. simpl.
  destruct (zip_extractAllTo zipPath extractDir (world st)) as [[e|[]] w1]; simpl;
    [intros _; rewrite last_snoc; eauto|].
  destruct (fs_existsSync (path_join extractDir file) w1); simpl;
    [|intros _; rewrite last_snoc; eauto].
  destruct (fs_readFileSync (path_join extractDir file) w1) as [[e|text] w2]; simpl;
    [intros _; rewrite last_snoc; eauto|].
  destruct (JSON_parse text) as [e|parsed]; simpl;
    [intros _; rewrite last_snoc; eauto|discriminate].
Qed.

(** X7.  Reading a downloaded archive never throws.  It returns what
    [JSON.parse] gave exactly when the archive unpacked, the results file
    exists in it, was read and parsed; in every other case it gives up:
    it returns through one of its [return null] statements and the last
    message logged is a warning. *)
Theorem extractAndRead_parses_or_warns
    (zipPath extractDir : jsstring) (st : state W) :
  returns_normally (extractAndReadCoverageResults zipPath extractDir)
  /\ returns_normally (extractAndReadResults zipPath extractDir)
  /\ (forall v,
        (extractAndReadCoverageResults zipPath extractDir st).1 = inr (Some v)
        <-> parsed_from (lit "coverage-results.json") zipPath extractDir (world st) v)
  /\ (forall v,
        (extractAndReadResults zipPath extractDir st).1 = inr (Some v)
        <-> parsed_from (lit "test-results.json") zipPath extractDir (world st) v)
  /\ ((extractAndReadCoverageResults zipPath extractDir st).1 = inr None ->
      exists msg,
        last (log (extractAndReadCoverageResults zipPath extractDir st).2)
        = Some (LogWarning msg))
  /\ ((extractAndReadResults zipPath extractDir st).1 = inr None ->
      exists msg,
        last (log (extractAndReadResults zipPath extractDir st).2)
        = Some (LogWarning msg)).
Proof.
  split; [apply extractAndRead_returns|].
  split; [apply extractAndRead_returns|].
  split; [intros v; apply extractAndRead_Some|].
  split; [intros v; apply extractAndRead_Some|].
  split; apply extractAndRead_None.
Qed.






Lemma fetch_artifact_unlink_fails self tmp_prefix extract artifact :
  unlink_always_fails ->
  null_or_throws (fetch_artifact self tmp_prefix extract artifact).
Proof.
  intros Hfail st. right.
  unfold fetch_artifact, bind, call, sent, ret. simpl.
  destruct (octokit_downloadArtifact _ _ _ (world st)) as [[e|download] w1]; simpl;
    [eauto|].
  destruct (fs_mkdtempSync _ w1) as [[e|tmpDir] w2]; simpl; [eauto|].
  destruct (fs_writeFileSync _ _ w2) as [[e|[]] w3]; simpl; [eauto|].
  match goal with
  | |- context [extract ?z ?t ?s] => destruct (extract z t s) as [[e|r] st3]
  end; simpl; [eauto|].
  match goal with
  | |- context [fs_unlinkSync ?p ?w] => destruct (Hfail p w) as (e & w' & ->)
  end.
  simpl. eauto.
Qed.

Lemma scan_runs_unlink_fails self what tmp_prefix extract names runs :
  unlink_always_fails ->
  null_or_throws (scan_runs self what tmp_prefix extract names runs).
Proof.
  intros Hfail. induction runs as [|run rest IH]; simpl.
  - apply null_or_throws_bind. intros _. apply null_or_throws_ret.
  - apply null_or_throws_bind. intros _.
    apply null_or_throws_bind_call. intros w artifacts w' Hcall.
    destruct (first_match names artifacts) as [[n a]|]; [|exact IH].
    apply null_or_throws_bind. intros _.
    apply fetch_artifact_unlink_fails, Hfail.
Qed.

(** X9.  The clean-up of the temporary archive sits inside the same try
    block as the retrieval: on a platform where removing the archive
    fails, both retrievals return null even when the base results were
    found, downloaded and parsed. *)
Theorem failed_cleanup_discards_base
    (Hfail : unlink_always_fails)
    (self : ArtifactManager.t) (baseBranch : jsstring) (flags : option (list jsstring))
    (name : option jsstring) (st : state W) :
  (downloadBaseCoverageResults self baseBranch flags name st).1 = inr None
  /\ (downloadBaseResults self baseBranch name st).1 = inr None.
Proof.
  split.
  - apply try_catch_null; [|reflexivity].
    cbv zeta. do 2 (apply null_or_throws_bind; intros _).
    apply null_or_throws_bind. intros [|run runs].
    + apply null_or_throws_bind. intros _. apply null_or_throws_ret.
    + apply scan_runs_unlink_fails, Hfail.
  - apply try_catch_null; [|reflexivity].
    cbv zeta. apply null_or_throws_bind; intros _.
    apply null_or_throws_bind. intros [|run runs].
    + apply null_or_throws_bind. intros _. apply null_or_throws_ret.
    + apply scan_runs_unlink_fails, Hfail.
Qed.

End ExtractAndRead.

(** Removing the archive fails: the summary stored under the legacy name
    is found and parsed on the sample platform, and lost on the one that
    differs only in [unlinkSync]. *)
Lemma failed_cleanup_discards_base_witness :
  unlink_always_fails (H := stuck_archive)
  /\ (downloadBaseCoverageResults (H := stuck_archive) sample_manager (lit "main")
        (Some [lit "unit"]) None (Mock.start ∅)).1 = inr None
  /\ (downloadBaseCoverageResults (H := Mock.platform legacy_only) sample_manager
        (lit "main") (Some [lit "unit"]) None (Mock.start ∅)).1
     = inr (Some (JObject [("lineRate", JNumber (of_Z 80))])).
Proof.
  assert (Hfail : unlink_always_fails (H := stuck_archive))
    by (intros path w; eexists _, _; reflexivity).
  split; [exact Hfail|].
  split; [|vm_compute; reflexivity].
  exact (proj1 (failed_cleanup_discards_base (H := stuck_archive) Hfail sample_manager
                  (lit "main") (Some [lit "unit"]) None (Mock.start ∅))).
Defined.

(** ** The repository and the branch read from the environment *)

Lemma split_slash_first cur s :
  split_slash cur s
  = (cur ++ take_while not_slash s)
    :: match drop_while not_slash s with
       | [] => []
       | _ :: rest => split_slash [] rest
       end.
Proof.
  revert cur. induction s as [|c s IH]; intros cur; simpl.
  - rewrite app_nil_r. reflexivity.
  - unfold not_slash at 1 3, slash. destruct (c =? 47)%N; simpl.
    + rewrite app_nil_r. reflexivity.
    + rewrite IH, <- app_assoc. reflexivity.
Qed.

Lemma take_while_not_slash_app o r :
  slash ∉ o -> take_while not_slash (o ++ slash :: r) = o.
Proof.
  induction o as [|c o IH]; intros Hno; simpl; [reflexivity|].
  apply not_elem_of_cons in Hno as [Hc Ho].
  unfold not_slash at 1. destruct (N.eqb_spec c slash) as [->|_]; [done|].
  simpl. rewrite IH by exact Ho. reflexivity.
Qed.

Lemma drop_while_not_slash_app o r :
  slash ∉ o -> drop_while not_slash (o ++ slash :: r) = slash :: r.
Proof.
  induction o as [|c o IH]; intros Hno; simpl; [reflexivity|].
  apply not_elem_of_cons in Hno as [Hc Ho].
  unfold not_slash at 1. destruct (N.eqb_spec c slash) as [->|_]; [done|].
  simpl. apply IH, Ho.
Qed.

Lemma take_while_not_slash_all s :
  slash ∉ s -> take_while not_slash s = s /\ drop_while not_slash s = [].
Proof.
  induction s as [|c s IH]; intros Hno; simpl; [done|].
  apply not_elem_of_cons in Hno as [Hc Hs].
  unfold not_slash at 1 3. destruct (N.eqb_spec c slash) as [->|_]; [done|].
  simpl. destruct (IH Hs) as [-> ->]. done.
Qed.

Lemma take_while_not_slash_free s : slash ∉ take_while not_slash s.
Proof.
  induction s as [|c s IH]; simpl; [apply not_elem_of_nil|].
  unfold not_slash at 1. destruct (N.eqb_spec c slash) as [->|Hne]; simpl.
  - apply not_elem_of_nil.
  - apply not_elem_of_cons. split; [congruence|exact IH].
Qed.

Lemma str_or_nil_free (o : option jsstring) :
  (forall s, o = Some s -> slash ∉ s) -> slash ∉ str_or o [].
Proof.
  intros Hfree. destruct o as [s|]; simpl; [|apply not_elem_of_nil].
  destruct s; simpl; [apply not_elem_of_nil|]. apply Hfree. reflexivity.
Qed.

Section Constructor.
Context {W : Type} `{Platform W}.

Lemma constructor_closed_form :
  let repository := str_or env_GITHUB_REPOSITORY [] in
  ArtifactManager.owner constructor = take_while not_slash repository
  /\ ArtifactManager.repo constructor
     = match drop_while not_slash repository with
       | [] => []
       | _ :: rest => take_while not_slash rest
       end.
Proof.
  cbv zeta. unfold constructor. cbv zeta.
  rewrite split_slash_first. cbn [lookup list_lookup ArtifactManager.owner
    ArtifactManager.repo app].
  split.
  - simpl. destruct (take_while not_slash _); reflexivity.
  - destruct (drop_while not_slash _) as [|c rest]; [reflexivity|].
    rewrite split_slash_first. simpl.
    destruct (take_while not_slash rest); reflexivity.
Qed.

(** X10.  The constructor splits GITHUB_REPOSITORY at its slashes: the
    owner is the text before the first slash and the repository the text
    between the first and the second; further segments are dropped, a
    value without a slash is taken as the owner alone, and an unset or
    empty variable gives two empty strings.  Neither field ever holds a
    slash. *)
Theorem constructor_splits_repository :
  (forall o r, slash ∉ o -> slash ∉ r ->
     env_GITHUB_REPOSITORY = Some (o ++ slash :: r) ->
     constructor = ArtifactManager.mk o r)
  /\ (forall o r more, slash ∉ o -> slash ∉ r ->
        env_GITHUB_REPOSITORY = Some (o ++ slash :: r ++ slash :: more) ->
        constructor = ArtifactManager.mk o r)
  /\ (forall s, slash ∉ s -> env_GITHUB_REPOSITORY = Some s ->
        constructor = ArtifactManager.mk s [])
  /\ (env_GITHUB_REPOSITORY = None -> constructor = ArtifactManager.mk [] [])
  /\ (slash ∉ ArtifactManager.owner constructor)
  /\ (slash ∉ ArtifactManager.repo constructor).
Proof.
  destruct constructor_closed_form as [Howner Hrepo].
  assert (Hrecord : forall o r,
             ArtifactManager.owner constructor = o ->
             ArtifactManager.repo constructor = r ->
             constructor = ArtifactManager.mk o r).
  { intros o r <- <-. destruct constructor; reflexivity. }
  split; [|split; [|split; [|split; [|split]]]].
  - intros o r Ho Hr Henv. rewrite Henv in Howner, Hrepo.
    assert (Hs : str_or (Some (o ++ slash :: r)) [] = o ++ slash :: r)
      by (destruct o; reflexivity).
    rewrite Hs in Howner, Hrepo.
    rewrite take_while_not_slash_app in Howner by exact Ho.
    rewrite drop_while_not_slash_app in Hrepo by exact Ho.
    rewrite (proj1 (take_while_not_slash_all r Hr)) in Hrepo.
    apply Hrecord; assumption.
  - intros o r more Ho Hr Henv. rewrite Henv in Howner, Hrepo.
    assert (Hs : str_or (Some (o ++ slash :: r ++ slash :: more)) []
                 = o ++ slash :: r ++ slash :: more)
      by (destruct o; reflexivity).
    rewrite Hs in Howner, Hrepo.
    rewrite take_while_not_slash_app in Howner by exact Ho.
    rewrite drop_while_not_slash_app in Hrepo by exact Ho.
    rewrite take_while_not_slash_app in Hrepo by exact Hr.
    apply Hrecord; assumption.
  - intros s Hs Henv. rewrite Henv in Howner, Hrepo.
    assert (Hor : str_or (Some s) [] = s) by (destruct s; reflexivity).
    rewrite Hor in Howner, Hrepo.
    destruct (take_while_not_slash_all s Hs) as [Ht Hd].
    rewrite Ht in Howner. rewrite Hd in Hrepo.
    apply Hrecord; assumption.
  - intros Henv. rewrite Henv in Howner, Hrepo. simpl in Howner, Hrepo.
    apply Hrecord; assumption.
  - rewrite Howner. apply take_while_not_slash_free.
  - rewrite Hrepo. destruct (drop_while not_slash _);
      [apply not_elem_of_nil|apply take_while_not_slash_free].
Qed.

End Constructor.

(** On the sample platform GITHUB_REPOSITORY is [owner/repo]. *)
Lemma constructor_splits_repository_witness :
  let p := Mock.platform healthy in
  (slash ∉ lit "owner") /\ (slash ∉ lit "repo")
  /\ env_GITHUB_REPOSITORY = Some (lit "owner" ++ slash :: lit "repo")
  /\ constructor = ArtifactManager.mk (lit "owner") (lit "repo").
Proof.
  cbv zeta.
  assert (Ho : slash ∉ lit "owner")
    by (apply (bool_decide_unpack (slash ∉ lit "owner")); vm_compute; exact I).
  assert (Hr : slash ∉ lit "repo")
    by (apply (bool_decide_unpack (slash ∉ lit "repo")); vm_compute; exact I).
  split; [exact Ho|]. split; [exact Hr|]. split; [reflexivity|].
  apply (proj1 (constructor_splits_repository (H := Mock.platform healthy))
           (lit "owner") (lit "repo") Ho Hr eq_refl).
Defined.

Lemma starts_with_app p s : starts_with p (p ++ s) = true.
Proof.
  induction p as [|c p IH]; simpl; [reflexivity|].
  rewrite bool_decide_eq_true_2 by reflexivity. exact IH.
Qed.

Lemma starts_with_inv p s : starts_with p s = true -> exists t, s = p ++ t.
Proof.
  revert s. induction p as [|c p IH]; intros s; simpl; [eauto|].
  destruct s as [|d s]; [discriminate|].
  intros Hs. apply andb_prop in Hs as [Hc Hp].
  apply bool_decide_eq_true_1 in Hc as <-.
  destruct (IH _ Hp) as [t ->]. eauto.
Qed.

Lemma replace_first_prefix p r s : replace_first p r (p ++ s) = r ++ s.
Proof.
  destruct (p ++ s) as [|c cs] eqn:Hps; simpl.
  - apply app_eq_nil in Hps as [-> ->]. reflexivity.
  - rewrite <- Hps, starts_with_app, drop_app_length. reflexivity.
Qed.

Lemma str_or_truthy (o : option jsstring) (d : jsstring) :
  d <> [] -> str_or o d <> [].
Proof.
  intros Hd. destruct o as [[|c s]|]; simpl; [exact Hd|discriminate|exact Hd].
Qed.

Lemma str_or_nil_inv (o : option jsstring) c s :
  str_or o [] = c :: s -> o = Some (c :: s).
Proof. destruct o as [[|c' s']|]; simpl; congruence. Qed.

(** X11.  The current branch is GITHUB_REF without its [refs/heads/]
    prefix, whatever follows the prefix (slashes included); for a ref
    under [refs/pull/] it is GITHUB_HEAD_REF, or [unknown] when that is
    unset or empty; for every other ref (a tag, an unset variable) it is
    [unknown].  The result is the empty string only for the ref
    [refs/heads/] itself. *)
Theorem getCurrentBranch_reads_ref :
  (forall b head, getCurrentBranch (Some (lit "refs/heads/" ++ b)) head = b)
  /\ (forall rest head,
        getCurrentBranch (Some (lit "refs/pull/" ++ rest)) head
        = str_or head (lit "unknown"))
  /\ (forall ref head,
        starts_with (lit "refs/heads/") (str_or ref []) = false ->
        starts_with (lit "refs/pull/") (str_or ref []) = false ->
        getCurrentBranch ref head = lit "unknown")
  /\ (forall ref head,
        getCurrentBranch ref head = [] <-> ref = Some (lit "refs/heads/")).
Proof.
  split; [|split; [|split]].
  - intros b head. unfold getCurrentBranch. cbv zeta.
    change (str_or (Some (lit "refs/heads/" ++ b)) []) with (lit "refs/heads/" ++ b).
    rewrite starts_with_app. apply replace_first_prefix.
  - intros rest head. unfold getCurrentBranch. cbv zeta.
    change (str_or (Some (lit "refs/pull/" ++ rest)) []) with (lit "refs/pull/" ++ rest).
    rewrite starts_with_app.
    change (starts_with (lit "refs/heads/") (lit "refs/pull/" ++ rest)) with false.
    reflexivity.
  - intros ref head Hheads Hpull. unfold getCurrentBranch. cbv zeta.
    rewrite Hheads, Hpull. reflexivity.
  - intros ref head. split.
    + unfold getCurrentBranch. cbv zeta.
      destruct (starts_with (lit "refs/heads/") (str_or ref [])) eqn:Hheads.
      * apply starts_with_inv in Hheads as [t Ht]. rewrite Ht.
        rewrite replace_first_prefix. simpl. intros ->.
        rewrite app_nil_r in Ht. apply (str_or_nil_inv ref) in Ht. exact Ht.
      * destruct (starts_with (lit "refs/pull/") (str_or ref [])).
        -- intros Hnil. exfalso. revert Hnil. apply str_or_truthy. discriminate.
        -- discriminate.
    + intros ->. reflexivity.
Qed.

(** A tag push: the ref is under neither prefix. *)
Lemma getCurrentBranch_reads_ref_witness :
  starts_with (lit "refs/heads/") (str_or (Some (lit "refs/tags/v1")) []) = false
  /\ starts_with (lit "refs/pull/") (str_or (Some (lit "refs/tags/v1")) []) = false
  /\ getCurrentBranch (Some (lit "refs/tags/v1")) (Some (lit "feature/x")) = lit "unknown".
Proof.
  split; [reflexivity|]. split; [reflexivity|].
  apply (proj1 (proj2 (proj2 getCurrentBranch_reads_ref))
           (Some (lit "refs/tags/v1")) (Some (lit "feature/x")) eq_refl eq_refl).
Defined.

(** ** More on the comparator *)

Lemma omap_nil_all {A B} (f : A -> option B) (l : list A) :
  (forall x, x ∈ l -> f x = None) -> omap f l = [].
Proof.
  induction l as [|x l IH]; intros Hall; cbn [omap list_omap]; [reflexivity|].
  rewrite (Hall x) by apply list_elem_of_here.
  apply IH. intros y Hy. apply Hall, list_elem_of_further, Hy.
Qed.

Lemma build_file_map_self_get files e :
  e ∈ build_file_map files -> map_get e.1 (build_file_map files) = Some e.2.
Proof.
  destruct e as [p f]. intros He.
  apply elem_of_map_get; [apply build_file_map_keys_NoDup|exact He].
Qed.

Lemma build_file_map_in_files files e : e ∈ build_file_map files -> e.2 ∈ files.
Proof.
  destruct e as [p f]. intros He. apply build_file_map_elem_of in He.
  apply file_at_Some in He as [_ Hf]. exact Hf.
Qed.

Lemma compareFiles_self f :
  is_finite (FileCoverage.lineRate f) = true ->
  is_finite (FileCoverage.branchRate f) = true ->
  rates_moved (compareFiles f f) = false.
Proof.
  intros Hl Hb. unfold rates_moved, compareFiles.
  cbn [FileComparison.deltaLineRate FileComparison.deltaBranchRate].
  rewrite !round2_sub_diag by assumption. reflexivity.
Qed.

(** X12.  Comparing a summary with itself reports no added and no
    removed file, whatever the summary holds; when none of its rates is
    NaN or infinite it also reports no changed file, both rate deltas
    zero and no improvement. *)
Theorem compareResults_self
    (r : AggregatedCoverageResults.t) (options : option CompareOptions.t) :
  let c := compareResults r r options in
  CoverageComparison.filesAdded c = []
  /\ CoverageComparison.filesRemoved c = []
  /\ (finite_rates r ->
      CoverageComparison.filesChanged c = []
      /\ CoverageComparison.deltaLineRate c = zero
      /\ CoverageComparison.deltaBranchRate c = zero
      /\ CoverageComparison.improvement c = false).
Proof.
  cbv zeta. split; [|split].
  - rewrite compareResults_filesAdded. apply omap_nil_all. intros e He.
    unfold added_entry. rewrite (build_file_map_self_get _ _ He). reflexivity.
  - rewrite compareResults_filesRemoved. apply omap_nil_all. intros e He.
    unfold removed_entry, map_has. rewrite (build_file_map_self_get _ _ He). reflexivity.
  - intros (Hline & Hbranch & Hfiles).
    assert (Hdl : CoverageComparison.deltaLineRate (compareResults r r options) = zero)
      by (rewrite compareResults_deltaLineRate; apply round2_sub_diag, Hline).
    assert (Hdb : CoverageComparison.deltaBranchRate (compareResults r r options) = zero)
      by (rewrite compareResults_deltaBranchRate; apply round2_sub_diag, Hbranch).
    split; [|split; [exact Hdl|split; [exact Hdb|]]].
    + rewrite compareResults_filesChanged. apply omap_nil_all. intros e He.
      unfold changed_entry. rewrite (build_file_map_self_get _ _ He).
      pose proof (build_file_map_in_files _ _ He) as Hin.
      rewrite Forall_forall in Hfiles. destruct (Hfiles _ Hin) as [Hl Hb].
      cbv zeta. rewrite compareFiles_self by assumption. reflexivity.
    + pose proof (compareResults_improvement r r options) as Himp. cbv zeta in Himp.
      rewrite Himp, Hdl, Hdb. reflexivity.
Qed.

(** The sample summary against itself. *)
Lemma compareResults_self_witness :
  finite_rates sample_current
  /\ CoverageComparison.filesChanged (compareResults sample_current sample_current None) = []
  /\ CoverageComparison.improvement (compareResults sample_current sample_current None)
     = false.
Proof.
  assert (Hfin : finite_rates sample_current).
  { split; [reflexivity|]. split; [reflexivity|].
    repeat constructor. }
  split; [exact Hfin|].
  destruct (proj2 (proj2 (compareResults_self sample_current None)) Hfin)
    as (Hchanged & _ & _ & Himp).
  split; [exact Hchanged|exact Himp].
Defined.

Lemma file_at_None p files :
  file_at p files = None <-> p ∉ FileCoverage.path <$> files.
Proof.
  unfold file_at. rewrite last_None. split.
  - intros Hnil Hin. apply list_elem_of_fmap in Hin as (f & -> & Hf).
    assert (Hmem : f ∈ filter (fun g => FileCoverage.path g = FileCoverage.path f) files)
      by (apply list_elem_of_filter; split; [reflexivity|exact Hf]).
    rewrite Hnil in Hmem. apply elem_of_nil in Hmem. exact Hmem.
  - intros Hno.
    destruct (filter (fun f => FileCoverage.path f = p) files) as [|f fs] eqn:Hfilter;
      [reflexivity|].
    exfalso. apply Hno.
    assert (Hmem : f ∈ filter (fun f => FileCoverage.path f = p) files)
      by (rewrite Hfilter; apply list_elem_of_here).
    apply list_elem_of_filter in Hmem as [<- Hf].
    apply list_elem_of_fmap_2, Hf.
Qed.

(** X13.  A file is reported as added exactly when it is the last file
    of the current summary under its path and no file of the base has
    that path; it is reported as removed exactly when it is the last file
    of the base under its path and no file of the current summary has
    that path. *)
Theorem filesAdded_filesRemoved_membership
    (base current : AggregatedCoverageResults.t) (options : option CompareOptions.t)
    (f : FileCoverage.t) :
  let c := compareResults base current options in
  (f ∈ CoverageComparison.filesAdded c
   <-> file_at (FileCoverage.path f) (AggregatedCoverageResults.files current) = Some f
       /\ FileCoverage.path f ∉ paths_of base)
  /\ (f ∈ CoverageComparison.filesRemoved c
      <-> file_at (FileCoverage.path f) (AggregatedCoverageResults.files base) = Some f
          /\ FileCoverage.path f ∉ paths_of current).
Proof.
  cbv zeta. unfold paths_of. split.
  - rewrite compareResults_filesAdded, list_elem_of_omap. split.
    + intros ([p f'] & He & Hadd). unfold added_entry in Hadd. simpl in Hadd.
      rewrite build_file_map_get in Hadd.
      destruct (file_at p (AggregatedCoverageResults.files base)) eqn:Hb; [discriminate|].
      injection Hadd as ->. apply build_file_map_elem_of in He.
      destruct (file_at_Some _ _ _ He) as [Hp _]. rewrite Hp.
      split; [exact He|apply file_at_None, Hb].
    + intros [Hc Hb]. exists (FileCoverage.path f, f).
      split; [apply build_file_map_elem_of, Hc|].
      unfold added_entry. simpl. rewrite build_file_map_get.
      apply file_at_None in Hb. rewrite Hb. reflexivity.
  - rewrite compareResults_filesRemoved, list_elem_of_omap. split.
    + intros ([p f'] & He & Hrem). unfold removed_entry, map_has in Hrem. simpl in Hrem.
      rewrite build_file_map_get in Hrem.
      destruct (file_at p (AggregatedCoverageResults.files current)) eqn:Hc;
        [discriminate|].
      injection Hrem as ->. apply build_file_map_elem_of in He.
      destruct (file_at_Some _ _ _ He) as [Hp _]. rewrite Hp.
      split; [exact He|apply file_at_None, Hc].
    + intros [Hb Hc]. exists (FileCoverage.path f, f).
      split; [apply build_file_map_elem_of, Hb|].
      unfold removed_entry, map_has. simpl. rewrite build_file_map_get.
      apply file_at_None in Hc. rewrite Hc. reflexivity.
Qed.

Section KeyCounts.
Context {K V : Type} `{EqDecision K}.
Implicit Types (m : list (K * V)) (l k : list K).

Lemma map_get_None x m : map_get x m = None <-> x ∉ m.*1.
Proof.
  induction m as [|[k' v'] m IH]; simpl.
  - split; [intros _; apply not_elem_of_nil|reflexivity].
  - rewrite not_elem_of_cons. destruct (decide (k' = x)) as [->|Hne].
    + split; [discriminate|]. intros [Hx _]. congruence.
    + rewrite IH. split; [intros Hx; split; [congruence|exact Hx]|intros [_ Hx]; exact Hx].
Qed.

Lemma length_omap_absent {B} (g : K * V -> option B) (other : list K) m :
  (forall e, g e = None <-> e.1 ∈ other) ->
  length (omap g m) = length (filter (fun x => x ∉ other) m.*1).
Proof.
  intros Hg. induction m as [|e m IH]; [reflexivity|].
  cbn [omap list_omap fmap list_fmap]. rewrite filter_cons.
  destruct (g e) as [y|] eqn:Hge.
  - destruct (decide (e.1 ∉ other)) as [_|Hin]; [simpl; f_equal; exact IH|].
    exfalso. apply Hin. intros Hmem. apply Hg in Hmem. congruence.
  - destruct (decide (e.1 ∉ other)) as [Hno|_]; [|exact IH].
    exfalso. apply Hno, Hg, Hge.
Qed.

Lemma absent_keys_balance l k :
  NoDup l -> NoDup k ->
  (length (filter (fun x => x ∉ k) l) + length k
   = length (filter (fun x => x ∉ l) k) + length l)%nat.
Proof.
  intros Hl Hk.
  pose proof (filter_app_complement (fun x => x ∈ k) l) as Hpl.
  pose proof (filter_app_complement (fun x => x ∈ l) k) as Hpk.
  apply Permutation_length in Hpl, Hpk. rewrite length_app in Hpl, Hpk.
  assert (Hcommon : filter (fun x => x ∈ k) l ≡ₚ filter (fun x => x ∈ l) k).
  { apply NoDup_Permutation; [apply NoDup_filter, Hl|apply NoDup_filter, Hk|].
    intros x. rewrite !list_elem_of_filter. tauto. }
  apply Permutation_length in Hcommon. lia.
Qed.
End KeyCounts.

Lemma build_file_map_keys files :
  (build_file_map files).*1 ≡ₚ remove_dups (FileCoverage.path <$> files).
Proof.
  apply NoDup_Permutation;
    [apply build_file_map_keys_NoDup|apply NoDup_remove_dups|].
  intros p. rewrite elem_of_remove_dups.
  pose proof (map_get_None p (build_file_map files)) as Hget.
  rewrite build_file_map_get, file_at_None in Hget.
  destruct (decide (p ∈ (build_file_map files).*1)) as [Hin|Hno];
    destruct (decide (p ∈ FileCoverage.path <$> files)) as [Hin'|Hno']; try tauto.
Qed.

(** X14.  The added and the removed files account for the difference in
    the number of distinct paths: added plus distinct base paths equals
    removed plus distinct current paths.  When no path is repeated in
    either summary, added minus removed is the difference of the two file
    counts. *)
Theorem added_removed_balance
    (base current : AggregatedCoverageResults.t) (options : option CompareOptions.t) :
  let c := compareResults base current options in
  (length (CoverageComparison.filesAdded c) + length (remove_dups (paths_of base))
   = length (CoverageComparison.filesRemoved c)
     + length (remove_dups (paths_of current)))%nat
  /\ (NoDup (paths_of base) -> NoDup (paths_of current) ->
      (length (CoverageComparison.filesAdded c)
       + length (AggregatedCoverageResults.files base)
       = length (CoverageComparison.filesRemoved c)
         + length (AggregatedCoverageResults.files current))%nat).
Proof.
  cbv zeta. unfold paths_of.
  assert (Hgeneral :
    (length (CoverageComparison.filesAdded (compareResults base current options))
     + length (remove_dups (FileCoverage.path <$> AggregatedCoverageResults.files base))
     = length (CoverageComparison.filesRemoved (compareResults base current options))
       + length (remove_dups
                   (FileCoverage.path <$> AggregatedCoverageResults.files current)))%nat).
  { rewrite compareResults_filesAdded, compareResults_filesRemoved.
    rewrite (length_omap_absent _
               (build_file_map (AggregatedCoverageResults.files base)).*1).
    2:{ intros e. unfold added_entry.
        pose proof (map_get_None e.1
                      (build_file_map (AggregatedCoverageResults.files base))) as Hget.
        destruct (map_get e.1 (build_file_map (AggregatedCoverageResults.files base))).
        - split; [intros _|reflexivity].
          destruct (decide (e.1 ∈ (build_file_map
                                     (AggregatedCoverageResults.files base)).*1));
            [assumption|]. exfalso. apply Hget in n. discriminate.
        - split; [discriminate|]. intros Hin. exfalso.
          apply (proj1 Hget eq_refl), Hin. }
    rewrite (length_omap_absent _
               (build_file_map (AggregatedCoverageResults.files current)).*1).
    2:{ intros e. unfold removed_entry, map_has.
        pose proof (map_get_None e.1
                      (build_file_map (AggregatedCoverageResults.files current))) as Hget.
        destruct (map_get e.1 (build_file_map (AggregatedCoverageResults.files current))).
        - split; [intros _|reflexivity].
          destruct (decide (e.1 ∈ (build_file_map
                                     (AggregatedCoverageResults.files current)).*1));
            [assumption|]. exfalso. apply Hget in n. discriminate.
        - split; [discriminate|]. intros Hin. exfalso.
          apply (proj1 Hget eq_refl), Hin. }
    rewrite <- (Permutation_length
                  (build_file_map_keys (AggregatedCoverageResults.files base))).
    rewrite <- (Permutation_length
                  (build_file_map_keys (AggregatedCoverageResults.files current))).
    apply absent_keys_balance; apply build_file_map_keys_NoDup. }
  split; [exact Hgeneral|].
  intros Hbase Hcurrent.
  assert (Hlen : forall l : list jsstring, NoDup l -> length (remove_dups l) = length l).
  { intros l Hl. apply Permutation_length, NoDup_Permutation;
      [apply NoDup_remove_dups|exact Hl|intros x; apply elem_of_remove_dups]. }
  rewrite !Hlen, !length_fmap in Hgeneral by assumption. exact Hgeneral.
Qed.

(** The sample summaries repeat no path: one file added, none removed,
    three files against two. *)
Lemma added_removed_balance_witness :
  NoDup (paths_of sample_base) /\ NoDup (paths_of sample_current)
  /\ (length (CoverageComparison.filesAdded
                (compareResults sample_base sample_current None))
      + length (AggregatedCoverageResults.files sample_base)
      = length (CoverageComparison.filesRemoved
                  (compareResults sample_base sample_current None))
        + length (AggregatedCoverageResults.files sample_current))%nat.
Proof.
  assert (Hbase : NoDup (paths_of sample_base))
    by (apply (bool_decide_unpack (NoDup (paths_of sample_base))); vm_compute; exact I).
  assert (Hcurrent : NoDup (paths_of sample_current))
    by (apply (bool_decide_unpack (NoDup (paths_of sample_current)));
        vm_compute; exact I).
  split; [exact Hbase|]. split; [exact Hcurrent|].
  apply (proj2 (added_removed_balance sample_base sample_current None) Hbase Hcurrent).
Defined.

(** ** The summary line *)

Lemma headline_eq show c :
  headline show c
  = Some (if CoverageComparison.improvement c then improved_text
          else if lt (CoverageComparison.deltaLineRate c) zero
                  || lt (CoverageComparison.deltaBranchRate c) zero
               then decreased_text
               else unchanged_text).
Proof.
  unfold headline, getSummary_parts. cbv zeta.
  destruct (CoverageComparison.improvement c);
    [|destruct (lt (CoverageComparison.deltaLineRate c) zero
                || lt (CoverageComparison.deltaBranchRate c) zero)];
    destruct (0 <? length (CoverageComparison.filesAdded c))%nat;
    destruct (0 <? length (CoverageComparison.filesRemoved c))%nat; reflexivity.
Qed.

Lemma headlines_differ :
  improved_text <> decreased_text /\ improved_text <> unchanged_text
  /\ decreased_text <> unchanged_text.
Proof. repeat split; vm_compute; discriminate. Qed.

Lemma getSummary_parts_length show c :
  length (getSummary_parts show c)
  = (3 + (if CoverageComparison.filesAdded c is [] then 0 else 1)
     + (if CoverageComparison.filesRemoved c is [] then 0 else 1))%nat.
Proof.
  unfold getSummary_parts. cbv zeta.
  destruct (CoverageComparison.improvement c);
    [|destruct (lt (CoverageComparison.deltaLineRate c) zero
                || lt (CoverageComparison.deltaBranchRate c) zero)];
    destruct (CoverageComparison.filesAdded c);
    destruct (CoverageComparison.filesRemoved c); reflexivity.
Qed.

Lemma unchanged_iff_zero dl db :
  dl <> NaN -> db <> NaN ->
  (gt dl zero || strict_eq dl zero && gt db zero = false
   /\ lt dl zero || lt db zero = false)
  <-> strict_eq dl zero = true /\ strict_eq db zero = true.
Proof.
  intros Hl Hb.
  destruct dl as [[]|[]| |[] ml el]; try (exfalso; apply Hl; reflexivity);
    destruct db as [[]|[]| |[] mb eb]; try (exfalso; apply Hb; reflexivity);
    cbn; split; intros [? ?]; try discriminate; split; reflexivity.
Qed.

(** X15.  The headline of the summary of a comparison says improved
    exactly when the improvement flag is set, and decreased exactly when
    it is not and one of the rounded rate deltas is negative.  When
    neither delta is NaN it says unchanged exactly when both are zero;
    two NaN deltas also read as unchanged.  The summary has the headline
    and the two rates, then one part for the added files and one for the
    removed files when there are any. *)
Theorem getSummary_headline
    (show : number -> jsstring) (base current : AggregatedCoverageResults.t)
    (options : option CompareOptions.t) :
  let c := compareResults base current options in
  let dl := CoverageComparison.deltaLineRate c in
  let db := CoverageComparison.deltaBranchRate c in
  (headline show c = Some improved_text <-> CoverageComparison.improvement c = true)
  /\ (headline show c = Some decreased_text
      <-> CoverageComparison.improvement c = false
          /\ (lt dl zero = true \/ lt db zero = true))
  /\ (dl <> NaN -> db <> NaN ->
      (headline show c = Some unchanged_text
       <-> strict_eq dl zero = true /\ strict_eq db zero = true))
  /\ (dl = NaN -> db = NaN -> headline show c = Some unchanged_text)
  /\ length (getSummary_parts show c)
     = (3 + (if CoverageComparison.filesAdded c is [] then 0 else 1)
        + (if CoverageComparison.filesRemoved c is [] then 0 else 1))%nat.
Proof.
  cbv zeta.
  destruct headlines_differ as (Hid & Hiu & Hdu).
  pose proof (compareResults_improvement base current options) as Himp. cbv zeta in Himp.
  set (c := compareResults base current options) in *.
  rewrite headline_eq.
  split; [|split; [|split; [|split]]].
  - destruct (CoverageComparison.improvement c); [split; reflexivity|].
    destruct (lt (CoverageComparison.deltaLineRate c) zero
              || lt (CoverageComparison.deltaBranchRate c) zero);
      split; try discriminate; intros [= Heq]; congruence.
  - destruct (CoverageComparison.improvement c).
    + split; [intros [= Heq]; congruence|intros [? _]; discriminate].
    + destruct (lt (CoverageComparison.deltaLineRate c) zero) eqn:Hl;
        [|destruct (lt (CoverageComparison.deltaBranchRate c) zero) eqn:Hb]; cbn [orb].
      * split; [intros _; split; [reflexivity|left; reflexivity]|reflexivity].
      * split; [intros _; split; [reflexivity|right; reflexivity]|reflexivity].
      * split; [intros [= Heq]; congruence|intros [_ [?|?]]; discriminate].
  - intros Hl Hb. rewrite <- (unchanged_iff_zero _ _ Hl Hb), <- Himp.
    destruct (CoverageComparison.improvement c).
    + split; [intros [= Heq]; congruence|intros [? _]; discriminate].
    + destruct (lt (CoverageComparison.deltaLineRate c) zero
                || lt (CoverageComparison.deltaBranchRate c) zero).
      * split; [intros [= Heq]; congruence|intros [_ ?]; discriminate].
      * split; [intros _; split; reflexivity|reflexivity].
  - intros Hl Hb. rewrite Himp, Hl, Hb. reflexivity.
  - apply getSummary_parts_length.
Qed.

(** The sample summary against itself: both deltas are zero and the
    headline says unchanged. *)
Lemma getSummary_headline_witness :
  let c := compareResults sample_current sample_current None in
  CoverageComparison.deltaLineRate c <> NaN
  /\ CoverageComparison.deltaBranchRate c <> NaN
  /\ strict_eq (CoverageComparison.deltaLineRate c) zero = true
  /\ strict_eq (CoverageComparison.deltaBranchRate c) zero = true
  /\ headline (fun _ => []) c = Some unchanged_text.
Proof.
  cbv zeta.
  assert (Hl : CoverageComparison.deltaLineRate
                 (compareResults sample_current sample_current None) <> NaN)
    by (vm_compute; discriminate).
  assert (Hb : CoverageComparison.deltaBranchRate
                 (compareResults sample_current sample_current None) <> NaN)
    by (vm_compute; discriminate).
  assert (Hzl : strict_eq (CoverageComparison.deltaLineRate
                             (compareResults sample_current sample_current None)) zero
                = true) by (vm_compute; reflexivity).
  assert (Hzb : strict_eq (CoverageComparison.deltaBranchRate
                             (compareResults sample_current sample_current None)) zero
                = true) by (vm_compute; reflexivity).
  split; [exact Hl|]. split; [exact Hb|]. split; [exact Hzl|]. split; [exact Hzb|].
  exact (proj2 (proj1 (proj2 (proj2 (getSummary_headline (fun _ => []) sample_current
                                       sample_current None))) Hl Hb)
           (conj Hzl Hzb)).
Defined.

(** ** Which documents parse *)

Lemma parseFile_internal_inr fileElement :
  (exists f, parseFile_internal fileElement = inr f)
  <-> is_Some (FileElement.metrics fileElement).
Proof.
  unfold parseFile_internal, parseMetrics.
  destruct (FileElement.metrics fileElement) as [attrs|].
  - split; [intros _; eauto|intros _; eexists; reflexivity].
  - split; [intros [f Hf]; discriminate|intros [x Hx]; discriminate].
Qed.

Lemma parseFiles_inr projectFiles :
  (exists files, parseFiles projectFiles = inr files)
  <-> Forall (fun fileElement => is_Some (FileElement.metrics fileElement)) projectFiles.
Proof.
  induction projectFiles as [|fe rest IH]; simpl.
  - split; [intros _; constructor|intros _; eauto].
  - rewrite Forall_cons, <- IH, <- parseFile_internal_inr.
    destruct (parseFile_internal fe) as [e|f].
    + split; [intros [fs Hfs]; discriminate|intros [[f Hf] _]; discriminate].
    + destruct (parseFiles rest) as [e|fs].
      * split; [intros [fs Hfs]; discriminate|intros [_ [fs Hfs]]; discriminate].
      * split; [intros _; eauto|intros _; eauto].
Qed.

Lemma parseFiles_Forall2 projectFiles files :
  parseFiles projectFiles = inr files ->
  Forall2 (fun fileElement f => parseFile_internal fileElement = inr f) projectFiles files.
Proof.
  revert files. induction projectFiles as [|fe rest IH]; intros files; simpl.
  - intros [= <-]. constructor.
  - destruct (parseFile_internal fe) as [e|f] eqn:Hf; [discriminate|].
    destruct (parseFiles rest) as [e|fs]; [discriminate|].
    intros [= <-]. constructor; [exact Hf|apply IH; reflexivity].
Qed.

Lemma parseFile_internal_path fileElement f :
  parseFile_internal fileElement = inr f ->
  FileCoverage.path f = str_or (FileElement.path fileElement) []
  /\ FileCoverage.name f = str_or (FileElement.name fileElement) []
  /\ length (FileCoverage.lines f) = length (as_array (FileElement.line fileElement)).
Proof.
  unfold parseFile_internal.
  destruct (parseMetrics (FileElement.metrics fileElement)); [discriminate|].
  intros [= <-]. simpl. rewrite length_fmap. auto.
Qed.

(** X16.  A decoded document parses exactly when it has a coverage
    element with a project whose metrics are present and every file
    element of the project has metrics too; one file element without
    metrics makes the whole document fail.  When it parses, the result
    holds one file per file element, in document order, each with the
    path and name of its element (empty when the attribute is missing)
    and one line entry per line element. *)
Theorem parseXML_succeeds_iff_well_formed (result : XmlResult.t) :
  ((exists r, parseXML result = inr r) <-> well_formed result)
  /\ (forall r, parseXML result = inr r ->
        Forall2 (fun fileElement f =>
                   parseFile_internal fileElement = inr f
                   /\ FileCoverage.path f = str_or (FileElement.path fileElement) []
                   /\ FileCoverage.name f = str_or (FileElement.name fileElement) []
                   /\ length (FileCoverage.lines f)
                      = length (as_array (FileElement.line fileElement)))
          (file_elements result) (CoverageResults.files r)).
Proof.
  unfold well_formed, file_elements, parseXML. split.
  - destruct (XmlResult.coverage result) as [coverage|]; simpl.
    2:{ split; [intros [r Hr]; discriminate|intros (c & p & Hc & _); discriminate]. }
    destruct (CoverageElement.project coverage) as [project|] eqn:Hproject; simpl.
    2:{ split; [intros [r Hr]; discriminate|].
        intros (c & p & [= <-] & Hp & _). congruence. }
    pose proof (parseFiles_inr (as_array (ProjectElement.file project))) as Hfiles.
    destruct (ProjectElement.metrics project) as [attrs|] eqn:Hmetrics; simpl.
    2:{ split; [intros [r Hr]; discriminate|].
        intros (c & p & [= <-] & Hp & [x Hx] & _).
        rewrite Hproject in Hp. injection Hp as <-. congruence. }
    destruct (parseFiles (as_array (ProjectElement.file project))) as [e|fs].
    + split; [intros [r Hr]; discriminate|].
      intros (c & p & [= <-] & Hp & _ & Hall).
      rewrite Hproject in Hp. injection Hp as <-.
      apply Hfiles in Hall as [fs Hfs]. discriminate.
    + split; [|intros _; eauto].
      intros _. exists coverage, project.
      split; [reflexivity|]. split; [exact Hproject|].
      split; [rewrite Hmetrics; eauto|]. apply Hfiles. eauto.
  - intros r.
    destruct (XmlResult.coverage result) as [coverage|]; simpl; [|discriminate].
    destruct (CoverageElement.project coverage) as [project|]; simpl; [|discriminate].
    destruct (parseMetrics (ProjectElement.metrics project)); [discriminate|].
    destruct (parseFiles (as_array (ProjectElement.file project))) as [e|fs] eqn:Hfs;
      [discriminate|].
    intros [= <-]. simpl.
    apply parseFiles_Forall2 in Hfs.
    eapply Forall2_impl; [exact Hfs|].
    intros fe f Hf. split; [exact Hf|]. apply parseFile_internal_path, Hf.
Qed.

(** The sample document parses into one file per file element; a
    document whose only file element has no metrics does not parse. *)
Lemma parseXML_succeeds_iff_well_formed_witness :
  parseXML sample_xml = inr sample_parsed
  /\ length (CoverageResults.files sample_parsed) = length (file_elements sample_xml)
  /\ ~ well_formed broken_document.
Proof.
  assert (Hparse : parseXML sample_xml = inr sample_parsed) by (vm_compute; reflexivity).
  split; [exact Hparse|]. split.
  - symmetry.
    exact (Forall2_length _ _ _
             (proj2 (parseXML_succeeds_iff_well_formed sample_xml) sample_parsed Hparse)).
  - intros Hwf.
    apply (proj1 (parseXML_succeeds_iff_well_formed broken_document)) in Hwf as [r Hr].
    vm_compute in Hr. discriminate.
Defined.

(** ** From one document to the summary *)

Lemma add_zero_l x :
  add zero x = match x with S754_zero _ => zero | _ => x end.
Proof. destruct x as [[]|[]| |[] m e]; reflexivity. Qed.

Lemma add_zero_same_value x : same_value_zero (add zero x) x.
Proof.
  rewrite add_zero_l. destruct x as [s|s| |s m e]; try (left; reflexivity).
  right. eauto.
Qed.

Lemma rate_after_add_zero covered total :
  (if gt (add zero total) zero
   then round2 (mul (div (add zero covered) (add zero total)) hundred)
   else zero)
  = (if gt total zero then round2 (mul (div covered total) hundred) else zero).
Proof.
  rewrite !add_zero_l.
  destruct total as [[]|[]| |[] mt et]; try reflexivity;
    destruct covered as [[]|[]| |[] mc ec]; reflexivity.
Qed.

Lemma parseMetrics_rates attrs m :
  parseMetrics attrs = inr m ->
  CoverageMetrics.lineRate m
  = (if gt (CoverageMetrics.statements m) zero
     then round2 (mul (div (CoverageMetrics.coveredStatements m)
                         (CoverageMetrics.statements m)) hundred)
     else zero)
  /\ CoverageMetrics.branchRate m
     = (if gt (CoverageMetrics.conditionals m) zero
        then round2 (mul (div (CoverageMetrics.coveredConditionals m)
                            (CoverageMetrics.conditionals m)) hundred)
        else zero).
Proof.
  destruct attrs as [a|]; [|discriminate].
  intros [= <-]. split; reflexivity.
Qed.

(** X17.  Aggregating the one document a run produced gives back the
    rates the parser computed for its project, the same files, and the
    project counters (a negative zero becomes zero). *)
Theorem aggregate_single_document (document : XmlResult.t) (r : CoverageResults.t) :
  parseXML document = inr r ->
  let a := aggregateResults [r] in
  let m := CoverageResults.metrics r in
  AggregatedCoverageResults.lineRate a = CoverageMetrics.lineRate m
  /\ AggregatedCoverageResults.branchRate a = CoverageMetrics.branchRate m
  /\ AggregatedCoverageResults.files a = CoverageResults.files r
  /\ same_value_zero (AggregatedCoverageResults.totalStatements a)
       (CoverageMetrics.statements m)
  /\ same_value_zero (AggregatedCoverageResults.coveredStatements a)
       (CoverageMetrics.coveredStatements m)
  /\ same_value_zero (AggregatedCoverageResults.totalConditionals a)
       (CoverageMetrics.conditionals m)
  /\ same_value_zero (AggregatedCoverageResults.coveredConditionals a)
       (CoverageMetrics.coveredConditionals m)
  /\ same_value_zero (AggregatedCoverageResults.totalMethods a)
       (CoverageMetrics.methods m)
  /\ same_value_zero (AggregatedCoverageResults.coveredMethods a)
       (CoverageMetrics.coveredMethods m).
Proof.
  intros Hparse. cbv zeta.
  assert (Hrates : exists attrs, parseMetrics attrs = inr (CoverageResults.metrics r)).
  { unfold parseXML in Hparse.
    destruct (XmlResult.coverage document) as [coverage|]; [|discriminate].
    destruct (CoverageElement.project coverage) as [project|]; [|discriminate].
    destruct (parseMetrics (ProjectElement.metrics project)) as [e|m] eqn:Hm;
      [discriminate|].
    destruct (parseFiles (as_array (ProjectElement.file project))); [discriminate|].
    injection Hparse as <-. eauto. }
  destruct Hrates as [attrs Hm]. apply parseMetrics_rates in Hm as [Hline Hbranch].
  unfold aggregateResults. cbn [fold_left aggregate_step acc_totalStatements
    acc_coveredStatements acc_totalConditionals acc_coveredConditionals acc_totalMethods
    acc_coveredMethods acc_allFiles AggregatedCoverageResults.lineRate
    AggregatedCoverageResults.branchRate AggregatedCoverageResults.files
    AggregatedCoverageResults.totalStatements AggregatedCoverageResults.coveredStatements
    AggregatedCoverageResults.totalConditionals
    AggregatedCoverageResults.coveredConditionals AggregatedCoverageResults.totalMethods
    AggregatedCoverageResults.coveredMethods app].
  rewrite !rate_after_add_zero, <- Hline, <- Hbranch.
  repeat split; apply add_zero_same_value.
Qed.

(** The sample document on its own. *)
Lemma aggregate_single_document_witness :
  parseXML sample_xml = inr sample_parsed
  /\ AggregatedCoverageResults.lineRate (aggregateResults [sample_parsed])
     = CoverageMetrics.lineRate (CoverageResults.metrics sample_parsed).
Proof.
  assert (Hparse : parseXML sample_xml = inr sample_parsed) by (vm_compute; reflexivity).
  split; [exact Hparse|].
  exact (proj1 (aggregate_single_document sample_xml sample_parsed Hparse)).
Defined.

(** ** What the log says at the end of a retrieval *)

Section RetrievalLog.
Context {W : Type} `{Platform W}.
Implicit Types (self : ArtifactManager.t) (st : state W).

Lemma extractAndRead_logged file what zipPath extractDir st :
  match extractAndRead file what zipPath extractDir st with
  | (inl _, _) => False
  | (inr None, st') => exists msg, last (log st') = Some (LogWarning msg)
  | (inr (Some _), st') => last (log st') = Some (LogInfo (extracted_successfully what))
  end.
Proof.
  unfold extractAndRead, try_catch, bind, call, observe, pure_call,
    core_warning, core_info, ret. simpl.
  destruct (zip_extractAllTo zipPath extractDir (world st)) as [[e|[]] w1]; simpl;
    [rewrite last_snoc; eauto|].
  destruct (fs_existsSync (path_join extractDir file) w1); simpl;
    [|rewrite last_snoc; eauto].
  destruct (fs_readFileSync (path_join extractDir file) w1) as [[e|text] w2]; simpl;
    [rewrite last_snoc; eauto|].
  destruct (JSON_parse text) as [e|parsed]; simpl;
    [rewrite last_snoc; eauto|].
  rewrite last_snoc. reflexivity.
Qed.

Lemma fetch_artifact_logged self baseBranch names tmp_prefix file what artifact st :
  outcome_logged baseBranch names what
    (fetch_artifact self tmp_prefix (extractAndRead file what) artifact st).
Proof.
  unfold outcome_logged, fetch_artifact, bind, call, sent, ret. simpl.
  destruct (octokit_downloadArtifact _ _ _ (world st)) as [[e|download] w1]; simpl;
    [exact I|].
  destruct (fs_mkdtempSync _ w1) as [[e|tmpDir] w2]; simpl; [exact I|].
  destruct (fs_writeFileSync _ _ w2) as [[e|[]] w3]; simpl; [exact I|].
  match goal with
  | |- context [extractAndRead file what ?z ?t ?s] =>
      pose proof (extractAndRead_logged file what z t s) as Hlog;
      destruct (extractAndRead file what z t s) as [[e|r] st3]
  end; simpl; [exact I|].
  destruct (fs_unlinkSync _ (world st3)) as [[e|[]] w4]; simpl; [exact I|].
  destruct (fs_rmSync_recursive _ w4) as [[e|[]] w5]; simpl; [exact I|].
  destruct r as [v|]; [exact Hlog|left; exact Hlog].
Qed.

Lemma scan_runs_logged self baseBranch tmp_prefix file what names runs st :
  outcome_logged baseBranch names what
    (scan_runs self what tmp_prefix (extractAndRead file what) names runs st).
Proof.
  revert st. induction runs as [|run rest IH]; intros st.
  - unfold outcome_logged. simpl. unfold bind, core_info, ret. simpl.
    right. right. rewrite last_snoc. reflexivity.
  - cbn [scan_runs]. unfold bind at 1. unfold sent at 1. cbv beta iota.
    unfold bind at 1. unfold call at 1. cbn [world heap log events].
    destruct (octokit_listWorkflowRunArtifacts _ _ _ (world st)) as [[e|artifacts] w1];
      [exact I|].
    destruct (first_match names artifacts) as [[n a]|]; [|apply IH].
    unfold bind at 1. unfold core_info at 1. cbv beta iota.
    apply fetch_artifact_logged.
Qed.

Lemma try_catch_logged baseBranch names what
    (body : M W (option jsval)) (handler : thrown -> M W (option jsval)) st :
  (forall st1, outcome_logged baseBranch names what (body st1)) ->
  (forall e st1, (handler e st1).1 = inr None
                 /\ exists msg, last (log (handler e st1).2) = Some (LogWarning msg)) ->
  outcome_logged baseBranch names what (try_catch body handler st).
Proof.
  intros Hbody Hhandler. unfold try_catch.
  specialize (Hbody st). unfold outcome_logged in *.
  destruct (body st) as [[e|r] st1]; simpl in *; [|exact Hbody].
  destruct (Hhandler e st1) as [-> Hlast]. left. exact Hlast.
Qed.

Lemma bind_logged {A} baseBranch names what (m : M W A) (k : A -> M W (option jsval)) st :
  (forall a st1, outcome_logged baseBranch names what (k a st1)) ->
  outcome_logged baseBranch names what (bind m k st).
Proof.
  intros Hk. unfold bind. destruct (m st) as [[e|a] st1]; [exact I|apply Hk].
Qed.

Lemma downloadBaseCoverageResults_logged self baseBranch flags name st :
  outcome_logged baseBranch (coverage_artifact_names baseBranch flags name)
    (lit "coverage") (downloadBaseCoverageResults self baseBranch flags name st).
Proof.
  unfold downloadBaseCoverageResults. cbv zeta.
  apply try_catch_logged.
  - intros st1. apply bind_logged. intros _ st2.
    apply bind_logged. intros _ st3.
    apply bind_logged. intros [|run runs] st4.
    + unfold outcome_logged, bind, core_info, ret. simpl.
      right. left. rewrite last_snoc. reflexivity.
    + apply scan_runs_logged.
  - intros e st1. unfold bind, core_warning, ret. simpl.
    split; [reflexivity|]. rewrite last_snoc. eauto.
Qed.

Lemma downloadBaseResults_logged self baseBranch name st :
  outcome_logged baseBranch (test_artifact_names baseBranch name)
    (lit "test") (downloadBaseResults self baseBranch name st).
Proof.
  unfold downloadBaseResults. cbv zeta.
  apply try_catch_logged.
  - intros st1. apply bind_logged. intros _ st2.
    apply bind_logged. intros [|run runs] st3.
    + unfold outcome_logged, bind, core_info, ret. simpl.
      right. left. rewrite last_snoc. reflexivity.
    + apply scan_runs_logged.
  - intros e st1. unfold bind, core_warning, ret. simpl.
    split; [reflexivity|]. rewrite last_snoc. eauto.
Qed.

(** X18.  A retrieval always leaves its reason in the log.  When it
    gives up (it returns through a [return null], not with a parsed
    file) the last message is a warning, or the information that the
    base branch has no successful run, or that no recent run holds an
    artifact under the first candidate name; when it returns what it
    parsed from an archive the last message is the information that the
    base results were downloaded and extracted. *)
Theorem retrieval_logs_its_outcome
    (self : ArtifactManager.t) (baseBranch : jsstring) (flags : option (list jsstring))
    (name : option jsstring) (st : state W) :
  let coverage := downloadBaseCoverageResults self baseBranch flags name st in
  let tests := downloadBaseResults self baseBranch name st in
  (coverage.1 = inr None ->
   says_why_null baseBranch (coverage_artifact_names baseBranch flags name)
     (log coverage.2))
  /\ (forall v, coverage.1 = inr (Some v) ->
        last (log coverage.2) = Some (LogInfo (extracted_successfully (lit "coverage"))))
  /\ (tests.1 = inr None ->
      says_why_null baseBranch (test_artifact_names baseBranch name) (log tests.2))
  /\ (forall v, tests.1 = inr (Some v) ->
        last (log tests.2) = Some (LogInfo (extracted_successfully (lit "test")))).
Proof.
  cbv zeta.
  pose proof (downloadBaseCoverageResults_logged self baseBranch flags name st) as Hc.
  pose proof (downloadBaseResults_logged self baseBranch name st) as Ht.
  unfold outcome_logged in Hc, Ht.
  split; [|split; [|split]].
  - intros Hnull. rewrite Hnull in Hc. exact Hc.
  - intros v Hsome. rewrite Hsome in Hc. exact Hc.
  - intros Hnull. rewrite Hnull in Ht. exact Ht.
  - intros v Hsome. rewrite Hsome in Ht. exact Ht.
Qed.

(** X19.  The artifact names keep of a branch only what
    [sanitizeBranchName] keeps: two branches that sanitize to the same
    text get the same names in both schemes and the same candidate
    lists, so the results uploaded for one are found by a retrieval for
    the other.  Every branch name with a character outside the kept set
    has such a twin. *)
Theorem branches_can_share_artifacts
    (b1 b2 type : jsstring) (flags : option (list jsstring)) (name : option jsstring) :
  (same_after_sanitizing b1 b2 ->
   getArtifactName b1 type flags name = getArtifactName b2 type flags name
   /\ getLegacyArtifactName b1 type flags name = getLegacyArtifactName b2 type flags name
   /\ coverage_artifact_names b1 flags name = coverage_artifact_names b2 flags name
   /\ test_artifact_names b1 name = test_artifact_names b2 name)
  /\ (~ clean_name b1 ->
      sanitizeBranchName b1 <> b1 /\ same_after_sanitizing (sanitizeBranchName b1) b1).
Proof.
  unfold same_after_sanitizing. split.
  - intros Hsame.
    unfold coverage_artifact_names, test_artifact_names, getArtifactName,
      getLegacyArtifactName. cbv zeta. rewrite Hsame. auto.
  - intros Hdirty. split.
    + intros Hfixed. apply Hdirty, sanitizeBranchName_fixed, Hfixed.
    + apply sanitizeBranchName_fixed, sanitizeBranchName_clean_name.
Qed.

End RetrievalLog.

(** The retrieval that falls back to the legacy name ends with the
    message of a successful extraction. *)
Lemma retrieval_logs_its_outcome_witness :
  let p := Mock.platform legacy_only in
  let out := downloadBaseCoverageResults sample_manager (lit "main") (Some [lit "unit"])
               None (Mock.start ∅) in
  out.1 = inr (Some (JObject [("lineRate", JNumber (of_Z 80))]))
  /\ last (log out.2) = Some (LogInfo (extracted_successfully (lit "coverage"))).
Proof.
  cbv zeta.
  assert (Hsome : (downloadBaseCoverageResults (H := Mock.platform legacy_only)
                     sample_manager (lit "main") (Some [lit "unit"]) None
                     (Mock.start ∅)).1
                  = inr (Some (JObject [("lineRate", JNumber (of_Z 80))])))
    by (vm_compute; reflexivity).
  split; [exact Hsome|].
  exact (proj1 (proj2 (retrieval_logs_its_outcome (H := Mock.platform legacy_only)
                         sample_manager (lit "main") (Some [lit "unit"]) None
                         (Mock.start ∅)))
           (JObject [("lineRate", JNumber (of_Z 80))]) Hsome).
Defined.

(** [feature/x] and [feature-x] share their artifact names. *)
Lemma branches_can_share_artifacts_witness :
  let p := Mock.platform healthy in
  same_after_sanitizing (lit "feature/x") (lit "feature-x")
  /\ ~ clean_name (lit "feature/x")
  /\ getArtifactName (lit "feature/x") (lit "coverage") None None
     = getArtifactName (lit "feature-x") (lit "coverage") None None
  /\ sanitizeBranchName (lit "feature/x") <> lit "feature/x".
Proof.
  cbv zeta.
  assert (Hsame : same_after_sanitizing (lit "feature/x") (lit "feature-x"))
    by reflexivity.
  assert (Hdirty : ~ clean_name (lit "feature/x")).
  { intros Hclean. apply sanitizeBranchName_fixed in Hclean. vm_compute in Hclean.
    discriminate. }
  split; [exact Hsame|]. split; [exact Hdirty|]. split.
  - exact (proj1 (proj1 (branches_can_share_artifacts (H := Mock.platform healthy)
                           (lit "feature/x") (lit "feature-x") (lit "coverage") None None)
                    Hsame)).
  - exact (proj1 (proj2 (branches_can_share_artifacts (H := Mock.platform healthy)
                           (lit "feature/x") (lit "feature-x") (lit "coverage") None None)
                    Hdirty)).
Defined.

(** On the sample platform the archive unpacks and its results file
    parses. *)
Lemma extractAndRead_parses_or_warns_witness :
  let p := Mock.platform legacy_only in
  let v := JObject [("lineRate", JNumber (of_Z 80))] in
  parsed_from (lit "coverage-results.json") (lit "/tmp/x/artifact.zip") (lit "/tmp/x")
    tt v
  /\ (extractAndReadCoverageResults (lit "/tmp/x/artifact.zip") (lit "/tmp/x")
        (Mock.start ∅)).1 = inr (Some v).
Proof.
  cbv zeta.
  assert (Hparsed : parsed_from (H := Mock.platform legacy_only)
                      (lit "coverage-results.json") (lit "/tmp/x/artifact.zip")
                      (lit "/tmp/x") tt (JObject [("lineRate", JNumber (of_Z 80))]))
    by (exists tt, (lit "{}"), tt; repeat split; reflexivity).
  split; [exact Hparsed|].
  exact (proj2 (proj1 (proj2 (proj2 (extractAndRead_parses_or_warns
                                       (H := Mock.platform legacy_only)
                                       (lit "/tmp/x/artifact.zip") (lit "/tmp/x")
                                       (Mock.start ∅))))
                  (JObject [("lineRate", JNumber (of_Z 80))]))
           Hparsed).
Defined.


(** ** The kind of results in the name *)

Lemma with_qualifiers_prefix artifactName flags name :
  exists suffix, with_qualifiers artifactName flags name = artifactName ++ suffix.
Proof.
  unfold with_qualifiers.
  destruct name as [[|c n]|]; destruct flags as [[|f fs]|]; cbn [str_truthy];
    first [ exists []; rewrite app_nil_r; reflexivity
          | eexists; rewrite <- ?app_assoc; reflexivity ].
Qed.

Section KindPrefix.
Context {W : Type} `{Platform W}.

Lemma getArtifactName_prefix branchName type flags name :
  exists tail,
    getArtifactName branchName type flags name
    = lit "codecov-" ++ type ++ lit "-results-" ++ tail.
Proof.
  unfold getArtifactName. cbv zeta.
  match goal with
  | |- context [with_qualifiers ?a flags name] =>
      destruct (with_qualifiers_prefix a flags name) as [suffix ->]
  end.
  eexists. rewrite <- !app_assoc. reflexivity.
Qed.

Lemma getLegacyArtifactName_prefix branchName type flags name :
  exists tail,
    getLegacyArtifactName branchName type flags name
    = lit "codecov-" ++ type ++ lit "-results-" ++ tail.
Proof.
  unfold getLegacyArtifactName. cbv zeta.
  match goal with
  | |- context [with_qualifiers ?a flags name] =>
      destruct (with_qualifiers_prefix a flags name) as [suffix ->]
  end.
  eexists. rewrite <- !app_assoc. reflexivity.
Qed.

(** X20.  Every candidate of a coverage retrieval starts with
    [codecov-coverage-results-] and every candidate of a test retrieval
    with [codecov-test-results-].  The name the first artifact manager
    used, [codecov-results-] followed by the branch, is therefore never a
    candidate, for any pair of branches: results stored by that version
    are not found. *)
Theorem oldest_names_are_never_candidates
    (baseBranch : jsstring) (flags : option (list jsstring)) (name : option jsstring) :
  (forall n, n ∈ coverage_artifact_names baseBranch flags name ->
             starts_with (lit "codecov-coverage-results-") n = true)
  /\ (forall n, n ∈ test_artifact_names baseBranch name ->
                starts_with (lit "codecov-test-results-") n = true)
  /\ (forall branchName,
        (Oldest.getArtifactName branchName
         ∉ coverage_artifact_names baseBranch flags name)
        /\ (Oldest.getArtifactName branchName ∉ test_artifact_names baseBranch name)).
Proof.
  assert (Hcoverage : forall n, n ∈ coverage_artifact_names baseBranch flags name ->
                        starts_with (lit "codecov-coverage-results-") n = true).
  { intros n Hn. unfold coverage_artifact_names in Hn. cbv zeta in Hn.
    apply set_spread_facts in Hn.
    repeat (apply elem_of_cons in Hn as [->|Hn]);
      [| | | |apply elem_of_nil in Hn; contradiction].
    - destruct (getArtifactName_prefix baseBranch (lit "coverage") flags name)
        as [tail ->].
      apply (starts_with_app (lit "codecov-coverage-results-") tail).
    - destruct (getArtifactName_prefix baseBranch (lit "coverage") None None)
        as [tail ->].
      apply (starts_with_app (lit "codecov-coverage-results-") tail).
    - destruct (getLegacyArtifactName_prefix baseBranch (lit "coverage") flags name)
        as [tail ->].
      apply (starts_with_app (lit "codecov-coverage-results-") tail).
    - destruct (getLegacyArtifactName_prefix baseBranch (lit "coverage") None None)
        as [tail ->].
      apply (starts_with_app (lit "codecov-coverage-results-") tail). }
  assert (Htest : forall n, n ∈ test_artifact_names baseBranch name ->
                    starts_with (lit "codecov-test-results-") n = true).
  { intros n Hn. unfold test_artifact_names in Hn. cbv zeta in Hn.
    apply set_spread_facts in Hn.
    repeat (apply elem_of_cons in Hn as [->|Hn]);
      [| | | |apply elem_of_nil in Hn; contradiction].
    - destruct (getArtifactName_prefix baseBranch (lit "test") None name) as [tail ->].
      apply (starts_with_app (lit "codecov-test-results-") tail).
    - destruct (getArtifactName_prefix baseBranch (lit "test") None None) as [tail ->].
      apply (starts_with_app (lit "codecov-test-results-") tail).
    - destruct (getLegacyArtifactName_prefix baseBranch (lit "test") None name)
        as [tail ->].
      apply (starts_with_app (lit "codecov-test-results-") tail).
    - destruct (getLegacyArtifactName_prefix baseBranch (lit "test") None None)
        as [tail ->].
      apply (starts_with_app (lit "codecov-test-results-") tail). }
  split; [exact Hcoverage|]. split; [exact Htest|].
  intros branchName. split.
  - intros Hin. apply Hcoverage in Hin. discriminate.
  - intros Hin. apply Htest in Hin. discriminate.
Qed.

End KindPrefix.

(** The candidates for [main] on the sample platform. *)
Lemma oldest_names_are_never_candidates_witness :
  let p := Mock.platform healthy in
  (lit "codecov-coverage-results-main" ∈ coverage_artifact_names (lit "main") None None)
  /\ starts_with (lit "codecov-coverage-results-") (lit "codecov-coverage-results-main")
     = true
  /\ (Oldest.getArtifactName (lit "main")
      ∉ coverage_artifact_names (lit "main") None None).
Proof.
  cbv zeta.
  assert (Hin : lit "codecov-coverage-results-main"
                ∈ coverage_artifact_names (H := Mock.platform healthy) (lit "main")
                    None None).
  { apply (bool_decide_unpack
             (lit "codecov-coverage-results-main"
              ∈ coverage_artifact_names (H := Mock.platform healthy) (lit "main")
                  None None)).
    vm_compute. exact I. }
  split; [exact Hin|]. split.
  - exact (proj1 (oldest_names_are_never_candidates (H := Mock.platform healthy)
                    (lit "main") None None) _ Hin).
  - exact (proj1 (proj2 (proj2 (oldest_names_are_never_candidates
                                  (H := Mock.platform healthy) (lit "main") None None))
                    (lit "main"))).
Defined.

(** * The retrieval, run by run *)

Section ScanSteps.
Context {W : Type} `{Platform W}.
Implicit Types (self : ArtifactManager.t) (st : state W).

Lemma artifact_listings_app runs runs' :
  artifact_listings (runs ++ runs') = artifact_listings runs ++ artifact_listings runs'.
Proof. unfold artifact_listings. rewrite !fmap_app. reflexivity. Qed.

Lemma scan_runs_skip self what tmp_prefix extract names skipped rest st w1 :
  scanned_without_hit self names skipped (world st) = Some w1 ->
  scan_runs self what tmp_prefix extract names (skipped ++ rest) st
  = scan_runs self what tmp_prefix extract names rest
      (mkState w1 (heap st) (log st) (events st ++ artifact_listings skipped)).
Proof.
  revert st. induction skipped as [|run skipped IH]; intros st Hscan.
  - injection Hscan as <-. cbn [app artifact_listings fmap list_fmap].
    rewrite app_nil_r. destruct st; reflexivity.
  - cbn [scanned_without_hit] in Hscan.
    destruct (octokit_listWorkflowRunArtifacts (ArtifactManager.owner self)
                (ArtifactManager.repo self) (WorkflowRun.id run) (world st))
      as [[e|artifacts] w'] eqn:Hlist; [discriminate|].
    destruct (first_match names artifacts) as [hit|] eqn:Hmatch; [discriminate|].
    cbn [app scan_runs]. unfold bind at 1. unfold sent at 1. cbv beta iota.
    unfold bind at 1. unfold call at 1. cbn [world heap log events].
    rewrite Hlist, Hmatch.
    rewrite (IH (mkState w' (heap st) (log st)
                   (events st ++ [EvListArtifacts (WorkflowRun.id run)])) Hscan).
    cbn [world heap log events]. unfold artifact_listings.
    cbn [fmap list_fmap]. rewrite <- app_assoc. reflexivity.
Qed.

Lemma scan_runs_request_fails self what tmp_prefix extract names run rest st e w2 :
  octokit_listWorkflowRunArtifacts (ArtifactManager.owner self)
    (ArtifactManager.repo self) (WorkflowRun.id run) (world st) = (inl e, w2) ->
  scan_runs self what tmp_prefix extract names (run :: rest) st
  = (inl e, mkState w2 (heap st) (log st)
              (events st ++ [EvListArtifacts (WorkflowRun.id run)])).
Proof.
  intros Hlist. cbn [scan_runs]. unfold bind at 1. unfold sent at 1. cbv beta iota.
  unfold bind at 1. unfold call at 1. cbn [world heap log events].
  rewrite Hlist. reflexivity.
Qed.

Lemma scan_runs_hit self what tmp_prefix extract names run rest st artifacts w2 n a :
  octokit_listWorkflowRunArtifacts (ArtifactManager.owner self)
    (ArtifactManager.repo self) (WorkflowRun.id run) (world st) = (inr artifacts, w2) ->
  first_match names artifacts = Some (n, a) ->
  exists msg,
    scan_runs self what tmp_prefix extract names (run :: rest) st
    = fetch_artifact self tmp_prefix extract a
        (mkState w2 (heap st) (log st ++ [LogInfo msg])
           (events st ++ [EvListArtifacts (WorkflowRun.id run)])).
Proof.
  intros Hlist Hmatch. eexists.
  cbn [scan_runs]. unfold bind at 1. unfold sent at 1. cbv beta iota.
  unfold bind at 1. unfold call at 1. cbn [world heap log events].
  rewrite Hlist, Hmatch. reflexivity.
Qed.

(** Where a scan stops: after runs without a hit, at the end of the
    list, at a request that fails, or at a hit. *)
Lemma scan_stops self names runs w :
  exists skipped w1,
    scanned_without_hit self names skipped w = Some w1
    /\ (runs = skipped
        \/ exists run rest,
             runs = skipped ++ run :: rest
             /\ match octokit_listWorkflowRunArtifacts (ArtifactManager.owner self)
                        (ArtifactManager.repo self) (WorkflowRun.id run) w1 with
                | (inl _, _) => True
                | (inr artifacts, _) => exists hit, first_match names artifacts = Some hit
                end).
Proof.
  revert w. induction runs as [|run runs IH]; intros w.
  - exists [], w. split; [reflexivity|left; reflexivity].
  - destruct (octokit_listWorkflowRunArtifacts (ArtifactManager.owner self)
                (ArtifactManager.repo self) (WorkflowRun.id run) w)
      as [[e|artifacts] w'] eqn:Hlist.
    + exists [], w. split; [reflexivity|]. right. exists run, runs.
      split; [reflexivity|]. rewrite Hlist. exact I.
    + destruct (first_match names artifacts) as [hit|] eqn:Hmatch.
      * exists [], w. split; [reflexivity|]. right. exists run, runs.
        split; [reflexivity|]. rewrite Hlist. eauto.
      * destruct (IH w') as (skipped & w1 & Hscan & Hstop).
        exists (run :: skipped), w1. split.
        -- cbn [scanned_without_hit]. rewrite Hlist, Hmatch. exact Hscan.
        -- destruct Hstop as [->|(run' & rest & -> & Hrun')];
             [left; reflexivity|].
           right. exists run', rest. split; [reflexivity|exact Hrun'].
Qed.

Lemma fetch_artifact_succeeds self tmp_prefix file what artifact st v :
  fetch_succeeds self tmp_prefix file artifact (world st) v ->
  (fetch_artifact self tmp_prefix (extractAndRead file what) artifact st).1
  = inr (Some v).
Proof.
  intros (data & w1 & tmpDir & w2 & w3 & w4 & text & w5 & w6 & w7
          & Hdownload & Hmk & Hwrite & Hzip & Hexists & Hread & Hparse & Hunlink & Hrm).
  unfold fetch_artifact, extractAndRead, try_catch, bind, call, observe, pure_call,
    sent, core_info, core_warning, ret.
  cbn [world heap log events]. rewrite Hdownload. cbn [world heap log events fst snd].
  rewrite Hmk. cbn [world heap log events fst snd].
  rewrite Hwrite. cbn [world heap log events fst snd].
  rewrite Hzip. cbn [world heap log events fst snd].
  rewrite Hexists. cbn [negb world heap log events fst snd].
  rewrite Hread. cbn [world heap log events fst snd].
  rewrite Hparse. cbn [world heap log events fst snd].
  rewrite Hunlink. cbn [world heap log events fst snd].
  rewrite Hrm. reflexivity.
Qed.

Lemma fetch_artifact_requests self tmp_prefix file what artifact st :
  exists tail,
    events (fetch_artifact self tmp_prefix (extractAndRead file what) artifact st).2
    = events st ++ EvDownload (Artifact.id artifact) :: tail
    /\ after_download tail.
Proof.
  destruct (fetch_artifact_trace self tmp_prefix (extractAndRead file what) artifact st)
    as (tail & Hev & Htail); [intros; apply extractAndRead_same_events|].
  destruct Htail as [->|(path & data & ->)].
  - exists []. split; [exact Hev|left; reflexivity].
  - exists [EvWriteFile path data]. split; [exact Hev|right; eauto].
Qed.

End ScanSteps.

Section BranchLookup.
Context {W : Type} `{Platform W}.
Implicit Types (self : ArtifactManager.t) (st : state W).

Lemma try_catch_on_failure_events (m : M W (option jsval)) prefix st :
  events (try_catch m (on_failure prefix) st).2 = events (m st).2.
Proof. unfold try_catch. destruct (m st) as [[e|r] st']; reflexivity. Qed.

Lemma try_catch_on_failure_value (m : M W (option jsval)) prefix st r :
  (m st).1 = inr r -> (try_catch m (on_failure prefix) st).1 = inr r.
Proof.
  unfold try_catch. destruct (m st) as [[e|r'] st']; simpl; [discriminate|].
  intros H0. exact H0.
Qed.

Lemma try_catch_on_failure_thrown (m : M W (option jsval)) prefix st e :
  (m st).1 = inl e -> (try_catch m (on_failure prefix) st).1 = inr None.
Proof.
  unfold try_catch. destruct (m st) as [[e'|r'] st']; simpl; [|discriminate].
  intros _. reflexivity.
Qed.

Lemma try_catch_listing {A} q (k : list WorkflowRun.t -> M W A) handler st runs w0 :
  octokit_listWorkflowRunsForRepo q (world st) = (inr runs, w0) ->
  try_catch (bind (listWorkflowRunsForRepo q) k) handler st
  = try_catch (k runs) handler
      (mkState w0 (heap st) (log st) (events st ++ [EvListRuns q])).
Proof.
  intros Hlist. unfold listWorkflowRunsForRepo, try_catch, bind, sent, call.
  cbn [world heap log events]. rewrite Hlist. reflexivity.
Qed.

Lemma try_catch_listing_fails q (k : list WorkflowRun.t -> M W (option jsval)) prefix
    st e w0 :
  octokit_listWorkflowRunsForRepo q (world st) = (inl e, w0) ->
  (try_catch (bind (listWorkflowRunsForRepo q) k) (on_failure prefix) st).1 = inr None
  /\ events (try_catch (bind (listWorkflowRunsForRepo q) k) (on_failure prefix) st).2
     = events st ++ [EvListRuns q].
Proof.
  intros Hlist. unfold listWorkflowRunsForRepo, try_catch, bind, sent, call.
  cbn [world heap log events]. rewrite Hlist. split; reflexivity.
Qed.

(** The scan of a listing, as the retrievals start it. *)
Lemma scan_or_nothing self what tmp_prefix extract names msg runs st :
  runs <> [] ->
  match runs with
  | [] => bind (core_info msg) (fun _ => ret None)
  | _ => scan_runs self what tmp_prefix extract names runs
  end st
  = scan_runs self what tmp_prefix extract names runs st.
Proof. destruct runs; [contradiction|reflexivity]. Qed.

Lemma scan_of_miss self what tmp_prefix extract names msg prefix runs st w1 :
  scanned_without_hit self names runs (world st) = Some w1 ->
  let out :=
    try_catch
      (match runs with
       | [] => bind (core_info msg) (fun _ => ret None)
       | _ => scan_runs self what tmp_prefix extract names runs
       end) (on_failure prefix) st in
  out.1 = inr None /\ events out.2 = events st ++ artifact_listings runs
  /\ world out.2 = w1.
Proof.
  intros Hscan. cbv zeta. destruct runs as [|run runs].
  - injection Hscan as <-. unfold try_catch, bind, core_info, ret. simpl.
    rewrite app_nil_r. auto.
  - pose proof (scan_runs_skip self what tmp_prefix extract names (run :: runs) [] st w1
                  Hscan) as Hskip.
    rewrite app_nil_r in Hskip. unfold try_catch. rewrite Hskip.
    cbn [scan_runs]. unfold bind, core_info, ret. simpl. auto.
Qed.

Lemma scan_of_failure self what tmp_prefix extract names msg prefix
    skipped run rest st w1 e w2 :
  scanned_without_hit self names skipped (world st) = Some w1 ->
  octokit_listWorkflowRunArtifacts (ArtifactManager.owner self)
    (ArtifactManager.repo self) (WorkflowRun.id run) w1 = (inl e, w2) ->
  let out :=
    try_catch
      (match skipped ++ run :: rest with
       | [] => bind (core_info msg) (fun _ => ret None)
       | _ => scan_runs self what tmp_prefix extract names (skipped ++ run :: rest)
       end) (on_failure prefix) st in
  out.1 = inr None
  /\ events out.2 = events st ++ artifact_listings (skipped ++ [run]).
Proof.
  intros Hscan Hlist. cbv zeta.
  assert (Hne : skipped ++ run :: rest <> []) by (destruct skipped; discriminate).
  unfold try_catch. rewrite (scan_or_nothing _ _ _ _ _ _ _ _ Hne).
  rewrite (scan_runs_skip _ _ _ _ _ _ _ _ _ Hscan).
  rewrite (scan_runs_request_fails _ _ _ _ _ _ _ _ e w2) by exact Hlist.
  unfold on_failure, bind, core_warning, ret. simpl.
  split; [reflexivity|].
  rewrite artifact_listings_app, <- app_assoc. reflexivity.
Qed.

Lemma scan_of_hit self what tmp_prefix file names msg prefix runs st skipped run a w2 :
  first_hit self names runs (world st) skipped run a w2 ->
  let out :=
    try_catch
      (match runs with
       | [] => bind (core_info msg) (fun _ => ret None)
       | _ => scan_runs self what tmp_prefix (extractAndRead file what) names runs
       end) (on_failure prefix) st in
  (exists tail,
      events out.2
      = events st ++ artifact_listings (skipped ++ [run])
        ++ EvDownload (Artifact.id a) :: tail
      /\ after_download tail)
  /\ (forall v, fetch_succeeds self tmp_prefix file a w2 v -> out.1 = inr (Some v)).
Proof.
  intros (rest & w1 & artifacts & n & -> & Hscan & Hlist & Hmatch). cbv zeta.
  assert (Hne : skipped ++ run :: rest <> []) by (destruct skipped; discriminate).
  assert (Hrun : exists st2,
             world st2 = w2
             /\ events st2 = events st ++ artifact_listings (skipped ++ [run])
             /\ scan_runs self what tmp_prefix (extractAndRead file what) names
                  (skipped ++ run :: rest) st
                = fetch_artifact self tmp_prefix (extractAndRead file what) a st2).
  { rewrite (scan_runs_skip _ _ _ _ _ _ _ _ _ Hscan).
    destruct (scan_runs_hit self what tmp_prefix (extractAndRead file what) names run rest
                (mkState w1 (heap st) (log st) (events st ++ artifact_listings skipped))
                artifacts w2 n a Hlist Hmatch) as [info Hhit].
    eexists. split; [|split; [|exact Hhit]]; [reflexivity|].
    cbn [events]. rewrite artifact_listings_app, <- app_assoc. reflexivity. }
  destruct Hrun as (st2 & Hworld & Hevents & Hrun).
  split.
  - destruct (fetch_artifact_requests self tmp_prefix file what a st2)
      as (tail & Hev & Htail).
    exists tail. split; [|exact Htail].
    rewrite try_catch_on_failure_events, (scan_or_nothing _ _ _ _ _ _ _ _ Hne), Hrun, Hev,
      Hevents, <- app_assoc. reflexivity.
  - intros v Hfetch. apply try_catch_on_failure_value.
    rewrite (scan_or_nothing _ _ _ _ _ _ _ _ Hne), Hrun.
    apply fetch_artifact_succeeds. rewrite Hworld. exact Hfetch.
Qed.

(** The four ways a retrieval by branch ends, from the state in which it
    lists the runs. *)
Lemma branch_lookup_hit self what tmp_prefix file names baseBranch prefix st
    runs w0 skipped run a w2 :
  octokit_listWorkflowRunsForRepo (branch_query self baseBranch) (world st)
  = (inr runs, w0) ->
  first_hit self names runs w0 skipped run a w2 ->
  let out :=
    try_catch (branch_lookup self what tmp_prefix (extractAndRead file what) names
                 baseBranch) (on_failure prefix) st in
  (exists tail,
      events out.2
      = events st ++ EvListRuns (branch_query self baseBranch)
        :: artifact_listings (skipped ++ [run]) ++ EvDownload (Artifact.id a) :: tail
      /\ after_download tail)
  /\ (forall v, fetch_succeeds self tmp_prefix file a w2 v -> out.1 = inr (Some v)).
Proof.
  intros Hlist Hhit. cbv zeta. unfold branch_lookup.
  rewrite (try_catch_listing _ _ _ _ _ _ Hlist).
  destruct (scan_of_hit self what tmp_prefix file names (no_runs_for_branch baseBranch)
              prefix runs
              (mkState w0 (heap st) (log st)
                 (events st ++ [EvListRuns (branch_query self baseBranch)]))
              skipped run a w2 Hhit) as [(tail & Hev & Htail) Hvalue].
  split; [|exact Hvalue].
  exists tail. split; [|exact Htail].
  rewrite Hev. cbn [events]. rewrite <- app_assoc. reflexivity.
Qed.

Lemma branch_lookup_miss self what tmp_prefix extract names baseBranch prefix st
    runs w0 w1 :
  octokit_listWorkflowRunsForRepo (branch_query self baseBranch) (world st)
  = (inr runs, w0) ->
  scanned_without_hit self names runs w0 = Some w1 ->
  let out :=
    try_catch (branch_lookup self what tmp_prefix extract names baseBranch)
      (on_failure prefix) st in
  out.1 = inr None
  /\ events out.2
     = events st ++ EvListRuns (branch_query self baseBranch) :: artifact_listings runs.
Proof.
  intros Hlist Hscan. cbv zeta. unfold branch_lookup.
  rewrite (try_catch_listing _ _ _ _ _ _ Hlist).
  destruct (scan_of_miss self what tmp_prefix extract names
              (no_runs_for_branch baseBranch) prefix runs
              (mkState w0 (heap st) (log st)
                 (events st ++ [EvListRuns (branch_query self baseBranch)]))
              w1 Hscan) as (Hvalue & Hev & _).
  split; [exact Hvalue|].
  rewrite Hev. cbn [events]. rewrite <- app_assoc. reflexivity.
Qed.

Lemma branch_lookup_trace self what tmp_prefix file names baseBranch prefix st st1 :
  world st1 = world st -> events st1 = events st ->
  retrieval_trace self baseBranch names st
    (new_events st
       (try_catch (branch_lookup self what tmp_prefix (extractAndRead file what) names
                     baseBranch) (on_failure prefix) st1).2).
Proof.
  intros Hworld Hevents. unfold retrieval_trace. cbv zeta. rewrite <- Hworld.
  destruct (octokit_listWorkflowRunsForRepo (branch_query self baseBranch) (world st1))
    as [[e|runs] w0] eqn:Hlist.
  - apply new_events_app. unfold branch_lookup.
    rewrite (proj2 (try_catch_listing_fails _ _ _ _ _ _ Hlist)), Hevents. reflexivity.
  - destruct (scan_stops self names runs w0) as (skipped & w1 & Hscan & Hstop).
    exists skipped, w1. split; [exact Hscan|].
    destruct Hstop as [->|(run & rest & -> & Hrun)].
    + left. split; [reflexivity|]. apply new_events_app.
      rewrite (proj2 (branch_lookup_miss _ _ _ _ _ _ _ _ _ _ _ Hlist Hscan)), Hevents.
      reflexivity.
    + right. exists run, rest. split; [reflexivity|].
      destruct (octokit_listWorkflowRunArtifacts (ArtifactManager.owner self)
                  (ArtifactManager.repo self) (WorkflowRun.id run) w1)
        as [[e|artifacts] w2] eqn:Hartifacts.
      * apply new_events_app. unfold branch_lookup.
        rewrite (try_catch_listing _ _ _ _ _ _ Hlist).
        rewrite (proj2 (scan_of_failure self what tmp_prefix (extractAndRead file what)
                          names (no_runs_for_branch baseBranch) prefix skipped run rest
                          (mkState w0 (heap st1) (log st1)
                             (events st1
                              ++ [EvListRuns (branch_query self baseBranch)]))
                          w1 e w2 Hscan Hartifacts)).
        cbn [events]. rewrite Hevents, <- app_assoc. reflexivity.
      * destruct Hrun as [[n a] Hmatch].
        assert (Hhit : first_hit self names (skipped ++ run :: rest) w0 skipped run a w2)
          by (exists rest, w1, artifacts, n; auto).
        destruct (branch_lookup_hit self what tmp_prefix file names baseBranch prefix st1
                    _ _ _ _ _ _ Hlist Hhit) as [(tail & Hev & Htail) _].
        exists n, a, tail. split; [exact Hmatch|]. split; [|exact Htail].
        apply new_events_app. rewrite Hev, Hevents. reflexivity.
Qed.

End BranchLookup.

(** * The retrievals of the artifact manager *)

Section Retrievals.
Context {W : Type} `{Platform W}.
Implicit Types (self : ArtifactManager.t) (st : state W).

(** Both retrievals are their first messages followed by the lookup on
    the base branch, in a try block. *)
Lemma downloadBaseCoverageResults_lookup self baseBranch flags name st :
  exists st1,
    world st1 = world st /\ events st1 = events st
    /\ downloadBaseCoverageResults self baseBranch flags name st
       = try_catch
           (branch_lookup self (lit "coverage") (lit "codecov-base-coverage-")
              (extractAndRead (lit "coverage-results.json") (lit "coverage"))
              (coverage_artifact_names baseBranch flags name) baseBranch)
           (on_failure (lit "Failed to download base coverage artifact: ")) st1.
Proof.
  unfold downloadBaseCoverageResults. cbv zeta. rewrite try_catch_core_info.
  destruct flags as [[|f fs]|]; rewrite ?try_catch_ret, ?try_catch_core_info;
    (eexists (mkState _ _ _ _); split; [|split; [|reflexivity]]; reflexivity).
Qed.

Lemma downloadBaseResults_lookup self baseBranch name st :
  exists st1,
    world st1 = world st /\ events st1 = events st
    /\ downloadBaseResults self baseBranch name st
       = try_catch
           (branch_lookup self (lit "test") (lit "codecov-base-test-")
              (extractAndRead (lit "test-results.json") (lit "test"))
              (test_artifact_names baseBranch name) baseBranch)
           (on_failure (lit "Failed to download base test artifact: ")) st1.
Proof.
  unfold downloadBaseResults. cbv zeta. rewrite try_catch_core_info.
  eexists (mkState _ _ _ _). split; [|split; [|reflexivity]]; reflexivity.
Qed.

Lemma downloadBaseCoverageResults_takes_first_hit self baseBranch flags name :
  takes_first_hit self baseBranch (coverage_artifact_names baseBranch flags name)
    (lit "codecov-base-coverage-") (lit "coverage-results.json")
    (downloadBaseCoverageResults self baseBranch flags name).
Proof.
  intros st runs w0 skipped run a w2 Hlist Hhit.
  destruct (downloadBaseCoverageResults_lookup self baseBranch flags name st)
    as (st1 & Hworld & Hevents & ->).
  rewrite <- Hworld in Hlist.
  destruct (branch_lookup_hit self (lit "coverage") (lit "codecov-base-coverage-")
              (lit "coverage-results.json")
              (coverage_artifact_names baseBranch flags name) baseBranch
              (lit "Failed to download base coverage artifact: ") st1
              runs w0 skipped run a w2 Hlist Hhit) as [(tail & Hev & Htail) Hvalue].
  split; [|exact Hvalue].
  exists tail. split; [|exact Htail].
  apply new_events_app. rewrite Hev, Hevents. reflexivity.
Qed.

Lemma downloadBaseResults_takes_first_hit self baseBranch name :
  takes_first_hit self baseBranch (test_artifact_names baseBranch name)
    (lit "codecov-base-test-") (lit "test-results.json")
    (downloadBaseResults self baseBranch name).
Proof.
  intros st runs w0 skipped run a w2 Hlist Hhit.
  destruct (downloadBaseResults_lookup self baseBranch name st)
    as (st1 & Hworld & Hevents & ->).
  rewrite <- Hworld in Hlist.
  destruct (branch_lookup_hit self (lit "test") (lit "codecov-base-test-")
              (lit "test-results.json") (test_artifact_names baseBranch name) baseBranch
              (lit "Failed to download base test artifact: ") st1
              runs w0 skipped run a w2 Hlist Hhit) as [(tail & Hev & Htail) Hvalue].
  split; [|exact Hvalue].
  exists tail. split; [|exact Htail].
  apply new_events_app. rewrite Hev, Hevents. reflexivity.
Qed.

Lemma downloadBaseCoverageResults_null_without_hit self baseBranch flags name :
  null_without_hit self baseBranch (coverage_artifact_names baseBranch flags name)
    (downloadBaseCoverageResults self baseBranch flags name).
Proof.
  intros st runs w0 w1 Hlist Hscan.
  destruct (downloadBaseCoverageResults_lookup self baseBranch flags name st)
    as (st1 & Hworld & Hevents & ->).
  rewrite <- Hworld in Hlist.
  destruct (branch_lookup_miss self (lit "coverage") (lit "codecov-base-coverage-")
              (extractAndRead (lit "coverage-results.json") (lit "coverage"))
              (coverage_artifact_names baseBranch flags name) baseBranch
              (lit "Failed to download base coverage artifact: ") st1
              runs w0 w1 Hlist Hscan) as [Hvalue Hev].
  split; [exact Hvalue|].
  apply new_events_app. rewrite Hev, Hevents. reflexivity.
Qed.

Lemma downloadBaseResults_null_without_hit self baseBranch name :
  null_without_hit self baseBranch (test_artifact_names baseBranch name)
    (downloadBaseResults self baseBranch name).
Proof.
  intros st runs w0 w1 Hlist Hscan.
  destruct (downloadBaseResults_lookup self baseBranch name st)
    as (st1 & Hworld & Hevents & ->).
  rewrite <- Hworld in Hlist.
  destruct (branch_lookup_miss self (lit "test") (lit "codecov-base-test-")
              (extractAndRead (lit "test-results.json") (lit "test"))
              (test_artifact_names baseBranch name) baseBranch
              (lit "Failed to download base test artifact: ") st1
              runs w0 w1 Hlist Hscan) as [Hvalue Hev].
  split; [exact Hvalue|].
  apply new_events_app. rewrite Hev, Hevents. reflexivity.
Qed.

(** C3.  A retrieval tries, in each run, the candidate names in the
    fixed order current-with-qualifiers, current-without,
    legacy-with-qualifiers, legacy-without, and takes the first name
    under which the run lists an unexpired artifact: every earlier name
    has only expired artifacts there, and an expired artifact is never
    taken.  The first run of the listing that holds such an artifact is
    the one it takes it from: it asks for the artifacts of the runs up to
    that one, then for the download of that artifact, and returns what
    was parsed from it when the fetch succeeds.  All it downloads are
    artifacts taken this way.  It always returns, and when it has
    scanned every listed run without finding an unexpired artifact under
    a candidate name it returns [null], having asked for no download. *)
Theorem retrieval_takes_first_unexpired_candidate
    (self : ArtifactManager.t) (baseBranch : jsstring) (flags : option (list jsstring))
    (name : option jsstring) :
  let coverage := coverage_artifact_names baseBranch flags name in
  let tests := test_artifact_names baseBranch name in
  coverage = set_spread (coverage_candidates baseBranch flags name)
  /\ tests = set_spread (test_candidates baseBranch name)
  /\ (NoDup (coverage_candidates baseBranch flags name) ->
      coverage = coverage_candidates baseBranch flags name)
  /\ (forall names artifacts n a,
        first_match names artifacts = Some (n, a) ->
        a ∈ artifacts /\ Artifact.name a = n /\ Artifact.expired a = false
        /\ exists i, names !! i = Some n
             /\ forall j n' a', (j < i)%nat -> names !! j = Some n' -> a' ∈ artifacts ->
                                Artifact.name a' = n' -> Artifact.expired a' = true)
  /\ (forall names artifacts,
        first_match names artifacts = None <->
        forall a, a ∈ artifacts -> Artifact.name a ∈ names -> Artifact.expired a = true)
  /\ takes_first_hit self baseBranch coverage (lit "codecov-base-coverage-")
       (lit "coverage-results.json")
       (downloadBaseCoverageResults self baseBranch flags name)
  /\ takes_first_hit self baseBranch tests (lit "codecov-base-test-")
       (lit "test-results.json") (downloadBaseResults self baseBranch name)
  /\ (forall st ev,
        ev ∈ new_events st (downloadBaseCoverageResults self baseBranch flags name st).2 ->
        download_was_selected self coverage ev)
  /\ (forall st ev,
        ev ∈ new_events st (downloadBaseResults self baseBranch name st).2 ->
        download_was_selected self tests ev)
  /\ returns_normally (downloadBaseCoverageResults self baseBranch flags name)
  /\ returns_normally (downloadBaseResults self baseBranch name)
  /\ null_without_hit self baseBranch coverage
       (downloadBaseCoverageResults self baseBranch flags name)
  /\ null_without_hit self baseBranch tests (downloadBaseResults self baseBranch name).
Proof.
  cbv zeta.
  split; [reflexivity|]. split; [reflexivity|].
  split; [intros Hnd; apply set_spread_NoDup, Hnd|].
  split; [apply first_match_Some|].
  split; [apply first_match_None|].
  split; [apply downloadBaseCoverageResults_takes_first_hit|].
  split; [apply downloadBaseResults_takes_first_hit|].
  split; [intros st ev;
          apply emitted_new_events, downloadBaseCoverageResults_downloads_selected|].
  split; [intros st ev; apply emitted_new_events, downloadBaseResults_downloads_selected|].
  split; [apply downloadBaseCoverageResults_returns|].
  split; [apply downloadBaseResults_returns|].
  split; [apply downloadBaseCoverageResults_null_without_hit|].
  apply downloadBaseResults_null_without_hit.
Qed.

(** X6.  A retrieval lists the runs of the base branch once.  When that
    listing succeeds it asks for the artifacts of the runs in the order
    they were listed, one request per run, passes every run whose
    listing holds no unexpired candidate, and stops at the first run
    whose request fails or whose listing holds one: it asks for the
    artifacts of no later run.  On a hit it asks for the download of the
    first match of that run and writes at most that one archive.  It
    uploads nothing and leaves the objects of the caller as they were. *)
Theorem retrieval_scans_runs_in_order_until_first_hit
    (self : ArtifactManager.t) (baseBranch : jsstring) (flags : option (list jsstring))
    (name : option jsstring) (st : state W) :
  retrieval_trace self baseBranch (coverage_artifact_names baseBranch flags name) st
    (new_events st (downloadBaseCoverageResults self baseBranch flags name st).2)
  /\ retrieval_trace self baseBranch (test_artifact_names baseBranch name) st
       (new_events st (downloadBaseResults self baseBranch name st).2)
  /\ heap (downloadBaseCoverageResults self baseBranch flags name st).2 = heap st
  /\ heap (downloadBaseResults self baseBranch name st).2 = heap st.
Proof.
  split; [|split; [|split]].
  - destruct (downloadBaseCoverageResults_lookup self baseBranch flags name st)
      as (st1 & Hworld & Hevents & ->).
    apply branch_lookup_trace; assumption.
  - destruct (downloadBaseResults_lookup self baseBranch name st)
      as (st1 & Hworld & Hevents & ->).
    apply branch_lookup_trace; assumption.
  - destruct (downloadBaseCoverageResults self baseBranch flags name st) as [r st'] eqn:Hrun.
    revert Hrun. generalize st r st'.
    change (respects same_heap (downloadBaseCoverageResults self baseBranch flags name)).
    unfold downloadBaseCoverageResults, listWorkflowRunsForRepo. cbv zeta.
    apply respects_try_catch; [apply _| |intros e; repeat frame_step].
    apply respects_bind; [apply _|apply respects_core_info; apply _|intros _].
    apply respects_bind; [apply _|destruct flags as [[|]|]; repeat frame_step|intros _].
    apply respects_bind; [apply _|repeat frame_step|intros runs].
    destruct runs as [|run runs]; [repeat frame_step|].
    apply scan_runs_same_heap.
  - destruct (downloadBaseResults self baseBranch name st) as [r st'] eqn:Hrun.
    revert Hrun. generalize st r st'.
    change (respects same_heap (downloadBaseResults self baseBranch name)).
    unfold downloadBaseResults, listWorkflowRunsForRepo. cbv zeta.
    apply respects_try_catch; [apply _| |intros e; repeat frame_step].
    apply respects_bind; [apply _|apply respects_core_info; apply _|intros _].
    apply respects_bind; [apply _|repeat frame_step|intros runs].
    destruct runs as [|run runs]; [repeat frame_step|].
    apply scan_runs_same_heap.
Qed.

End Retrievals.

(** Two platforms.  On the first the one run of the base branch holds
    only an expired artifact under the current name: the scan passes it
    and the retrieval returns [null].  On the second the run also holds
    a live artifact under the legacy name without qualifiers, the fourth
    candidate: the retrieval asks for its download and returns what was
    parsed from it. *)
Lemma retrieval_takes_first_unexpired_candidate_witness :
  let names := [lit "codecov-coverage-results-main-test-unit";
                lit "codecov-coverage-results-main-test";
                lit "codecov-coverage-results-main-unit";
                lit "codecov-coverage-results-main"] in
  let run := WorkflowRun.mk 101 7 in
  let live := Artifact.mk (lit "codecov-coverage-results-main") 2 false in
  let v := JObject [("lineRate", JNumber (of_Z 80))] in
  (coverage_artifact_names (H := Mock.platform expired_only) (lit "main")
     (Some [lit "unit"]) None = names
   /\ scanned_without_hit (H := Mock.platform expired_only) sample_manager names [run] tt
      = Some tt
   /\ (downloadBaseCoverageResults (H := Mock.platform expired_only) sample_manager
         (lit "main") (Some [lit "unit"]) None (Mock.start ∅)).1 = inr None)
  /\ (first_hit (H := Mock.platform legacy_only) sample_manager names [run] tt [] run
        live tt
      /\ fetch_succeeds (H := Mock.platform legacy_only) sample_manager
           (lit "codecov-base-coverage-") (lit "coverage-results.json") live tt v
      /\ (downloadBaseCoverageResults (H := Mock.platform legacy_only) sample_manager
            (lit "main") (Some [lit "unit"]) None (Mock.start ∅)).1 = inr (Some v)).
Proof.
  cbv zeta.
  assert (Hnames : coverage_artifact_names (H := Mock.platform expired_only) (lit "main")
                     (Some [lit "unit"]) None
                   = [lit "codecov-coverage-results-main-test-unit";
                      lit "codecov-coverage-results-main-test";
                      lit "codecov-coverage-results-main-unit";
                      lit "codecov-coverage-results-main"])
    by (vm_compute; reflexivity).
  assert (Hnames' : coverage_artifact_names (H := Mock.platform legacy_only) (lit "main")
                      (Some [lit "unit"]) None
                    = [lit "codecov-coverage-results-main-test-unit";
                       lit "codecov-coverage-results-main-test";
                       lit "codecov-coverage-results-main-unit";
                       lit "codecov-coverage-results-main"])
    by (vm_compute; reflexivity).
  assert (Hscan : scanned_without_hit (H := Mock.platform expired_only) sample_manager
                    [lit "codecov-coverage-results-main-test-unit";
                     lit "codecov-coverage-results-main-test";
                     lit "codecov-coverage-results-main-unit";
                     lit "codecov-coverage-results-main"] [WorkflowRun.mk 101 7] tt
                  = Some tt)
    by (vm_compute; reflexivity).
  assert (Hhit : first_hit (H := Mock.platform legacy_only) sample_manager
                   [lit "codecov-coverage-results-main-test-unit";
                    lit "codecov-coverage-results-main-test";
                    lit "codecov-coverage-results-main-unit";
                    lit "codecov-coverage-results-main"] [WorkflowRun.mk 101 7] tt []
                   (WorkflowRun.mk 101 7)
                   (Artifact.mk (lit "codecov-coverage-results-main") 2 false) tt).
  { exists [], tt,
      [Artifact.mk (lit "codecov-coverage-results-main-test-unit") 1 true;
       Artifact.mk (lit "codecov-coverage-results-main") 2 false],
      (lit "codecov-coverage-results-main").
    repeat split; vm_compute; reflexivity. }
  assert (Hfetch : fetch_succeeds (H := Mock.platform legacy_only) sample_manager
                     (lit "codecov-base-coverage-") (lit "coverage-results.json")
                     (Artifact.mk (lit "codecov-coverage-results-main") 2 false) tt
                     (JObject [("lineRate", JNumber (of_Z 80))])).
  { exists [], tt, (lit "/tmp/codecov-base-coverage-XXXXXX"), tt, tt, tt, (lit "{}"),
      tt, tt, tt.
    repeat split; vm_compute; reflexivity. }
  split.
  - split; [exact Hnames|]. split; [exact Hscan|].
    destruct (retrieval_takes_first_unexpired_candidate (H := Mock.platform expired_only)
                sample_manager (lit "main") (Some [lit "unit"]) None)
      as (_ & _ & _ & _ & _ & _ & _ & _ & _ & _ & _ & Hnull & _).
    rewrite Hnames in Hnull.
    exact (proj1 (Hnull (Mock.start ∅) [WorkflowRun.mk 101 7] tt tt eq_refl Hscan)).
  - split; [exact Hhit|]. split; [exact Hfetch|].
    destruct (retrieval_takes_first_unexpired_candidate (H := Mock.platform legacy_only)
                sample_manager (lit "main") (Some [lit "unit"]) None)
      as (_ & _ & _ & _ & _ & Htakes & _).
    rewrite Hnames' in Htakes.
    exact (proj2 (Htakes (Mock.start ∅) [WorkflowRun.mk 101 7] tt [] (WorkflowRun.mk 101 7)
                    (Artifact.mk (lit "codecov-coverage-results-main") 2 false) tt
                    eq_refl Hhit)
             (JObject [("lineRate", JNumber (of_Z 80))]) Hfetch).
Defined.

(** * What an upload persists *)

Section UploadPersists.
Context {W : Type} `{Platform W}.




End UploadPersists.


(** * The improvement flag *)




(** * Retrieval by base commit *)

Section CommitLookup.
Context {W : Type} `{Platform W}.
Implicit Types (self : ArtifactManager.t) (st : state W).

Lemma retrieval_trace_first self baseBranch names st evs :
  retrieval_trace self baseBranch names st evs ->
  exists rest, evs = EvListRuns (branch_query self baseBranch) :: rest.
Proof.
  unfold retrieval_trace. cbv zeta.
  destruct (octokit_listWorkflowRunsForRepo _ (world st)) as [[e|runs] w0];
    [intros ->; eauto|].
  intros (skipped & w1 & _ & [[_ ->]|(run & rest & _ & Hrun)]); [eauto|].
  destruct (octokit_listWorkflowRunArtifacts _ _ _ w1) as [[e|artifacts] w2].
  - rewrite Hrun. eauto.
  - destruct Hrun as (n & a & tail & _ & -> & _). eauto.
Qed.

Lemma branch_lookup_events self what tmp_prefix file names baseBranch prefix st :
  exists evs,
    events (try_catch (branch_lookup self what tmp_prefix (extractAndRead file what)
                         names baseBranch) (on_failure prefix) st).2
    = events st ++ evs
    /\ retrieval_trace self baseBranch names st evs.
Proof.
  unfold retrieval_trace. cbv zeta.
  destruct (octokit_listWorkflowRunsForRepo (branch_query self baseBranch) (world st))
    as [[e|runs] w0] eqn:Hlist.
  - eexists. split; [|reflexivity]. unfold branch_lookup.
    apply (proj2 (try_catch_listing_fails _ _ _ _ _ _ Hlist)).
  - destruct (scan_stops self names runs w0) as (skipped & w1 & Hscan & Hstop).
    destruct Hstop as [->|(run & rest & -> & Hrun)].
    + eexists. split;
        [apply (proj2 (branch_lookup_miss _ _ _ _ _ _ _ _ _ _ _ Hlist Hscan))|].
      exists skipped, w1. split; [exact Hscan|]. left. split; reflexivity.
    + destruct (octokit_listWorkflowRunArtifacts (ArtifactManager.owner self)
                  (ArtifactManager.repo self) (WorkflowRun.id run) w1)
        as [[e|artifacts] w2] eqn:Hartifacts.
      * eexists. split.
        -- unfold branch_lookup. rewrite (try_catch_listing _ _ _ _ _ _ Hlist).
           rewrite (proj2 (scan_of_failure self what tmp_prefix
                             (extractAndRead file what) names
                             (no_runs_for_branch baseBranch) prefix skipped run rest
                             (mkState w0 (heap st) (log st)
                                (events st
                                 ++ [EvListRuns (branch_query self baseBranch)]))
                             w1 e w2 Hscan Hartifacts)).
           cbn [events]. rewrite <- app_assoc. reflexivity.
        -- exists skipped, w1. split; [exact Hscan|]. right. exists run, rest.
           split; [reflexivity|]. rewrite Hartifacts. reflexivity.
      * destruct Hrun as [[n a] Hmatch].
        assert (Hhit : first_hit self names (skipped ++ run :: rest) w0 skipped run a w2)
          by (exists rest, w1, artifacts, n; auto).
        destruct (branch_lookup_hit self what tmp_prefix file names baseBranch prefix st
                    _ _ _ _ _ _ Hlist Hhit) as [(tail & Hev & Htail) _].
        eexists. split; [exact Hev|].
        exists skipped, w1. split; [exact Hscan|]. right. exists run, rest.
        split; [reflexivity|]. rewrite Hartifacts. exists n, a, tail. auto.
Qed.

Lemma scan_tier_skip self what tmp_prefix extract names skipped rest st w1 :
  scanned_without_hit self names skipped (world st) = Some w1 ->
  scan_tier self what tmp_prefix extract names (skipped ++ rest) st
  = scan_tier self what tmp_prefix extract names rest
      (mkState w1 (heap st) (log st) (events st ++ artifact_listings skipped)).
Proof.
  revert st. induction skipped as [|run skipped IH]; intros st Hscan.
  - injection Hscan as <-. cbn [app artifact_listings fmap list_fmap].
    rewrite app_nil_r. destruct st; reflexivity.
  - cbn [scanned_without_hit] in Hscan.
    destruct (octokit_listWorkflowRunArtifacts (ArtifactManager.owner self)
                (ArtifactManager.repo self) (WorkflowRun.id run) (world st))
      as [[e|artifacts] w'] eqn:Hlist; [discriminate|].
    destruct (first_match names artifacts) as [hit|] eqn:Hmatch; [discriminate|].
    cbn [app scan_tier]. unfold bind at 1. unfold sent at 1. cbv beta iota.
    unfold bind at 1. unfold call at 1. cbn [world heap log events].
    rewrite Hlist, Hmatch.
    rewrite (IH (mkState w' (heap st) (log st)
                   (events st ++ [EvListArtifacts (WorkflowRun.id run)])) Hscan).
    cbn [world heap log events]. unfold artifact_listings.
    cbn [fmap list_fmap]. rewrite <- app_assoc. reflexivity.
Qed.

Lemma scan_tier_request_fails self what tmp_prefix extract names run rest st e w2 :
  octokit_listWorkflowRunArtifacts (ArtifactManager.owner self)
    (ArtifactManager.repo self) (WorkflowRun.id run) (world st) = (inl e, w2) ->
  scan_tier self what tmp_prefix extract names (run :: rest) st
  = (inl e, mkState w2 (heap st) (log st)
              (events st ++ [EvListArtifacts (WorkflowRun.id run)])).
Proof.
  intros Hlist. cbn [scan_tier]. unfold bind at 1. unfold sent at 1. cbv beta iota.
  unfold bind at 1. unfold call at 1. cbn [world heap log events].
  rewrite Hlist. reflexivity.
Qed.

Lemma scan_tier_hit self what tmp_prefix extract names run rest st artifacts w2 n a :
  octokit_listWorkflowRunArtifacts (ArtifactManager.owner self)
    (ArtifactManager.repo self) (WorkflowRun.id run) (world st) = (inr artifacts, w2) ->
  first_match names artifacts = Some (n, a) ->
  exists msg,
    scan_tier self what tmp_prefix extract names (run :: rest) st
    = bind (fetch_artifact self tmp_prefix extract a) (fun results => ret (Hit results))
        (mkState w2 (heap st) (log st ++ [LogInfo msg])
           (events st ++ [EvListArtifacts (WorkflowRun.id run)])).
Proof.
  intros Hlist Hmatch. eexists.
  cbn [scan_tier]. unfold bind at 1. unfold sent at 1. cbv beta iota.
  unfold bind at 1. unfold call at 1. cbn [world heap log events].
  rewrite Hlist, Hmatch. reflexivity.
Qed.

Section Resolve.
Variables (self : ArtifactManager.t) (what tmp_prefix file : jsstring).
Variables (names : list jsstring) (baseBranch sha prefix : jsstring).
Hypothesis Htruthy : str_truthy sha = true.

Lemma sha_tier_scan (k : tier_outcome -> M W (option jsval)) st runs w0 :
  octokit_listWorkflowRunsForRepo (sha_query self sha) (world st) = (inr runs, w0) ->
  bind (sha_lookup self what tmp_prefix (extractAndRead file what) names baseBranch
          (Some sha)) k st
  = bind (match runs with
          | [] => bind (core_info (no_runs_for_sha sha baseBranch)) (fun _ => ret Miss)
          | _ => scan_tier self what tmp_prefix (extractAndRead file what) names runs
          end) k
      (mkState w0 (heap st) (log st) (events st ++ [EvListRuns (sha_query self sha)])).
Proof.
  intros Hlist. unfold sha_lookup. rewrite Htruthy.
  unfold listWorkflowRunsForRepo.
  unfold bind at 1 2 3. unfold sent, call. cbn [world heap log events].
  rewrite Hlist. reflexivity.
Qed.

Lemma resolve_listing_fails st e w0 :
  octokit_listWorkflowRunsForRepo (sha_query self sha) (world st) = (inl e, w0) ->
  events (try_catch (resolve_base self what tmp_prefix (extractAndRead file what) names
                       baseBranch (Some sha)) (on_failure prefix) st).2
  = events st ++ [EvListRuns (sha_query self sha)].
Proof.
  intros Hlist. unfold resolve_base, sha_lookup. rewrite Htruthy.
  unfold listWorkflowRunsForRepo, try_catch, bind, sent, call.
  cbn [world heap log events]. rewrite Hlist. reflexivity.
Qed.

Lemma resolve_miss st runs w0 w1 :
  octokit_listWorkflowRunsForRepo (sha_query self sha) (world st) = (inr runs, w0) ->
  scanned_without_hit self names runs w0 = Some w1 ->
  exists st3,
    world st3 = w1
    /\ events st3 = events st ++ EvListRuns (sha_query self sha) :: artifact_listings runs
    /\ resolve_base self what tmp_prefix (extractAndRead file what) names baseBranch
         (Some sha) st
       = branch_lookup self what tmp_prefix (extractAndRead file what) names baseBranch
           st3.
Proof.
  intros Hlist Hscan. unfold resolve_base. rewrite (sha_tier_scan _ _ _ _ Hlist).
  destruct runs as [|run runs].
  - injection Hscan as <-. eexists. split; [|split]; [| |reflexivity]; reflexivity.
  - pose proof (scan_tier_skip self what tmp_prefix (extractAndRead file what) names
                  (run :: runs) []
                  (mkState w0 (heap st) (log st)
                     (events st ++ [EvListRuns (sha_query self sha)])) w1 Hscan)
      as Hskip.
    rewrite app_nil_r in Hskip. unfold bind at 1. rewrite Hskip.
    cbn [scan_tier]. unfold ret at 1. cbv beta iota.
    eexists. split; [|split]; [| |reflexivity]; [reflexivity|].
    cbn [events]. rewrite <- app_assoc. reflexivity.
Qed.

Lemma resolve_hit st runs w0 skipped run a w2 :
  octokit_listWorkflowRunsForRepo (sha_query self sha) (world st) = (inr runs, w0) ->
  first_hit self names runs w0 skipped run a w2 ->
  exists st2,
    world st2 = w2
    /\ events st2
       = events st ++ EvListRuns (sha_query self sha)
         :: artifact_listings (skipped ++ [run])
    /\ resolve_base self what tmp_prefix (extractAndRead file what) names baseBranch
         (Some sha) st
       = fetch_artifact self tmp_prefix (extractAndRead file what) a st2.
Proof.
  intros Hlist (rest & w1 & artifacts & n & -> & Hscan & Hartifacts & Hmatch).
  unfold resolve_base. rewrite (sha_tier_scan _ _ _ _ Hlist).
  assert (Hne : forall (A : Type) (x y : A),
             match skipped ++ run :: rest with [] => x | _ => y end = y)
    by (intros; destruct skipped; reflexivity).
  rewrite Hne. unfold bind at 1.
  rewrite (scan_tier_skip self what tmp_prefix (extractAndRead file what) names skipped
             (run :: rest)
             (mkState w0 (heap st) (log st)
                (events st ++ [EvListRuns (sha_query self sha)])) w1 Hscan).
  cbn [world heap log events].
  destruct (scan_tier_hit self what tmp_prefix (extractAndRead file what) names run rest
              (mkState w1 (heap st) (log st)
                 ((events st ++ [EvListRuns (sha_query self sha)])
                  ++ artifact_listings skipped))
              artifacts w2 n a Hartifacts Hmatch) as [info Hhit].
  cbn [world heap log events] in Hhit. rewrite Hhit.
  exists (mkState w2 (heap st) (log st ++ [LogInfo info])
            (((events st ++ [EvListRuns (sha_query self sha)])
              ++ artifact_listings skipped)
             ++ [EvListArtifacts (WorkflowRun.id run)])).
  split; [reflexivity|]. split.
  - cbn [events]. rewrite artifact_listings_app.
    rewrite <- !app_assoc. reflexivity.
  - unfold bind, ret.
    destruct (fetch_artifact self tmp_prefix (extractAndRead file what) a _)
      as [[e|r] st']; reflexivity.
Qed.

Lemma resolve_request_fails st skipped run rest w0 w1 e w2 :
  octokit_listWorkflowRunsForRepo (sha_query self sha) (world st)
  = (inr (skipped ++ run :: rest), w0) ->
  scanned_without_hit self names skipped w0 = Some w1 ->
  octokit_listWorkflowRunArtifacts (ArtifactManager.owner self)
    (ArtifactManager.repo self) (WorkflowRun.id run) w1 = (inl e, w2) ->
  events (try_catch (resolve_base self what tmp_prefix (extractAndRead file what) names
                       baseBranch (Some sha)) (on_failure prefix) st).2
  = events st ++ EvListRuns (sha_query self sha) :: artifact_listings (skipped ++ [run]).
Proof.
  intros Hlist Hscan Hartifacts.
  rewrite try_catch_on_failure_events.
  unfold resolve_base. rewrite (sha_tier_scan _ _ _ _ Hlist).
  assert (Hne : forall (A : Type) (x y : A),
             match skipped ++ run :: rest with [] => x | _ => y end = y)
    by (intros; destruct skipped; reflexivity).
  rewrite Hne. unfold bind at 1.
  rewrite (scan_tier_skip self what tmp_prefix (extractAndRead file what) names skipped
             (run :: rest)
             (mkState w0 (heap st) (log st)
                (events st ++ [EvListRuns (sha_query self sha)])) w1 Hscan).
  cbn [world heap log events].
  rewrite (scan_tier_request_fails self what tmp_prefix (extractAndRead file what) names
             run rest
             (mkState w1 (heap st) (log st)
                ((events st ++ [EvListRuns (sha_query self sha)])
                 ++ artifact_listings skipped)) e w2 Hartifacts).
  cbn [events snd]. rewrite artifact_listings_app, <- !app_assoc. reflexivity.
Qed.

End Resolve.


Lemma no_listing_among_artifact_listings q runs :
  EvListRuns q ∉ artifact_listings runs.
Proof.
  unfold artifact_listings. intros Hin.
  apply list_elem_of_fmap in Hin as (id & Heq & _). discriminate.
Qed.

Lemma no_listing_after_download q tail : after_download tail -> EvListRuns q ∉ tail.
Proof.
  intros [->|(path & data & ->)] Hin.
  - apply elem_of_nil in Hin. exact Hin.
  - apply list_elem_of_singleton in Hin. discriminate.
Qed.

Lemma branch_listing_is_not_commit_listing self sha baseBranch :
  EvListRuns (branch_query self baseBranch) <> EvListRuns (sha_query self sha).
Proof.
  intros Heq. assert (Hq : branch_query self baseBranch = sha_query self sha)
    by (injection Heq; auto; congruence).
  apply (f_equal RunsQuery.head_sha) in Hq. discriminate.
Qed.

Lemma commit_then_branch_intro self baseBranch sha names what tmp_prefix file prefix
    (retrieval : M W (option jsval)) :
  str_truthy sha = true ->
  (forall st, exists st1,
      world st1 = world st /\ events st1 = events st
      /\ retrieval st
         = try_catch (resolve_base self what tmp_prefix (extractAndRead file what) names
                        baseBranch (Some sha)) (on_failure prefix) st1) ->
  commit_then_branch self baseBranch sha names tmp_prefix file retrieval.
Proof.
  intros Htruthy Hshape st. cbv zeta.
  destruct (Hshape st) as (st1 & Hworld & Hevents & ->). rewrite <- Hworld.
  (* the outcome of the search by commit *)
  assert (Hmiss : forall runs w0 w1,
             octokit_listWorkflowRunsForRepo (sha_query self sha) (world st1)
             = (inr runs, w0) ->
             scanned_without_hit self names runs w0 = Some w1 ->
             exists st3,
               world st3 = w1
               /\ events st3
                  = events st ++ EvListRuns (sha_query self sha) :: artifact_listings runs
               /\ try_catch (resolve_base self what tmp_prefix (extractAndRead file what)
                               names baseBranch (Some sha)) (on_failure prefix) st1
                  = try_catch (branch_lookup self what tmp_prefix
                                 (extractAndRead file what) names baseBranch)
                      (on_failure prefix) st3).
  { intros runs w0 w1 Hlist Hscan.
    destruct (resolve_miss self what tmp_prefix file names baseBranch sha Htruthy st1
                runs w0 w1 Hlist Hscan) as (st3 & Hw & Hev & Heq).
    exists st3. split; [exact Hw|]. split; [rewrite Hev, Hevents; reflexivity|].
    unfold try_catch. rewrite Heq. reflexivity. }
  assert (Hhit : forall runs w0 skipped run artifact w2,
             octokit_listWorkflowRunsForRepo (sha_query self sha) (world st1)
             = (inr runs, w0) ->
             first_hit self names runs w0 skipped run artifact w2 ->
             (exists tail,
                 new_events st
                   (try_catch (resolve_base self what tmp_prefix
                                 (extractAndRead file what) names baseBranch (Some sha))
                      (on_failure prefix) st1).2
                 = EvListRuns (sha_query self sha) :: artifact_listings (skipped ++ [run])
                   ++ EvDownload (Artifact.id artifact) :: tail
                 /\ after_download tail)
             /\ (forall v,
                   fetch_succeeds self tmp_prefix file artifact w2 v ->
                   (try_catch (resolve_base self what tmp_prefix
                                 (extractAndRead file what) names baseBranch (Some sha))
                      (on_failure prefix) st1).1 = inr (Some v))).
  { intros runs w0 skipped run artifact w2 Hlist Hfirst.
    destruct (resolve_hit self what tmp_prefix file names baseBranch sha Htruthy st1
                runs w0 skipped run artifact w2 Hlist Hfirst) as (st2 & Hw & Hev & Heq).
    split.
    - destruct (fetch_artifact_requests self tmp_prefix file what artifact st2)
        as (tail & Hfetch & Htail).
      exists tail. split; [|exact Htail].
      apply new_events_app.
      rewrite try_catch_on_failure_events, Heq, Hfetch, Hev, Hevents, <- app_assoc.
      reflexivity.
    - intros v Hfetch. apply try_catch_on_failure_value. rewrite Heq.
      apply fetch_artifact_succeeds. rewrite Hw. exact Hfetch. }
  assert (Hfallback : forall runs w0 w1,
             octokit_listWorkflowRunsForRepo (sha_query self sha) (world st1)
             = (inr runs, w0) ->
             scanned_without_hit self names runs w0 = Some w1 ->
             exists rest,
               new_events st
                 (try_catch (resolve_base self what tmp_prefix (extractAndRead file what)
                               names baseBranch (Some sha)) (on_failure prefix) st1).2
               = EvListRuns (sha_query self sha) :: artifact_listings runs
                 ++ EvListRuns (branch_query self baseBranch) :: rest).
  { intros runs w0 w1 Hlist Hscan.
    destruct (Hmiss runs w0 w1 Hlist Hscan) as (st3 & Hw & Hev & ->).
    destruct (branch_lookup_events self what tmp_prefix file names baseBranch prefix st3)
      as (evs & Hbranch & Htrace).
    apply retrieval_trace_first in Htrace as [rest ->].
    exists rest. apply new_events_app. rewrite Hbranch, Hev, <- app_assoc. reflexivity. }
  split; [|split; [exact Hhit|split; [|split; [exact Hfallback|split; [|split]]]]].
  - (* the first request *)
    destruct (octokit_listWorkflowRunsForRepo (sha_query self sha) (world st1))
      as [[e|runs] w0] eqn:Hlist.
    + exists []. apply new_events_app.
      rewrite (resolve_listing_fails self what tmp_prefix file names baseBranch sha prefix
                 Htruthy st1 e w0 Hlist), Hevents. reflexivity.
    + destruct (scan_stops self names runs w0) as (skipped & w1 & Hscan & Hstop).
      destruct Hstop as [->|(run & rest & -> & Hrun)].
      * destruct (Hfallback skipped w0 w1 eq_refl Hscan) as [rest ->]. eauto.
      * destruct (octokit_listWorkflowRunArtifacts (ArtifactManager.owner self)
                    (ArtifactManager.repo self) (WorkflowRun.id run) w1)
          as [[e|artifacts] w2] eqn:Hartifacts.
        -- eexists. apply new_events_app.
           rewrite (resolve_request_fails self what tmp_prefix file names baseBranch sha
                      prefix Htruthy st1 skipped run rest w0 w1 e w2 Hlist Hscan
                      Hartifacts), Hevents. reflexivity.
        -- destruct Hrun as [[n a] Hmatch].
           assert (Hfirst : first_hit self names (skipped ++ run :: rest) w0 skipped run
                              a w2) by (exists rest, w1, artifacts, n; auto).
           destruct (Hhit _ w0 skipped run a w2 eq_refl Hfirst) as [(tail & -> & _) _].
           eauto.
  - (* the commit has no run *)
    intros w0 Hlist.
    destruct (Hfallback [] w0 w0 Hlist eq_refl) as [rest ->]. eauto.
  - (* the branch is listed in no other case *)
    intros Hin.
    destruct (octokit_listWorkflowRunsForRepo (sha_query self sha) (world st1))
      as [[e|runs] w0] eqn:Hlist.
    + exfalso. revert Hin.
      rewrite (new_events_app st _ [EvListRuns (sha_query self sha)]).
      * intros Hin. apply list_elem_of_singleton in Hin. revert Hin.
        apply branch_listing_is_not_commit_listing.
      * rewrite (resolve_listing_fails self what tmp_prefix file names baseBranch sha
                   prefix Htruthy st1 e w0 Hlist), Hevents. reflexivity.
    + destruct (scan_stops self names runs w0) as (skipped & w1 & Hscan & Hstop).
      destruct Hstop as [->|(run & rest & -> & Hrun)]; [eauto|].
      exfalso. revert Hin.
      destruct (octokit_listWorkflowRunArtifacts (ArtifactManager.owner self)
                  (ArtifactManager.repo self) (WorkflowRun.id run) w1)
        as [[e|artifacts] w2] eqn:Hartifacts.
      * rewrite (new_events_app st _
                   (EvListRuns (sha_query self sha)
                    :: artifact_listings (skipped ++ [run]))).
        -- intros Hin. apply elem_of_cons in Hin as [Heq|Hin].
           ++ revert Heq. apply branch_listing_is_not_commit_listing.
           ++ revert Hin. apply no_listing_among_artifact_listings.
        -- rewrite (resolve_request_fails self what tmp_prefix file names baseBranch sha
                      prefix Htruthy st1 skipped run rest w0 w1 e w2 Hlist Hscan
                      Hartifacts), Hevents. reflexivity.
      * destruct Hrun as [[n a] Hmatch].
        assert (Hfirst : first_hit self names (skipped ++ run :: rest) w0 skipped run
                           a w2) by (exists rest, w1, artifacts, n; auto).
        destruct (Hhit _ w0 skipped run a w2 eq_refl Hfirst) as [(tail & -> & Htail) _].
        intros Hin. apply elem_of_cons in Hin as [Heq|Hin].
        -- revert Heq. apply branch_listing_is_not_commit_listing.
        -- apply elem_of_app in Hin as [Hin|Hin].
           ++ revert Hin. apply no_listing_among_artifact_listings.
           ++ apply elem_of_cons in Hin as [Heq|Hin]; [discriminate|].
              revert Hin. apply no_listing_after_download, Htail.
  - (* a hit among the runs of the branch *)
    intros runs w0 w1 branchRuns w2 skipped run artifact w3 Hlist Hscan Hbranch Hfirst.
    destruct (Hmiss runs w0 w1 Hlist Hscan) as (st3 & Hw & Hev & ->).
    rewrite <- Hw in Hbranch.
    destruct (branch_lookup_hit self what tmp_prefix file names baseBranch prefix st3
                branchRuns w2 skipped run artifact w3 Hbranch Hfirst)
      as [(tail & Htrace & Htail) Hvalue].
    split; [|exact Hvalue].
    exists tail. split; [|exact Htail].
    apply new_events_app. rewrite Htrace, Hev, <- app_assoc. reflexivity.
  - (* no hit anywhere *)
    intros runs w0 w1 branchRuns w2 w3 Hlist Hscan Hbranch Hscan'.
    destruct (Hmiss runs w0 w1 Hlist Hscan) as (st3 & Hw & Hev & ->).
    rewrite <- Hw in Hbranch.
    destruct (branch_lookup_miss self what tmp_prefix (extractAndRead file what) names
                baseBranch prefix st3 branchRuns w2 w3 Hbranch Hscan')
      as [Hvalue Htrace].
    split; [exact Hvalue|].
    apply new_events_app. rewrite Htrace, Hev, <- app_assoc. reflexivity.
Qed.

Lemma most_recent_first_hit (newer : relation WorkflowRun.t) skipped run rest :
  most_recent_first newer (skipped ++ run :: rest) ->
  Forall (fun passed => newer passed run) skipped /\ Forall (newer run) rest.
Proof.
  induction skipped as [|r skipped IH]; cbn [app most_recent_first].
  - intros [Hrest _]. split; [constructor|exact Hrest].
  - intros [Hr Hsorted]. destruct (IH Hsorted) as [Hpassed Hrest].
    split; [|exact Hrest]. constructor; [|exact Hpassed].
    rewrite Forall_app, Forall_cons in Hr. tauto.
Qed.

End CommitLookup.

(** * The search by base commit *)

Section BaseCommit.
Context {W : Type} `{Platform W}.

Lemma downloadBaseCoverageResults_sha_lookup self baseBranch flags sha name st :
  exists st1,
    world st1 = world st /\ events st1 = events st
    /\ downloadBaseCoverageResults_sha self baseBranch flags (Some sha) name st
       = try_catch
           (resolve_base self (lit "coverage") (lit "codecov-base-coverage-")
              (extractAndRead (lit "coverage-results.json") (lit "coverage"))
              (coverage_artifact_names baseBranch flags name) baseBranch (Some sha))
           (on_failure (lit "Failed to download base coverage artifact: ")) st1.
Proof.
  unfold downloadBaseCoverageResults_sha. cbv zeta. rewrite try_catch_core_info.
  destruct flags as [[|f fs]|]; rewrite ?try_catch_ret, ?try_catch_core_info;
    (eexists (mkState _ _ _ _); split; [|split; [|reflexivity]]; reflexivity).
Qed.

Lemma downloadBaseResults_sha_lookup self baseBranch sha name st :
  exists st1,
    world st1 = world st /\ events st1 = events st
    /\ downloadBaseResults_sha self baseBranch (Some sha) name st
       = try_catch
           (resolve_base self (lit "test") (lit "codecov-base-test-")
              (extractAndRead (lit "test-results.json") (lit "test"))
              (test_artifact_names baseBranch name) baseBranch (Some sha))
           (on_failure (lit "Failed to download base test artifact: ")) st1.
Proof.
  unfold downloadBaseResults_sha. cbv zeta. rewrite try_catch_core_info.
  eexists (mkState _ _ _ _). split; [|split; [|reflexivity]]; reflexivity.
Qed.

(** C2.  Modelled from the spec: given a base commit, the retrieval of
    the base summary first lists the successful runs of that exact
    commit, ten per page, and scans them in the order listed, so from
    the most recent one when the listing is most recent first; the first
    run that holds a candidate supplies the summary and ends the search.
    The runs of the base branch are listed, under the same filter, when
    the commit has no run or its runs were scanned without finding an
    artifact, and in no other case; without a commit the retrieval is
    the one by branch of the sources. *)
Theorem base_commit_is_searched_first self baseBranch sha flags name :
  str_truthy sha = true ->
  (sha_query self sha
   = {| RunsQuery.owner := ArtifactManager.owner self;
        RunsQuery.repo := ArtifactManager.repo self;
        RunsQuery.branch := None;
        RunsQuery.head_sha := Some sha;
        RunsQuery.status := lit "success";
        RunsQuery.per_page := 10 |}
   /\ branch_query self baseBranch
      = {| RunsQuery.owner := ArtifactManager.owner self;
           RunsQuery.repo := ArtifactManager.repo self;
           RunsQuery.branch := Some baseBranch;
           RunsQuery.head_sha := None;
           RunsQuery.status := lit "success";
           RunsQuery.per_page := 10 |})
  /\ commit_then_branch self baseBranch sha (coverage_artifact_names baseBranch flags name)
       (lit "codecov-base-coverage-") (lit "coverage-results.json")
       (downloadBaseCoverageResults_sha self baseBranch flags (Some sha) name)
  /\ commit_then_branch self baseBranch sha (test_artifact_names baseBranch name)
       (lit "codecov-base-test-") (lit "test-results.json")
       (downloadBaseResults_sha self baseBranch (Some sha) name)
  /\ (forall (newer : relation WorkflowRun.t) names runs w0 skipped run artifact w2,
        most_recent_first newer runs ->
        first_hit self names runs w0 skipped run artifact w2 ->
        Forall (fun passed => newer passed run) skipped
        /\ exists rest, runs = skipped ++ run :: rest /\ Forall (newer run) rest)
  /\ (forall st,
        downloadBaseCoverageResults_sha self baseBranch flags None name st
        = downloadBaseCoverageResults self baseBranch flags name st)
  /\ (forall st,
        downloadBaseResults_sha self baseBranch None name st
        = downloadBaseResults self baseBranch name st).
Proof.
  intros Htruthy.
  split; [split; reflexivity|].
  split.
  { eapply commit_then_branch_intro; [exact Htruthy|].
    intros st. apply downloadBaseCoverageResults_sha_lookup. }
  split.
  { eapply commit_then_branch_intro; [exact Htruthy|].
    intros st. apply downloadBaseResults_sha_lookup. }
  split.
  { intros newer names runs w0 skipped run artifact w2 Hsorted Hfirst.
    destruct Hfirst as (rest & w1 & artifacts & n & -> & _).
    destruct (most_recent_first_hit newer skipped run rest Hsorted) as [Hpassed Hrest].
    split; [exact Hpassed|]. exists rest. split; [reflexivity|exact Hrest]. }
  split; intros st; reflexivity.
Qed.

End BaseCommit.

(** The commit has a successful run that holds no artifact: the
    retrieval lists the runs of the commit, asks that run for its
    artifacts, then lists the runs of the base branch and returns the
    summary stored there under the legacy name. *)
Lemma base_commit_is_searched_first_witness :
  let names := [lit "codecov-coverage-results-main-test-unit";
                lit "codecov-coverage-results-main-test";
                lit "codecov-coverage-results-main-unit";
                lit "codecov-coverage-results-main"] in
  let live := Artifact.mk (lit "codecov-coverage-results-main") 2 false in
  let v := JObject [("lineRate", JNumber (of_Z 80))] in
  let retrieval :=
    downloadBaseCoverageResults_sha (H := Mock.platform commit_without_artifact)
      sample_manager (lit "main") (Some [lit "unit"]) (Some (lit "abc123")) None in
  let st := Mock.start ∅ in
  str_truthy (lit "abc123") = true
  /\ scanned_without_hit (H := Mock.platform commit_without_artifact) sample_manager
       names [WorkflowRun.mk 201 8] tt = Some tt
  /\ first_hit (H := Mock.platform commit_without_artifact) sample_manager names
       [WorkflowRun.mk 101 7] tt [] (WorkflowRun.mk 101 7) live tt
  /\ fetch_succeeds (H := Mock.platform commit_without_artifact) sample_manager
       (lit "codecov-base-coverage-") (lit "coverage-results.json") live tt v
  /\ (exists tail,
         new_events st (retrieval st).2
         = [EvListRuns (sha_query sample_manager (lit "abc123")); EvListArtifacts 201;
            EvListRuns (branch_query sample_manager (lit "main")); EvListArtifacts 101;
            EvDownload 2] ++ tail)
  /\ (retrieval st).1 = inr (Some v).
Proof.
  cbv zeta. split; [reflexivity|].
  assert (Hnames : coverage_artifact_names (H := Mock.platform commit_without_artifact)
                     (lit "main") (Some [lit "unit"]) None
                   = [lit "codecov-coverage-results-main-test-unit";
                      lit "codecov-coverage-results-main-test";
                      lit "codecov-coverage-results-main-unit";
                      lit "codecov-coverage-results-main"])
    by (vm_compute; reflexivity).
  assert (Hscan : scanned_without_hit (H := Mock.platform commit_without_artifact)
                    sample_manager
                    [lit "codecov-coverage-results-main-test-unit";
                     lit "codecov-coverage-results-main-test";
                     lit "codecov-coverage-results-main-unit";
                     lit "codecov-coverage-results-main"] [WorkflowRun.mk 201 8] tt
                  = Some tt)
    by (vm_compute; reflexivity).
  assert (Hhit : first_hit (H := Mock.platform commit_without_artifact) sample_manager
                   [lit "codecov-coverage-results-main-test-unit";
                    lit "codecov-coverage-results-main-test";
                    lit "codecov-coverage-results-main-unit";
                    lit "codecov-coverage-results-main"] [WorkflowRun.mk 101 7] tt []
                   (WorkflowRun.mk 101 7)
                   (Artifact.mk (lit "codecov-coverage-results-main") 2 false) tt).
  { exists [], tt, [Artifact.mk (lit "codecov-coverage-results-main") 2 false],
      (lit "codecov-coverage-results-main").
    repeat split; vm_compute; reflexivity. }
  assert (Hfetch : fetch_succeeds (H := Mock.platform commit_without_artifact)
                     sample_manager
                     (lit "codecov-base-coverage-") (lit "coverage-results.json")
                     (Artifact.mk (lit "codecov-coverage-results-main") 2 false) tt
                     (JObject [("lineRate", JNumber (of_Z 80))])).
  { exists [], tt, (lit "/tmp/codecov-base-coverage-XXXXXX"), tt, tt, tt, (lit "{}"),
      tt, tt, tt.
    repeat split; vm_compute; reflexivity. }
  split; [exact Hscan|]. split; [exact Hhit|]. split; [exact Hfetch|].
  destruct (base_commit_is_searched_first (H := Mock.platform commit_without_artifact)
              sample_manager (lit "main") (lit "abc123") (Some [lit "unit"]) None eq_refl)
    as (_ & Hsearch & _).
  rewrite Hnames in Hsearch.
  pose proof (Hsearch (Mock.start ∅)) as Hst. cbv zeta in Hst.
  destruct Hst as (_ & _ & _ & _ & _ & Hbranch & _).
  destruct (Hbranch [WorkflowRun.mk 201 8] tt tt [WorkflowRun.mk 101 7] tt [] 
              (WorkflowRun.mk 101 7)
              (Artifact.mk (lit "codecov-coverage-results-main") 2 false) tt
              eq_refl Hscan eq_refl Hhit) as [(tail & Hev & _) Hvalue].
  split.
  - exists tail. exact Hev.
  - exact (Hvalue (JObject [("lineRate", JNumber (of_Z 80))]) Hfetch).
Defined.
